(** * The usb_rt character-device driver: transfer engine

    A shallow embedding of [usb-rt.c].  The repository carries two variants
    of the driver:

    - the generic variant (vendor 0x0483, [WRITES_IN_FLIGHT] = 8), embedded
      in module [Rt];
    - the motor variant (vendor 0x3293, [WRITES_IN_FLIGHT] = 1, a bounded
      wait in [read], a locked [poll]), embedded in module [Mtr].

    The functions that are textually the same in both variants (completion
    handlers, [usb_rt_do_read_io], [usb_rt_flush], [usb_rt_draw_down] and the
    power-management hooks) are embedded once, before the two modules.

    Attach with all its exits is embedded in [RtAttach] and [MtrAttach], the
    sysfs attribute of the motor variant in [MtrText].  [RtOverlap] cuts
    [usb_rt_poll] and [usb_rt_read] of the generic variant in two, for the
    [poll] that runs while a [read] holds the lock.

    Each file operation is a function on the session record.  Whatever the
    kernel or the device decides (the return value of [usb_submit_urb], how a
    wait ends, whether a copy to user space faults) is an explicit argument.
    An operation that would stay suspended (a lock or an admission slot that
    nobody releases within the call) has no result: it returns [None]. *)

From Stdlib Require Import ZArith List Bool Lia.
Import ListNotations.
Local Open Scope Z_scope.

(** ** Machine integers *)

(** [size_t] arithmetic wraps modulo 2^64. *)
Definition SIZE_MODULUS : Z := 2 ^ 64.
Definition size_sub (a b : Z) : Z := (a - b) mod SIZE_MODULUS.
Definition size_add (a b : Z) : Z := (a + b) mod SIZE_MODULUS.

(** Conversion of a value to [int] (32 bits, two's complement), to
    [unsigned int] and to [ssize_t] (64 bits, two's complement). *)
Definition to_int (x : Z) : Z := (x + 2 ^ 31) mod 2 ^ 32 - 2 ^ 31.
Definition to_uint (x : Z) : Z := x mod 2 ^ 32.
Definition to_ssize (x : Z) : Z := (x + 2 ^ 63) mod 2 ^ 64 - 2 ^ 63.

(** ** Kernel constants *)

Definition ENOENT : Z := 2.
Definition EINTR : Z := 4.
Definition EIO : Z := 5.
Definition EAGAIN : Z := 11.
Definition ENOMEM : Z := 12.
Definition EFAULT : Z := 14.
Definition ENODEV : Z := 19.
Definition EPIPE : Z := 32.
Definition ECONNRESET : Z := 104.
Definition ESHUTDOWN : Z := 108.
Definition ETIMEDOUT : Z := 110.
Definition ERESTARTSYS : Z := 512.

Definition POLLIN : Z := 0x0001.
Definition POLLPRI : Z := 0x0002.
Definition POLLOUT : Z := 0x0004.
Definition POLLERR : Z := 0x0008.
Definition POLLRDNORM : Z := 0x0040.
Definition POLLWRNORM : Z := 0x0100.

(** ** The session record, [struct usb_rt] *)

(** The part of [struct urb] the engine depends on: the length the
    receive transfer was prepared with. *)
Record urb : Type := { transfer_buffer_length : Z }.

(** [struct usb_rt].  A pointer that is only tested against [NULL] is a
    [bool] ([true]: not [NULL]); the semaphore is its count; the anchor
    [submitted] is the number of send transfers it holds; the mutex is
    [true] while held.  [out_inflight] is not a field of the structure: it
    is the number of send transfers the USB core has accepted and not yet
    completed.  [bulk_out_size], [disconnected] and [has_text_api]
    exist in the motor variant only, [interface] is cleared by the generic
    variant only.  [intfdata], [minor], [pm_usage] and [text_api_attr] are
    the pieces of [struct usb_interface] the driver sets: its driver data,
    the registered device node, the power usage count and the sysfs
    attribute of the text interface. *)
Record usb_rt : Type := {
  interface : bool;
  intfdata : bool;
  minor : bool;
  pm_usage : Z;
  limit_sem : Z;
  submitted : nat;
  out_inflight : nat;
  bulk_in_urb : option urb;
  bulk_in_size : Z;
  bulk_out_size : Z;
  bulk_in_filled : Z;
  bulk_in_copied : Z;
  errors : Z;
  ongoing_read : bool;
  kref : nat;
  io_mutex : bool;
  disconnected : bool;
  has_text_api : bool;
  text_api_attr : bool
}.

(** Assignment to one field. *)
Definition set_interface (v : bool) (s : usb_rt) : usb_rt :=
  Build_usb_rt v (intfdata s) (minor s) (pm_usage s) (limit_sem s) (submitted
    s) (out_inflight s) (bulk_in_urb s) (bulk_in_size s) (bulk_out_size s)
    (bulk_in_filled s) (bulk_in_copied s) (errors s) (ongoing_read s) (kref s)
    (io_mutex s) (disconnected s) (has_text_api s) (text_api_attr s).

Definition set_intfdata (v : bool) (s : usb_rt) : usb_rt :=
  Build_usb_rt (interface s) v (minor s) (pm_usage s) (limit_sem s) (submitted
    s) (out_inflight s) (bulk_in_urb s) (bulk_in_size s) (bulk_out_size s)
    (bulk_in_filled s) (bulk_in_copied s) (errors s) (ongoing_read s) (kref s)
    (io_mutex s) (disconnected s) (has_text_api s) (text_api_attr s).

Definition set_minor (v : bool) (s : usb_rt) : usb_rt :=
  Build_usb_rt (interface s) (intfdata s) v (pm_usage s) (limit_sem s)
    (submitted s) (out_inflight s) (bulk_in_urb s) (bulk_in_size s)
    (bulk_out_size s) (bulk_in_filled s) (bulk_in_copied s) (errors s)
    (ongoing_read s) (kref s) (io_mutex s) (disconnected s) (has_text_api s)
    (text_api_attr s).

Definition set_pm_usage (v : Z) (s : usb_rt) : usb_rt :=
  Build_usb_rt (interface s) (intfdata s) (minor s) v (limit_sem s) (submitted
    s) (out_inflight s) (bulk_in_urb s) (bulk_in_size s) (bulk_out_size s)
    (bulk_in_filled s) (bulk_in_copied s) (errors s) (ongoing_read s) (kref s)
    (io_mutex s) (disconnected s) (has_text_api s) (text_api_attr s).

Definition set_limit_sem (v : Z) (s : usb_rt) : usb_rt :=
  Build_usb_rt (interface s) (intfdata s) (minor s) (pm_usage s) v (submitted
    s) (out_inflight s) (bulk_in_urb s) (bulk_in_size s) (bulk_out_size s)
    (bulk_in_filled s) (bulk_in_copied s) (errors s) (ongoing_read s) (kref s)
    (io_mutex s) (disconnected s) (has_text_api s) (text_api_attr s).

Definition set_submitted (v : nat) (s : usb_rt) : usb_rt :=
  Build_usb_rt (interface s) (intfdata s) (minor s) (pm_usage s) (limit_sem s)
    v (out_inflight s) (bulk_in_urb s) (bulk_in_size s) (bulk_out_size s)
    (bulk_in_filled s) (bulk_in_copied s) (errors s) (ongoing_read s) (kref s)
    (io_mutex s) (disconnected s) (has_text_api s) (text_api_attr s).

Definition set_out_inflight (v : nat) (s : usb_rt) : usb_rt :=
  Build_usb_rt (interface s) (intfdata s) (minor s) (pm_usage s) (limit_sem s)
    (submitted s) v (bulk_in_urb s) (bulk_in_size s) (bulk_out_size s)
    (bulk_in_filled s) (bulk_in_copied s) (errors s) (ongoing_read s) (kref s)
    (io_mutex s) (disconnected s) (has_text_api s) (text_api_attr s).

Definition set_bulk_in_urb (v : option urb) (s : usb_rt) : usb_rt :=
  Build_usb_rt (interface s) (intfdata s) (minor s) (pm_usage s) (limit_sem s)
    (submitted s) (out_inflight s) v (bulk_in_size s) (bulk_out_size s)
    (bulk_in_filled s) (bulk_in_copied s) (errors s) (ongoing_read s) (kref s)
    (io_mutex s) (disconnected s) (has_text_api s) (text_api_attr s).

Definition set_bulk_in_size (v : Z) (s : usb_rt) : usb_rt :=
  Build_usb_rt (interface s) (intfdata s) (minor s) (pm_usage s) (limit_sem s)
    (submitted s) (out_inflight s) (bulk_in_urb s) v (bulk_out_size s)
    (bulk_in_filled s) (bulk_in_copied s) (errors s) (ongoing_read s) (kref s)
    (io_mutex s) (disconnected s) (has_text_api s) (text_api_attr s).

Definition set_bulk_out_size (v : Z) (s : usb_rt) : usb_rt :=
  Build_usb_rt (interface s) (intfdata s) (minor s) (pm_usage s) (limit_sem s)
    (submitted s) (out_inflight s) (bulk_in_urb s) (bulk_in_size s) v
    (bulk_in_filled s) (bulk_in_copied s) (errors s) (ongoing_read s) (kref s)
    (io_mutex s) (disconnected s) (has_text_api s) (text_api_attr s).

Definition set_bulk_in_filled (v : Z) (s : usb_rt) : usb_rt :=
  Build_usb_rt (interface s) (intfdata s) (minor s) (pm_usage s) (limit_sem s)
    (submitted s) (out_inflight s) (bulk_in_urb s) (bulk_in_size s)
    (bulk_out_size s) v (bulk_in_copied s) (errors s) (ongoing_read s) (kref
    s) (io_mutex s) (disconnected s) (has_text_api s) (text_api_attr s).

Definition set_bulk_in_copied (v : Z) (s : usb_rt) : usb_rt :=
  Build_usb_rt (interface s) (intfdata s) (minor s) (pm_usage s) (limit_sem s)
    (submitted s) (out_inflight s) (bulk_in_urb s) (bulk_in_size s)
    (bulk_out_size s) (bulk_in_filled s) v (errors s) (ongoing_read s) (kref
    s) (io_mutex s) (disconnected s) (has_text_api s) (text_api_attr s).

Definition set_errors (v : Z) (s : usb_rt) : usb_rt :=
  Build_usb_rt (interface s) (intfdata s) (minor s) (pm_usage s) (limit_sem s)
    (submitted s) (out_inflight s) (bulk_in_urb s) (bulk_in_size s)
    (bulk_out_size s) (bulk_in_filled s) (bulk_in_copied s) v (ongoing_read s)
    (kref s) (io_mutex s) (disconnected s) (has_text_api s) (text_api_attr s).

Definition set_ongoing_read (v : bool) (s : usb_rt) : usb_rt :=
  Build_usb_rt (interface s) (intfdata s) (minor s) (pm_usage s) (limit_sem s)
    (submitted s) (out_inflight s) (bulk_in_urb s) (bulk_in_size s)
    (bulk_out_size s) (bulk_in_filled s) (bulk_in_copied s) (errors s) v (kref
    s) (io_mutex s) (disconnected s) (has_text_api s) (text_api_attr s).

Definition set_kref (v : nat) (s : usb_rt) : usb_rt :=
  Build_usb_rt (interface s) (intfdata s) (minor s) (pm_usage s) (limit_sem s)
    (submitted s) (out_inflight s) (bulk_in_urb s) (bulk_in_size s)
    (bulk_out_size s) (bulk_in_filled s) (bulk_in_copied s) (errors s)
    (ongoing_read s) v (io_mutex s) (disconnected s) (has_text_api s)
    (text_api_attr s).

Definition set_io_mutex (v : bool) (s : usb_rt) : usb_rt :=
  Build_usb_rt (interface s) (intfdata s) (minor s) (pm_usage s) (limit_sem s)
    (submitted s) (out_inflight s) (bulk_in_urb s) (bulk_in_size s)
    (bulk_out_size s) (bulk_in_filled s) (bulk_in_copied s) (errors s)
    (ongoing_read s) (kref s) v (disconnected s) (has_text_api s)
    (text_api_attr s).

Definition set_disconnected (v : bool) (s : usb_rt) : usb_rt :=
  Build_usb_rt (interface s) (intfdata s) (minor s) (pm_usage s) (limit_sem s)
    (submitted s) (out_inflight s) (bulk_in_urb s) (bulk_in_size s)
    (bulk_out_size s) (bulk_in_filled s) (bulk_in_copied s) (errors s)
    (ongoing_read s) (kref s) (io_mutex s) v (has_text_api s) (text_api_attr
    s).

Definition set_has_text_api (v : bool) (s : usb_rt) : usb_rt :=
  Build_usb_rt (interface s) (intfdata s) (minor s) (pm_usage s) (limit_sem s)
    (submitted s) (out_inflight s) (bulk_in_urb s) (bulk_in_size s)
    (bulk_out_size s) (bulk_in_filled s) (bulk_in_copied s) (errors s)
    (ongoing_read s) (kref s) (io_mutex s) (disconnected s) v (text_api_attr
    s).

Definition set_text_api_attr (v : bool) (s : usb_rt) : usb_rt :=
  Build_usb_rt (interface s) (intfdata s) (minor s) (pm_usage s) (limit_sem s)
    (submitted s) (out_inflight s) (bulk_in_urb s) (bulk_in_size s)
    (bulk_out_size s) (bulk_in_filled s) (bulk_in_copied s) (errors s)
    (ongoing_read s) (kref s) (io_mutex s) (disconnected s) (has_text_api s) v.

(** ** Kernel services the driver calls *)

(** *** Semaphore, mutex and reference count *)

Definition up (s : usb_rt) : usb_rt := set_limit_sem (limit_sem s + 1) s.

(** [down_trylock] returns 0 when it took a unit and 1 when none is free. *)
Definition down_trylock (s : usb_rt) : Z * usb_rt :=
  if 0 <? limit_sem s then (0, set_limit_sem (limit_sem s - 1) s) else (1, s).

(** [down_interruptible] takes a unit when one is free.  With none free the
    caller sleeps: a [signal] ends the sleep with [-EINTR]; without one the
    call does not return before somebody else runs. *)
Definition down_interruptible (signal : bool) (s : usb_rt)
  : option (Z * usb_rt) :=
  if 0 <? limit_sem s then Some (0, set_limit_sem (limit_sem s - 1) s)
  else if signal then Some (- EINTR, s)
  else None.

Definition mutex_lock (s : usb_rt) : option usb_rt :=
  if io_mutex s then None else Some (set_io_mutex true s).

Definition mutex_lock_interruptible (signal : bool) (s : usb_rt)
  : option (Z * usb_rt) :=
  if io_mutex s then (if signal then Some (- EINTR, s) else None)
  else Some (0, set_io_mutex true s).

Definition mutex_unlock (s : usb_rt) : usb_rt := set_io_mutex false s.

Definition kref_get (s : usb_rt) : usb_rt := set_kref (S (kref s)) s.

(** [kref_put] drops one reference and runs [release] when none is left. *)
Definition kref_put (release : usb_rt -> usb_rt) (s : usb_rt) : usb_rt :=
  let s' := set_kref (Nat.pred (kref s)) s in
  if Nat.eqb (kref s') 0 then release s' else s'.

(** *** Anchors and transfer submission *)

Definition usb_anchor_urb (s : usb_rt) : usb_rt :=
  set_submitted (S (submitted s)) s.

(** [usb_unanchor_urb] does nothing when it is handed [NULL]
    ([present = false]). *)
Definition usb_unanchor_urb (present : bool) (s : usb_rt) : usb_rt :=
  if present then set_submitted (Nat.pred (submitted s)) s else s.

(** [usb_submit_urb] on a send transfer: [rv] is what the core answers,
    0 when it accepted the transfer. *)
Definition usb_submit_out (rv : Z) (s : usb_rt) : Z * usb_rt :=
  if rv =? 0 then (rv, set_out_inflight (S (out_inflight s)) s) else (rv, s).

Definition usb_deregister_dev (s : usb_rt) : usb_rt := set_minor false s.

(** ** Completion handlers *)

(** [usb_rt_read_bulk_callback]: [status] and [actual_length] are the
    fields of the completed urb. *)
Definition usb_rt_read_bulk_callback (s : usb_rt) (status actual_length : Z)
  : usb_rt :=
  let s1 :=
    if negb (status =? 0) then set_errors status s
    else set_bulk_in_filled actual_length s in
  set_ongoing_read false s1.

(** [usb_rt_write_bulk_callback].  The generic variant also frees the
    transfer buffer here, which the record does not hold. *)
Definition usb_rt_write_bulk_callback (s : usb_rt) (status : Z) : usb_rt :=
  let s1 := if negb (status =? 0) then set_errors status s else s in
  up s1.

(** ** How the USB core ends transfers *)

(** A send transfer ends: the core takes it off its anchor, then calls the
    completion handler. *)
Definition write_urb_giveback (status : Z) (s : usb_rt) : usb_rt :=
  usb_rt_write_bulk_callback
    (set_out_inflight (Nat.pred (out_inflight s))
       (set_submitted (Nat.pred (submitted s)) s))
    status.

(** The outstanding receive transfer ends.  The core completes only a
    transfer that was submitted ([ongoing_read] is set from just before the
    submission until the handler runs), reports a status that is 0 or a
    negative error number, and never more bytes than the transfer was
    prepared for. *)
Definition read_urb_giveback (status actual_length : Z) (s : usb_rt)
  : option usb_rt :=
  match bulk_in_urb s with
  | Some u =>
      if ongoing_read s && (status <=? 0) && (0 <=? actual_length)
         && (actual_length <=? transfer_buffer_length u)
      then Some (usb_rt_read_bulk_callback s status actual_length)
      else None
  | None => None
  end.

(** [usb_kill_urb] on the receive transfer: an outstanding transfer is
    cancelled and its handler runs with [-ENOENT] before the call returns;
    an idle one is left alone. *)
Definition usb_kill_urb (s : usb_rt) : usb_rt :=
  if ongoing_read s then usb_rt_read_bulk_callback s (- ENOENT) 0 else s.

(** Send transfers that end by themselves while the driver waits, given by
    their statuses in order of completion. *)
Fixpoint usb_wait_completions (done : list Z) (s : usb_rt) : usb_rt :=
  match done with
  | [] => s
  | status :: rest =>
      if Nat.eqb (out_inflight s) 0 then s
      else usb_wait_completions rest (write_urb_giveback status s)
  end.

(** [usb_wait_anchor_empty_timeout]: 0 when the anchor still holds a
    transfer at the end of the wait, the time left (not 0) otherwise. *)
Definition usb_wait_anchor_empty_timeout (done : list Z) (s : usb_rt)
  : Z * usb_rt :=
  let s' := usb_wait_completions done s in
  ((if Nat.eqb (submitted s') 0 then 1 else 0), s').

(** [usb_kill_anchored_urbs] cancels the anchored transfers one by one; each
    handler runs with [-ENOENT].  A transfer that sits on the anchor without
    being in flight is never taken off it by a cancellation, so the call has
    no result then. *)
Definition usb_kill_anchored_urbs (s : usb_rt) : option usb_rt :=
  if Nat.eqb (submitted s) (out_inflight s)
  then Some (Nat.iter (out_inflight s) (write_urb_giveback (- ENOENT)) s)
  else None.

(** ** Functions shared by the two variants *)

(** [usb_rt_delete].  The memory of the session is given back; the record
    keeps the counters and loses the receive descriptor. *)
Definition usb_rt_delete (s : usb_rt) : usb_rt := set_bulk_in_urb None s.

(** [usb_fill_bulk_urb] on the receive descriptor.  The length is handed
    over as an [int] and stored in the [u32] field
    [transfer_buffer_length]. *)
Definition usb_fill_bulk_in (len : Z) (s : usb_rt) : usb_rt :=
  let buffer_length := to_int len in
  match bulk_in_urb s with
  | Some _ =>
      set_bulk_in_urb
        (Some {| transfer_buffer_length := to_uint buffer_length |}) s
  | None => s
  end.

(** [usb_rt_do_read_io]; [submit_rv] is the answer of [usb_submit_urb]. *)
Definition usb_rt_do_read_io (s : usb_rt) (count : Z) (submit_rv : Z)
  : Z * usb_rt :=
  let s1 := usb_fill_bulk_in (Z.min (bulk_in_size s) count) s in
  let s2 := set_ongoing_read true s1 in
  let s3 := set_bulk_in_filled 0 s2 in
  let s4 := set_bulk_in_copied 0 s3 in
  let rv := submit_rv in
  if rv <? 0 then
    ((if rv =? - ENOMEM then rv else - EIO), set_ongoing_read false s4)
  else (rv, s4).

(** [usb_rt_draw_down]; [done] lists the send transfers that end by
    themselves during the bounded wait. *)
Definition usb_rt_draw_down (done : list Z) (s : usb_rt) : option usb_rt :=
  let '(time, s1) := usb_wait_anchor_empty_timeout done s in
  match (if time =? 0 then usb_kill_anchored_urbs s1 else Some s1) with
  | Some s2 => Some (usb_kill_urb s2)
  | None => None
  end.

(** [usb_rt_flush]; [private_data] is [file->private_data]. *)
Definition usb_rt_flush (private_data : option usb_rt) (done : list Z)
  : option (Z * option usb_rt) :=
  match private_data with
  | None => Some (- ENODEV, None)
  | Some s =>
      match mutex_lock s with
      | None => None
      | Some s1 =>
          match usb_rt_draw_down done s1 with
          | None => None
          | Some s2 =>
              let res :=
                if negb (errors s2 =? 0)
                then (if errors s2 =? - EPIPE then - EPIPE else - EIO)
                else 0 in
              Some (res, Some (mutex_unlock (set_errors 0 s2)))
          end
      end
  end.

Definition usb_rt_suspend (done : list Z) (s : usb_rt)
  : option (Z * usb_rt) :=
  if negb (intfdata s) then Some (0, s)
  else match usb_rt_draw_down done s with
       | Some s' => Some (0, s')
       | None => None
       end.

Definition usb_rt_resume (s : usb_rt) : Z * usb_rt := (0, s).

Definition usb_rt_pre_reset (done : list Z) (s : usb_rt)
  : option (Z * usb_rt) :=
  match mutex_lock s with
  | None => None
  | Some s1 =>
      match usb_rt_draw_down done s1 with
      | Some s2 => Some (0, s2)
      | None => None
      end
  end.

Definition usb_rt_post_reset (s : usb_rt) : Z * usb_rt :=
  (0, mutex_unlock (set_errors (- EPIPE) s)).

(** [usb_rt_open]; [autopm_rv] is the answer of [usb_autopm_get_interface].
    The device is found through its registered node and the driver data
    of the interface. *)
Definition usb_rt_open (autopm_rv : Z) (s : usb_rt) : Z * usb_rt :=
  if negb (minor s) then (- ENODEV, s)
  else if negb (intfdata s) then (- ENODEV, s)
  else if negb (autopm_rv =? 0) then (autopm_rv, s)
  else (0, kref_get (set_pm_usage (pm_usage s + 1) s)).

(** ** What the environment decides during [read] and [write] *)

(** How a wait for the outstanding receive ends. *)
Inductive wait_result : Type :=
| Completed (status actual_length : Z)
| Signalled
| Expired.

(** What happens, in order, while [read] runs: the end of a wait, or the
    answer to a submission of the receive transfer. *)
Inductive io_event : Type :=
| Wait (w : wait_result)
| Submit (rv : Z).

Record read_env : Type := {
  r_signal : bool;          (* a signal arrives while waiting for the lock *)
  r_copy_left : Z;          (* copy_to_user: bytes it could not copy *)
  r_events : list io_event
}.

Record write_env : Type := {
  w_signal : bool;          (* a signal arrives while waiting for a slot *)
  w_urb : bool;             (* usb_alloc_urb gives a descriptor *)
  w_buf : bool;             (* usb_alloc_coherent gives a buffer *)
  w_copy_left : Z;          (* copy_from_user: bytes it could not copy *)
  w_submit : Z              (* answer of usb_submit_urb *)
}.

(** One pass of the [retry:] loop of [read] either leaves through [exit:]
    with a return value or goes back to [retry:]. *)
Inductive pass : Type :=
| Exit (rv : Z) (s : usb_rt)
| Retry (s : usb_rt) (events : list io_event).

(** The two places of [read] that call [usb_rt_do_read_io]. *)
Definition read_start_io (count : Z) (s : usb_rt) (events : list io_event)
  : option pass :=
  match events with
  | Submit submit_rv :: rest =>
      let '(rv, s') := usb_rt_do_read_io s count submit_rv in
      if rv <? 0 then Some (Exit rv s') else Some (Retry s' rest)
  | _ => None
  end.

(** [read] from "errors must be reported" down to [exit:]. *)
Definition read_buffer (count copy_left : Z) (s : usb_rt)
  (events : list io_event) : option pass :=
  let rv := errors s in
  if rv <? 0 then
    Some (Exit (if rv =? - EPIPE then rv else - EIO) (set_errors 0 s))
  else if negb (bulk_in_filled s =? 0) then
    let available := size_sub (bulk_in_filled s) (bulk_in_copied s) in
    let chunk := Z.min available count in
    if available =? 0 then read_start_io count s events
    else
      let rv := if negb (copy_left =? 0) then - EFAULT else to_int chunk in
      Some (Exit rv (set_bulk_in_copied (size_add (bulk_in_copied s) chunk) s))
  else read_start_io count s events.

(** The loop itself: [fuel] bounds the number of passes. *)
Fixpoint read_loop (one_pass : usb_rt -> list io_event -> option pass)
  (fuel : nat) (s : usb_rt) (events : list io_event) : option (Z * usb_rt) :=
  match fuel with
  | O => None
  | S fuel' =>
      match one_pass s events with
      | Some (Exit rv s') => Some (rv, s')
      | Some (Retry s' rest) => read_loop one_pass fuel' s' rest
      | None => None
      end
  end.

(** [!dev->bulk_in_urb] *)
Definition no_bulk_in_urb (s : usb_rt) : bool :=
  match bulk_in_urb s with Some _ => false | None => true end.

(** The session as [kzalloc] and the initialisers of [usb_rt_probe] leave
    it, before the endpoints are looked at. *)
Definition probe_start (writes_in_flight : Z) : usb_rt :=
  {| interface := true; intfdata := false; minor := false; pm_usage := 0;
     limit_sem := writes_in_flight; submitted := 0; out_inflight := 0;
     bulk_in_urb := None; bulk_in_size := 0; bulk_out_size := 0;
     bulk_in_filled := 0; bulk_in_copied := 0; errors := 0;
     ongoing_read := false; kref := 1; io_mutex := false;
     disconnected := false; has_text_api := false; text_api_attr := false |}.

(** ** The generic variant *)

Module Rt.

Definition WRITES_IN_FLIGHT : Z := 8.

Section WithPageSize.

(** [PAGE_SIZE] comes from the kernel configuration. *)
Variable PAGE_SIZE : Z.

(** [MAX_TRANSFER], computed on [unsigned long]. *)
Definition MAX_TRANSFER : Z := size_sub PAGE_SIZE 512.

(** [usb_rt_probe], on the path that returns 0; [maxp_in] is
    [usb_endpoint_maxp(bulk_in)]. *)
Definition usb_rt_probe (maxp_in : Z) : usb_rt :=
  let s := probe_start WRITES_IN_FLIGHT in
  let s := set_bulk_in_size maxp_in s in
  let s := set_bulk_in_urb (Some {| transfer_buffer_length := 0 |}) s in
  let s := set_intfdata true s in
  set_minor true s.

Definition usb_rt_release (private_data : option usb_rt)
  : option (Z * option usb_rt) :=
  match private_data with
  | None => Some (- ENODEV, None)
  | Some s =>
      match mutex_lock s with
      | None => None
      | Some s1 =>
          let s2 :=
            if interface s1 then set_pm_usage (pm_usage s1 - 1) s1 else s1 in
          Some (0, Some (kref_put usb_rt_delete (mutex_unlock s2)))
      end
  end.

(** [usb_rt_poll]: takes no lock and ignores the result of
    [usb_rt_do_read_io]. *)
Definition usb_rt_poll (submit_rv : Z) (s : usb_rt) : Z * usb_rt :=
  let retval := Z.lor (Z.lor POLLWRNORM POLLPRI) POLLOUT in
  let ongoing_io := ongoing_read s in
  if ongoing_io then (retval, s)
  else if negb (size_sub (bulk_in_filled s) (bulk_in_copied s) =? 0) then
    (Z.lor retval (Z.lor POLLRDNORM POLLIN), s)
  else (retval, snd (usb_rt_do_read_io s (bulk_in_size s) submit_rv)).

(** One pass of [read] from [retry:]; the wait is
    [wait_event_interruptible], which has no bound. *)
Definition read_pass (nonblock : bool) (count copy_left : Z) (s : usb_rt)
  (events : list io_event) : option pass :=
  let ongoing_io := ongoing_read s in
  if ongoing_io then
    if nonblock then Some (Exit (- EAGAIN) s)
    else
      match events with
      | Wait (Completed status len) :: rest =>
          match read_urb_giveback status len s with
          | Some s' => read_buffer count copy_left s' rest
          | None => None
          end
      | Wait Signalled :: _ => Some (Exit (- ERESTARTSYS) s)
      | _ => None
      end
  else read_buffer count copy_left s events.

Definition usb_rt_read (s : usb_rt) (nonblock : bool) (count : Z)
  (e : read_env) : option (Z * usb_rt) :=
  if no_bulk_in_urb s || (count =? 0) then Some (0, s)
  else
    match mutex_lock_interruptible (r_signal e) s with
    | None => None
    | Some (rv, s1) =>
        if rv <? 0 then Some (rv, s1)
        else if negb (interface s1) then Some (- ENODEV, mutex_unlock s1)
        else
          match read_loop (read_pass nonblock count (r_copy_left e))
                  (S (length (r_events e))) s1 (r_events e) with
          | Some (rv', s2) => Some (rv', mutex_unlock s2)
          | None => None
          end
    end.

(** The labels [error:] (after the transfer buffer, if any, is freed) and
    [error_unanchor:] of [write]. *)
Definition write_error (retval : Z) (s : usb_rt) : option (Z * usb_rt) :=
  Some (retval, up s).

Definition usb_rt_write (s : usb_rt) (nonblock : bool) (count : Z)
  (e : write_env) : option (Z * usb_rt) :=
  let writesize := Z.min count MAX_TRANSFER in
  if count =? 0 then Some (0, s)
  else
    match (if negb nonblock then down_interruptible (w_signal e) s
           else Some (down_trylock s)) with
    | None => None
    | Some (failed, s1) =>
        if negb (failed =? 0) then
          Some ((if negb nonblock then - ERESTARTSYS else - EAGAIN), s1)
        else
          let retval := errors s1 in
          let '(retval, s2) :=
            if retval <? 0
            then ((if retval =? - EPIPE then retval else - EIO),
                  set_errors 0 s1)
            else (retval, s1) in
          if retval <? 0 then write_error retval s2
          else if negb (w_urb e) then write_error (- ENOMEM) s2
          else if negb (w_buf e) then write_error (- ENOMEM) s2
          else if negb (w_copy_left e =? 0) then write_error (- EFAULT) s2
          else
            match mutex_lock s2 with
            | None => None
            | Some s3 =>
                if negb (interface s3)
                then write_error (- ENODEV) (mutex_unlock s3)
                else
                  let s4 := usb_anchor_urb s3 in
                  let '(retval, s5) := usb_submit_out (w_submit e) s4 in
                  let s6 := mutex_unlock s5 in
                  if negb (retval =? 0)
                  then write_error retval (usb_unanchor_urb true s6)
                  else Some (to_ssize writesize, s6)
            end
    end.

(** [usb_rt_disconnect] *)
Definition usb_rt_disconnect (s : usb_rt) : option usb_rt :=
  let s1 := set_intfdata false s in
  let s2 := usb_deregister_dev s1 in
  match mutex_lock s2 with
  | None => None
  | Some s3 =>
      let s4 := mutex_unlock (set_interface false s3) in
      match usb_kill_anchored_urbs s4 with
      | Some s5 => Some (kref_put usb_rt_delete s5)
      | None => None
      end
  end.

(** The sessions that attach, the file operations, the completions and the
    lifecycle events produce when every call runs as a whole, one after the
    other.  [io_mutex] makes this so for the calls that take it;
    [usb_rt_poll] of this variant does not take it, and [RtOverlap] has the
    [poll] that runs inside a [read]. *)
Inductive reachable : usb_rt -> Prop :=
| r_probe maxp :
    0 <= maxp < 2 ^ 16 -> reachable (usb_rt_probe maxp)
| r_open s rv :
    reachable s -> reachable (snd (usb_rt_open rv s))
| r_release s r s' :
    reachable s -> usb_rt_release (Some s) = Some (r, Some s') ->
    reachable s'
| r_flush s done r s' :
    reachable s -> usb_rt_flush (Some s) done = Some (r, Some s') ->
    reachable s'
| r_poll s rv :
    reachable s -> reachable (snd (usb_rt_poll rv s))
| r_read s nonblock count e r s' :
    reachable s -> 0 <= count < SIZE_MODULUS ->
    usb_rt_read s nonblock count e = Some (r, s') -> reachable s'
| r_write s nonblock count e r s' :
    reachable s -> 0 <= count < SIZE_MODULUS ->
    usb_rt_write s nonblock count e = Some (r, s') -> reachable s'
| r_read_done s status len s' :
    reachable s -> read_urb_giveback status len s = Some s' -> reachable s'
| r_write_done s status :
    reachable s -> (0 < out_inflight s)%nat ->
    reachable (write_urb_giveback status s)
| r_disconnect s s' :
    reachable s -> usb_rt_disconnect s = Some s' -> reachable s'
| r_suspend s done r s' :
    reachable s -> usb_rt_suspend done s = Some (r, s') -> reachable s'
| r_resume s :
    reachable s -> reachable (snd (usb_rt_resume s))
| r_pre_reset s done r s' :
    reachable s -> usb_rt_pre_reset done s = Some (r, s') -> reachable s'
| r_post_reset s :
    reachable s -> reachable (snd (usb_rt_post_reset s)).

End WithPageSize.

End Rt.

(** ** The motor variant *)

Module Mtr.

Definition WRITES_IN_FLIGHT : Z := 1.

(** [usb_rt_probe], on the path that returns 0; [maxp_in] and [maxp_out]
    are [usb_endpoint_maxp] of the two endpoints, [text_api] tells whether
    the interface has the second endpoint pair.  The second assignment goes
    to [bulk_in_size] again: [bulk_out_size] keeps the 0 of [kzalloc]. *)
Definition usb_rt_probe (maxp_in maxp_out : Z) (text_api : bool) : usb_rt :=
  let s := probe_start WRITES_IN_FLIGHT in
  let s :=
    if text_api then set_has_text_api true (set_text_api_attr true s)
    else s in
  let s := set_bulk_in_size maxp_in s in
  let s := set_bulk_in_urb (Some {| transfer_buffer_length := 0 |}) s in
  let s := set_bulk_in_size maxp_out s in
  let s := set_intfdata true s in
  set_minor true s.

Definition usb_rt_release (private_data : option usb_rt)
  : Z * option usb_rt :=
  match private_data with
  | None => (- ENODEV, None)
  | Some s =>
      let s1 := set_pm_usage (pm_usage s - 1) s in
      (0, Some (kref_put usb_rt_delete s1))
  end.

(** [usb_rt_poll]; the result is an [unsigned int]. *)
Definition usb_rt_poll (signal : bool) (submit_rv : Z) (s : usb_rt)
  : option (Z * usb_rt) :=
  let retval := Z.lor (Z.lor POLLWRNORM POLLPRI) POLLOUT in
  match mutex_lock_interruptible signal s with
  | None => None
  | Some (rv, s1) =>
      if rv <? 0 then Some (to_uint rv, s1)
      else if disconnected s1 then
        Some (to_uint (- ENODEV), mutex_unlock s1)
      else
        let ongoing_io := ongoing_read s1 in
        if ongoing_io then Some (retval, mutex_unlock s1)
        else if negb (errors s1 =? 0) then Some (POLLERR, mutex_unlock s1)
        else if negb (size_sub (bulk_in_filled s1) (bulk_in_copied s1) =? 0)
        then Some (Z.lor retval (Z.lor POLLRDNORM POLLIN), mutex_unlock s1)
        else
          let '(rv', s2) :=
            usb_rt_do_read_io s1 (bulk_in_size s1) submit_rv in
          if negb (rv' =? 0) then Some (POLLERR, mutex_unlock s2)
          else Some (retval, mutex_unlock s2)
  end.

(** One pass of [read] from [retry:]; the wait is
    [wait_event_interruptible_timeout] with a bound of 10 ms, which answers
    0 when the bound passes with the receive still outstanding. *)
Definition read_pass (nonblock : bool) (count copy_left : Z) (s : usb_rt)
  (events : list io_event) : option pass :=
  let ongoing_io := ongoing_read s in
  if ongoing_io then
    if nonblock then Some (Exit (- EAGAIN) s)
    else
      match events with
      | Wait (Completed status len) :: rest =>
          match read_urb_giveback status len s with
          | Some s' => read_buffer count copy_left s' rest
          | None => None
          end
      | Wait Signalled :: _ => Some (Exit (- ERESTARTSYS) s)
      | Wait Expired :: _ => Some (Exit (- ETIMEDOUT) s)
      | _ => None
      end
  else read_buffer count copy_left s events.

Definition usb_rt_read (s : usb_rt) (nonblock : bool) (count : Z)
  (e : read_env) : option (Z * usb_rt) :=
  if no_bulk_in_urb s || (count =? 0) then Some (0, s)
  else
    match mutex_lock_interruptible (r_signal e) s with
    | None => None
    | Some (rv, s1) =>
        if rv <? 0 then Some (rv, s1)
        else if disconnected s1 then Some (- ENODEV, mutex_unlock s1)
        else
          match read_loop (read_pass nonblock count (r_copy_left e))
                  (S (length (r_events e))) s1 (r_events e) with
          | Some (rv', s2) => Some (rv', mutex_unlock s2)
          | None => None
          end
    end.

(** The label [error:] of [write]; the local [urb] is never assigned in
    this variant, so nothing is freed. *)
Definition write_error (retval : Z) (s : usb_rt) : option (Z * usb_rt) :=
  Some (retval, up s).

(** [usb_rt_write].  The transfer uses the descriptor and buffer of the
    session; [error_unanchor:] hands the local [urb], which is [NULL], to
    [usb_unanchor_urb]. *)
Definition usb_rt_write (s : usb_rt) (nonblock : bool) (count : Z)
  (e : write_env) : option (Z * usb_rt) :=
  let writesize := Z.min count (bulk_out_size s) in
  if count =? 0 then Some (0, s)
  else
    match (if negb nonblock then down_interruptible (w_signal e) s
           else Some (down_trylock s)) with
    | None => None
    | Some (failed, s1) =>
        if negb (failed =? 0) then
          Some ((if negb nonblock then - ERESTARTSYS else - EAGAIN), s1)
        else
          let retval := errors s1 in
          let '(retval, s2) :=
            if retval <? 0
            then ((if retval =? - EPIPE then retval else - EIO),
                  set_errors 0 s1)
            else (retval, s1) in
          if retval <? 0 then write_error retval s2
          else if negb (w_copy_left e =? 0) then write_error (- EFAULT) s2
          else
            match mutex_lock s2 with
            | None => None
            | Some s3 =>
                if disconnected s3
                then write_error (- ENODEV) (mutex_unlock s3)
                else
                  let s4 := usb_anchor_urb s3 in
                  let '(retval, s5) := usb_submit_out (w_submit e) s4 in
                  let s6 := mutex_unlock s5 in
                  if negb (retval =? 0)
                  then write_error retval (usb_unanchor_urb false s6)
                  else Some (to_ssize writesize, s6)
            end
    end.

(** [usb_rt_disconnect] *)
Definition usb_rt_disconnect (s : usb_rt) : option usb_rt :=
  let s0 := if has_text_api s then set_text_api_attr false s else s in
  let s1 := set_intfdata false s0 in
  let s2 := usb_deregister_dev s1 in
  match mutex_lock s2 with
  | None => None
  | Some s3 =>
      let s4 := mutex_unlock (set_disconnected true s3) in
      let s5 := usb_kill_urb s4 in
      match usb_kill_anchored_urbs s5 with
      | Some s6 => Some (kref_put usb_rt_delete s6)
      | None => None
      end
  end.

(** The sessions that an attach that returned 0, the file operations, the
    completions and the lifecycle events produce.  What an attach that
    fails leaves behind is in [MtrAttach]. *)
Inductive reachable : usb_rt -> Prop :=
| m_probe maxp_in maxp_out text_api :
    0 <= maxp_in < 2 ^ 16 -> 0 <= maxp_out < 2 ^ 16 ->
    reachable (usb_rt_probe maxp_in maxp_out text_api)
| m_open s rv :
    reachable s -> reachable (snd (usb_rt_open rv s))
| m_release s r s' :
    reachable s -> usb_rt_release (Some s) = (r, Some s') -> reachable s'
| m_flush s done r s' :
    reachable s -> usb_rt_flush (Some s) done = Some (r, Some s') ->
    reachable s'
| m_poll s signal rv r s' :
    reachable s -> usb_rt_poll signal rv s = Some (r, s') -> reachable s'
| m_read s nonblock count e r s' :
    reachable s -> 0 <= count < SIZE_MODULUS ->
    usb_rt_read s nonblock count e = Some (r, s') -> reachable s'
| m_write s nonblock count e r s' :
    reachable s -> 0 <= count < SIZE_MODULUS ->
    usb_rt_write s nonblock count e = Some (r, s') -> reachable s'
| m_read_done s status len s' :
    reachable s -> read_urb_giveback status len s = Some s' -> reachable s'
| m_write_done s status :
    reachable s -> (0 < out_inflight s)%nat ->
    reachable (write_urb_giveback status s)
| m_disconnect s s' :
    reachable s -> usb_rt_disconnect s = Some s' -> reachable s'
| m_suspend s done r s' :
    reachable s -> usb_rt_suspend done s = Some (r, s') -> reachable s'
| m_resume s :
    reachable s -> reachable (snd (usb_rt_resume s))
| m_pre_reset s done r s' :
    reachable s -> usb_rt_pre_reset done s = Some (r, s') -> reachable s'
| m_post_reset s :
    reachable s -> reachable (snd (usb_rt_post_reset s)).

End Mtr.

(** * Attach in full

    [Rt.usb_rt_probe] and [Mtr.usb_rt_probe] are the sessions that
    [usb_rt_probe] leaves when it returns 0.  The modules [RtAttach] and
    [MtrAttach] embed the function with all its exits: what the interface
    descriptor holds and whether each allocation and registration works are
    arguments. *)

(** What the driver asks of an endpoint descriptor:
    [usb_endpoint_is_bulk_in], [usb_endpoint_is_bulk_out] and
    [usb_endpoint_maxp]. *)
Inductive endpoint_kind : Type := Bulk_in | Bulk_out | Other_kind.

Record usb_endpoint_descriptor : Type := {
  kind : endpoint_kind;
  maxp : Z
}.

Definition usb_endpoint_is_bulk_in (d : usb_endpoint_descriptor) : bool :=
  match kind d with Bulk_in => true | _ => false end.

Definition usb_endpoint_is_bulk_out (d : usb_endpoint_descriptor) : bool :=
  match kind d with Bulk_out => true | _ => false end.

(** [interface->cur_altsetting]: the array [endpoint] has
    [desc.bNumEndpoints] entries. *)
Record usb_host_interface : Type := {
  bInterfaceNumber : Z;
  endpoint : list usb_endpoint_descriptor
}.

Definition bNumEndpoints (a : usb_host_interface) : Z :=
  Z.of_nat (length (endpoint a)).

Module RtAttach.

Record probe_env : Type := {
  p_kzalloc : bool;         (* kzalloc gives the session *)
  p_buffer : bool;          (* kmalloc gives the receive buffer *)
  p_urb : bool;             (* usb_alloc_urb gives the receive descriptor *)
  p_register : Z            (* answer of usb_register_dev *)
}.

(** The label [error:]. *)
Definition error (retval : Z) (s : usb_rt) : Z * option usb_rt :=
  (retval, Some (kref_put usb_rt_delete s)).

(** The test on interface number, number of endpoints and their kinds;
    [&&] reads [endpoint[0]] and [endpoint[1]] only after it found two
    endpoints. *)
Definition find_endpoints (a : usb_host_interface)
  : option (usb_endpoint_descriptor * usb_endpoint_descriptor) :=
  if (bInterfaceNumber a =? 0) && (bNumEndpoints a =? 2) then
    match endpoint a with
    | d0 :: d1 :: _ =>
        if usb_endpoint_is_bulk_in d0 && usb_endpoint_is_bulk_out d1
        then Some (d0, d1) else None
    | _ => None
    end
  else None.

(** [usb_rt_probe]: the value it returns and the session, if [kzalloc]
    gave one. *)
Definition usb_rt_probe (a : usb_host_interface) (e : probe_env)
  : Z * option usb_rt :=
  if negb (p_kzalloc e) then (- ENOMEM, None)
  else
    let s := probe_start Rt.WRITES_IN_FLIGHT in
    match find_endpoints a with
    | None => error 1 s
    | Some (bulk_in, bulk_out) =>
        let s := set_bulk_in_size (maxp bulk_in) s in
        if negb (p_buffer e) then error (- ENOMEM) s
        else if negb (p_urb e) then error (- ENOMEM) s
        else
          let s :=
            set_bulk_in_urb (Some {| transfer_buffer_length := 0 |}) s in
          let s := set_intfdata true s in
          let retval := p_register e in
          if negb (retval =? 0) then error retval (set_intfdata false s)
          else (0, Some (set_minor true s))
    end.

End RtAttach.

Module MtrAttach.

Record probe_env : Type := {
  p_kzalloc : bool;         (* kzalloc gives the session *)
  p_create_file : Z;        (* answer of device_create_file *)
  p_in_urb : bool;          (* usb_alloc_urb, receive descriptor *)
  p_in_buffer : bool;       (* usb_alloc_coherent, receive buffer *)
  p_out_urb : bool;         (* usb_alloc_urb, send descriptor *)
  p_out_buffer : bool;      (* usb_alloc_coherent, send buffer *)
  p_text_buffer : bool;     (* kmalloc, buffer of the text interface *)
  p_register : Z            (* answer of usb_register_dev *)
}.

(** How a call of [usb_rt_probe] ends: it returns, it reads an entry of
    [endpoint] that the interface does not have, or it reads a field of a
    transfer descriptor through a [NULL] pointer. *)
Inductive probe_result : Type :=
| Returns (retval : Z) (s : option usb_rt)
| Missing_endpoint
| Null_urb.

(** [usb_rt_delete] of this variant starts with [dev->bulk_in_urb->dev] and
    goes on to [dev->bulk_out_urb->dev]: it has a result only if both
    descriptors were allocated.  The send descriptor is not in the record;
    [bulk_out_urb] tells whether it is there. *)
Definition usb_rt_delete (bulk_out_urb : bool) (s : usb_rt)
  : option usb_rt :=
  if no_bulk_in_urb s then None
  else if negb bulk_out_urb then None
  else Some (set_bulk_in_urb None s).

(** The label [error:]: [kref_put] on the only reference. *)
Definition error (retval : Z) (bulk_out_urb : bool) (s : usb_rt)
  : probe_result :=
  let s' := set_kref (Nat.pred (kref s)) s in
  if Nat.eqb (kref s') 0 then
    match usb_rt_delete bulk_out_urb s' with
    | Some s'' => Returns retval (Some s'')
    | None => Null_urb
    end
  else Returns retval (Some s').

(** The test for the realtime endpoints.  It reads [endpoint[0]] and, if
    that is a bulk-in endpoint, [endpoint[1]] without looking at
    [bNumEndpoints]: the outer [None] stands for an entry that does not
    exist. *)
Definition realtime_endpoints (a : usb_host_interface)
  : option (option (usb_endpoint_descriptor * usb_endpoint_descriptor)) :=
  if negb (bInterfaceNumber a =? 0) then Some None
  else
    match nth_error (endpoint a) 0 with
    | None => None
    | Some d0 =>
        if negb (usb_endpoint_is_bulk_in d0) then Some None
        else
          match nth_error (endpoint a) 1 with
          | None => None
          | Some d1 =>
              if usb_endpoint_is_bulk_out d1 then Some (Some (d0, d1))
              else Some None
          end
    end.

(** The test for the endpoints of the text interface; it reads
    [endpoint[2]] and [endpoint[3]] only after it found four endpoints. *)
Definition text_endpoints (a : usb_host_interface) : bool :=
  (bNumEndpoints a =? 4)
  && match nth_error (endpoint a) 2, nth_error (endpoint a) 3 with
     | Some d2, Some d3 =>
         usb_endpoint_is_bulk_in d2 && usb_endpoint_is_bulk_out d3
     | _, _ => false
     end.

Definition usb_rt_probe (a : usb_host_interface) (e : probe_env)
  : probe_result :=
  if negb (p_kzalloc e) then Returns (- ENOMEM) None
  else
    let s := probe_start Mtr.WRITES_IN_FLIGHT in
    match realtime_endpoints a with
    | None => Missing_endpoint
    | Some None => error 1 false s
    | Some (Some (bulk_in, bulk_out)) =>
        let retval := if text_endpoints a then p_create_file e else 0 in
        let s :=
          if text_endpoints a
          then set_has_text_api true
                 (if retval =? 0 then set_text_api_attr true s else s)
          else s in
        if negb (retval =? 0) then error retval false s
        else
          let s := set_bulk_in_size (maxp bulk_in) s in
          if negb (p_in_urb e) then error (- ENOMEM) false s
          else
            let s :=
              set_bulk_in_urb (Some {| transfer_buffer_length := 0 |}) s in
            if negb (p_in_buffer e) then error (- ENOMEM) false s
            else
              let s := set_bulk_in_size (maxp bulk_out) s in
              if negb (p_out_urb e) then error (- ENOMEM) false s
              else if negb (p_out_buffer e) then error (- ENOMEM) true s
              else if negb (p_text_buffer e) then error (- ENOMEM) true s
              else
                let s := set_intfdata true s in
                let retval := p_register e in
                if negb (retval =? 0)
                then error retval true (set_intfdata false s)
                else Returns 0 (Some (set_minor true s))
    end.

End MtrAttach.

(** * The text interface of the motor variant *)

Module MtrText.

Section WithPageSize.

Variable PAGE_SIZE : Z.

Definition MAX_TRANSFER : Z := size_sub PAGE_SIZE 512.

(** [usb_bulk_msg] for [len] bytes: the USB core answers with a status that
    is 0 or a negative error number and with the number of bytes moved,
    which is never more than [len]. *)
Definition usb_bulk_msg (len status actual_length : Z) : option (Z * Z) :=
  if (status <=? 0) && (0 <=? actual_length) && (actual_length <=? len)
  then Some (status, actual_length) else None.

(** [text_api_store]; [count] is the length of what was written to the
    attribute.  The session is reached through the driver data of the
    interface: there is no result when that is [NULL]. *)
Definition text_api_store (s : usb_rt) (count status actual_length : Z)
  : option Z :=
  if negb (intfdata s) then None
  else
    let transfer_count := to_int (Z.min count MAX_TRANSFER) in
    match usb_bulk_msg transfer_count status actual_length with
    | Some (retval, count_sent) =>
        Some (if negb (retval =? 0) then retval else count_sent)
    | None => None
    end.

(** [text_api_show] *)
Definition text_api_show (s : usb_rt) (status actual_length : Z)
  : option Z :=
  if negb (intfdata s) then None
  else
    match usb_bulk_msg (to_int MAX_TRANSFER) status actual_length with
    | Some (retval, count_received) =>
        Some (if negb (retval =? 0) then retval else count_received)
    | None => None
    end.

End WithPageSize.

End MtrText.

(** * A [poll] that runs inside a [read] (generic variant)

    [usb_rt_poll] of the generic variant takes no lock, so its steps can
    fall between the steps of a [read] that holds [io_mutex].  Here
    [usb_rt_poll] is cut after its test (line 240) and [usb_rt_read] at its
    call of [copy_to_user] (line 332), so that the second part of one can
    run between the two parts of the other. *)

Module RtOverlap.

(** [usb_rt_poll] up to its test of line 240: [true] when the call goes on
    to line 245, the call of [usb_rt_do_read_io]. *)
Definition poll_test (s : usb_rt) : bool :=
  let ongoing_io := ongoing_read s in
  if ongoing_io then false
  else if negb (size_sub (bulk_in_filled s) (bulk_in_copied s) =? 0) then false
  else true.

(** [usb_rt_poll] from line 245 on: [usb_rt_do_read_io], in the session as
    it is by then, and the return. *)
Definition poll_start (submit_rv : Z) (s : usb_rt) : Z * usb_rt :=
  let retval := Z.lor (Z.lor POLLWRNORM POLLPRI) POLLOUT in
  (retval, snd (usb_rt_do_read_io s (bulk_in_size s) submit_rv)).

(** How far a [read] got: to its call of [copy_to_user] (line 332), with
    [chunk] computed and the lock held, or to its return. *)
Inductive progress : Type :=
| At_copy (chunk : Z) (s : usb_rt)
| Returned (rv : Z) (s : usb_rt).

(** One pass of the [retry:] loop that stops at the copy. *)
Inductive pass_to_copy : Type :=
| Copy (chunk : Z) (s : usb_rt)
| Leave (rv : Z) (s : usb_rt)
| Again (s : usb_rt) (events : list io_event).

Definition start_io_to_copy (count : Z) (s : usb_rt)
  (events : list io_event) : option pass_to_copy :=
  match read_start_io count s events with
  | Some (Exit rv s') => Some (Leave rv s')
  | Some (Retry s' rest) => Some (Again s' rest)
  | None => None
  end.

(** [read] from "errors must be reported" down to the call of
    [copy_to_user]. *)
Definition read_buffer_to_copy (count : Z) (s : usb_rt)
  (events : list io_event) : option pass_to_copy :=
  let rv := errors s in
  if rv <? 0 then
    Some (Leave (if rv =? - EPIPE then rv else - EIO) (set_errors 0 s))
  else if negb (bulk_in_filled s =? 0) then
    let available := size_sub (bulk_in_filled s) (bulk_in_copied s) in
    let chunk := Z.min available count in
    if available =? 0 then start_io_to_copy count s events
    else Some (Copy chunk s)
  else start_io_to_copy count s events.

Definition read_pass_to_copy (nonblock : bool) (count : Z) (s : usb_rt)
  (events : list io_event) : option pass_to_copy :=
  let ongoing_io := ongoing_read s in
  if ongoing_io then
    if nonblock then Some (Leave (- EAGAIN) s)
    else
      match events with
      | Wait (Completed status len) :: rest =>
          match read_urb_giveback status len s with
          | Some s' => read_buffer_to_copy count s' rest
          | None => None
          end
      | Wait Signalled :: _ => Some (Leave (- ERESTARTSYS) s)
      | _ => None
      end
  else read_buffer_to_copy count s events.

Fixpoint read_loop_to_copy (nonblock : bool) (count : Z) (fuel : nat)
  (s : usb_rt) (events : list io_event) : option progress :=
  match fuel with
  | O => None
  | S fuel' =>
      match read_pass_to_copy nonblock count s events with
      | Some (Copy chunk s') => Some (At_copy chunk s')
      | Some (Leave rv s') => Some (Returned rv s')
      | Some (Again s' rest) => read_loop_to_copy nonblock count fuel' s' rest
      | None => None
      end
  end.

(** [usb_rt_read] from its entry to its call of [copy_to_user], or to its
    return when it does not get there. *)
Definition read_to_copy (s : usb_rt) (nonblock : bool) (count : Z)
  (e : read_env) : option progress :=
  if no_bulk_in_urb s || (count =? 0) then Some (Returned 0 s)
  else
    match mutex_lock_interruptible (r_signal e) s with
    | None => None
    | Some (rv, s1) =>
        if rv <? 0 then Some (Returned rv s1)
        else if negb (interface s1) then
          Some (Returned (- ENODEV) (mutex_unlock s1))
        else
          match read_loop_to_copy nonblock count (S (length (r_events e)))
                  s1 (r_events e) with
          | Some (At_copy chunk s2) => Some (At_copy chunk s2)
          | Some (Returned rv' s2) => Some (Returned rv' (mutex_unlock s2))
          | None => None
          end
    end.

(** [usb_rt_read] from the call of [copy_to_user] to its return (lines
    332 to 357), in the session as it is by then; [chunk] is the local
    variable computed before. *)
Definition read_from_copy (copy_left chunk : Z) (s : usb_rt) : Z * usb_rt :=
  let rv := if negb (copy_left =? 0) then - EFAULT else to_int chunk in
  let s1 := set_bulk_in_copied (size_add (bulk_in_copied s) chunk) s in
  (rv, mutex_unlock s1).

End RtOverlap.

(** * The two variants side by side *)

Inductive variant : Type := Generic | Motor.

Definition reachable_in (v : variant) (PAGE_SIZE : Z) (s : usb_rt) : Prop :=
  match v with
  | Generic => Rt.reachable PAGE_SIZE s
  | Motor => Mtr.reachable s
  end.

Definition read_in (v : variant)
  : usb_rt -> bool -> Z -> read_env -> option (Z * usb_rt) :=
  match v with
  | Generic => Rt.usb_rt_read
  | Motor => Mtr.usb_rt_read
  end.

Definition write_in (v : variant) (PAGE_SIZE : Z)
  : usb_rt -> bool -> Z -> write_env -> option (Z * usb_rt) :=
  match v with
  | Generic => Rt.usb_rt_write PAGE_SIZE
  | Motor => Mtr.usb_rt_write
  end.

(** The test each variant makes for "disconnect() was called". *)
Definition torn_down (v : variant) (s : usb_rt) : bool :=
  match v with
  | Generic => negb (interface s)
  | Motor => disconnected s
  end.

(** The bound each variant puts on the length of one send transfer. *)
Definition max_transfer (v : variant) (PAGE_SIZE : Z) (s : usb_rt) : Z :=
  match v with
  | Generic => Rt.MAX_TRANSFER PAGE_SIZE
  | Motor => bulk_out_size s
  end.

Definition writes_in_flight (v : variant) : Z :=
  match v with
  | Generic => Rt.WRITES_IN_FLIGHT
  | Motor => Mtr.WRITES_IN_FLIGHT
  end.

Definition release_in (v : variant) (private_data : option usb_rt)
  : option (Z * option usb_rt) :=
  match v with
  | Generic => Rt.usb_rt_release private_data
  | Motor => Some (Mtr.usb_rt_release private_data)
  end.

Definition disconnect_in (v : variant) : usb_rt -> option usb_rt :=
  match v with
  | Generic => Rt.usb_rt_disconnect
  | Motor => Mtr.usb_rt_disconnect
  end.

Definition poll_in (v : variant) (signal : bool) (submit_rv : Z)
  (s : usb_rt) : option (Z * usb_rt) :=
  match v with
  | Generic => Some (Rt.usb_rt_poll submit_rv s)
  | Motor => Mtr.usb_rt_poll signal submit_rv s
  end.

(** * Invariants and statements *)

(** The translation [read], [write] and [flush] apply to a recorded
    error: a stall stays [-EPIPE], anything else becomes [-EIO]. *)
Definition surfaced (e : Z) : Z := if e =? - EPIPE then - EPIPE else - EIO.

(** The bookkeeping of the receive buffer: [copied] never passes [filled],
    [filled] never passes the size of the buffer, the receive descriptor is
    never prepared for more than the buffer holds, and both counters are 0
    while a receive is outstanding. *)
Definition rx_inv (s : usb_rt) : Prop :=
  0 <= bulk_in_copied s <= bulk_in_filled s
  /\ bulk_in_filled s <= bulk_in_size s
  /\ bulk_in_size s < 2 ^ 16
  /\ (forall u, bulk_in_urb s = Some u ->
      transfer_buffer_length u <= bulk_in_size s)
  /\ (ongoing_read s = true ->
      bulk_in_filled s = 0 /\ bulk_in_copied s = 0).

(** The fields [rx_inv] talks about. *)
Definition rx_view (s : usb_rt) : Z * Z * Z * option urb * bool :=
  (bulk_in_copied s, bulk_in_filled s, bulk_in_size s, bulk_in_urb s,
   ongoing_read s).

(** The fields of the send side: free slots, sends in flight, sends on the
    anchor and the size of the send endpoint. *)
Definition tx_view (s : usb_rt) : Z * nat * nat * Z :=
  (limit_sem s, out_inflight s, submitted s, bulk_out_size s).

(** Admission slots that are free plus send transfers in flight. *)
Definition slots (s : usb_rt) : Z := limit_sem s + Z.of_nat (out_inflight s).

(** The fields of a session that [disconnect] decides on, apart from the
    transfers: the device node, the two torn-down marks and the reference
    count. *)
Definition teardown_view (s : usb_rt) : bool * bool * bool * bool * nat :=
  (minor s, intfdata s, interface s, disconnected s, kref s).

(** Events of a [read] during which no transfer fails: every completion
    carries the status 0 and every submission is accepted. *)
Definition quiet_event (ev : io_event) : Prop :=
  match ev with
  | Wait (Completed status _) => status = 0
  | Wait _ => True
  | Submit rv => 0 <= rv
  end.

Definition quiet (events : list io_event) : Prop := Forall quiet_event events.

(** What [read] promises when it leaves the loop with the value [rv] in
    the session [s']: the bookkeeping is intact and a byte count [rv] is the
    smaller of [count] and the bytes that were unread just before the copy,
    by which [copied] advanced. *)
Definition read_exit_ok (count rv : Z) (s' : usb_rt) : Prop :=
  rx_inv s'
  /\ (0 <= rv ->
      rv <= count
      /\ 0 <= bulk_in_copied s' - rv
      /\ rv = Z.min (bulk_in_filled s' - (bulk_in_copied s' - rv)) count).

(** No transfer of the session is with the USB core. *)
Definition idle (s : usb_rt) : Prop :=
  submitted s = 0%nat /\ out_inflight s = 0%nat /\ ongoing_read s = false.

(** The fields that only attach, [open], [release] and [disconnect]
    assign. *)
Definition held_view (s : usb_rt)
  : bool * bool * bool * Z * Z * Z * nat * bool * bool * bool :=
  (interface s, intfdata s, minor s, pm_usage s, bulk_in_size s,
   bulk_out_size s, kref s, disconnected s, has_text_api s, text_api_attr s).

(** What attach establishes and every later step keeps, besides the
    bookkeeping of the receive buffer and the count of slots: the
    admission semaphore is not negative; the size of the send endpoint is
    the 0 that [kzalloc] left; the attribute of the text interface exists
    only in the motor variant, and there only on an interface that has
    the text endpoints and carries the session. *)
Definition attach_inv (v : variant) (s : usb_rt) : Prop :=
  0 <= limit_sem s /\ bulk_out_size s = 0
  /\ match v with
     | Generic => text_api_attr s = false
     | Motor =>
         text_api_attr s = true -> has_text_api s = true /\ intfdata s = true
     end.

(** The content of the error slot after transfers ended with the statuses
    [statuses], in this order, when it held [e] before. *)
Definition last_failure (e : Z) (statuses : list Z) : Z :=
  fold_left (fun e status => if status =? 0 then e else status) statuses e.


(** ** Reading a [poll] result *)


(** Bytes received and not yet handed out, as [poll] computes them. *)
Definition unread (s : usb_rt) : Z :=
  size_sub (bulk_in_filled s) (bulk_in_copied s).


(** ** Reading a [flush] result *)


(** ** A [read] at its copy *)

(** What holds of the session [s] in which a [read] of [count] bytes
    stands at its copy with [chunk] computed: it found no receive
    outstanding, no error pending and unread bytes, of which [chunk] is as
    many as were asked for. *)
Definition at_copy (count chunk : Z) (s : usb_rt) : Prop :=
  ongoing_read s = false /\ 0 <= errors s /\ bulk_in_filled s <> 0
  /\ unread s <> 0 /\ chunk = Z.min (unread s) count.

(** * Sample sessions and environments *)

(** A session that holds 32 received bytes, none of them handed out yet:
    after attach, [poll] started a receive and the transfer completed with
    32 bytes. *)
Definition session_with_data : usb_rt :=
  usb_rt_read_bulk_callback (snd (Rt.usb_rt_poll 0 (Rt.usb_rt_probe 64)))
    0 32.

(** A session with a receive outstanding: the first submission of a fresh
    session was accepted. *)
Definition session_receiving : usb_rt :=
  snd (usb_rt_do_read_io (Rt.usb_rt_probe 64) 32 0).

(** The session with received data after a bus reset: [post_reset] put the
    stall code into the error slot. *)
Definition session_after_reset : usb_rt :=
  snd (usb_rt_post_reset session_with_data).

(** A session of the motor variant whose send endpoint takes 64 bytes. *)
Definition session_motor_64 : usb_rt :=
  set_bulk_out_size 64 (Mtr.usb_rt_probe 64 64 false).


(** Environments of a [read] in which nothing happens but the copy to user
    space: it faults in the first and works in the second. *)
Definition env_copy_fault : read_env :=
  {| r_signal := false; r_copy_left := 8; r_events := [] |}.
Definition env_copy_ok : read_env :=
  {| r_signal := false; r_copy_left := 0; r_events := [] |}.

(** The wait of a [read] ends because its bound passes. *)
Definition env_expired : read_env :=
  {| r_signal := false; r_copy_left := 0; r_events := [Wait Expired] |}.

(** Environments of a [write]: in the first every step works, in the
    second the copy from user space faults. *)
Definition env_write_ok : write_env :=
  {| w_signal := false; w_urb := true; w_buf := true; w_copy_left := 0;
     w_submit := 0 |}.
Definition env_write_fault : write_env :=
  {| w_signal := false; w_urb := true; w_buf := true; w_copy_left := 16;
     w_submit := 0 |}.

(** A freshly attached session of either variant. *)
Definition session_attached (v : variant) : usb_rt :=
  match v with
  | Generic => Rt.usb_rt_probe 64
  | Motor => Mtr.usb_rt_probe 64 64 true
  end.

(** The attached session with one handle open. *)
Definition session_open (v : variant) : usb_rt :=
  snd (usb_rt_open 0 (session_attached v)).

(** An interface with the two realtime endpoints, one that adds the two
    endpoints of the text interface, and one with a single interrupt
    endpoint. *)
Definition realtime_interface : usb_host_interface :=
  {| bInterfaceNumber := 0;
     endpoint := [ {| kind := Bulk_in; maxp := 64 |};
                   {| kind := Bulk_out; maxp := 32 |} ] |}.

Definition text_interface : usb_host_interface :=
  {| bInterfaceNumber := 0;
     endpoint := [ {| kind := Bulk_in; maxp := 64 |};
                   {| kind := Bulk_out; maxp := 32 |};
                   {| kind := Bulk_in; maxp := 64 |};
                   {| kind := Bulk_out; maxp := 64 |} ] |}.

Definition interrupt_interface : usb_host_interface :=
  {| bInterfaceNumber := 0;
     endpoint := [ {| kind := Other_kind; maxp := 8 |} ] |}.

(** Attach environments in which every allocation and registration
    works. *)
Definition generic_attach_ok : RtAttach.probe_env :=
  {| RtAttach.p_kzalloc := true; RtAttach.p_buffer := true;
     RtAttach.p_urb := true; RtAttach.p_register := 0 |}.

Definition motor_attach_ok : MtrAttach.probe_env :=
  {| MtrAttach.p_kzalloc := true; MtrAttach.p_create_file := 0;
     MtrAttach.p_in_urb := true; MtrAttach.p_in_buffer := true;
     MtrAttach.p_out_urb := true; MtrAttach.p_out_buffer := true;
     MtrAttach.p_text_buffer := true; MtrAttach.p_register := 0 |}.

Definition env_receive_8 : read_env :=
  {| r_signal := false; r_copy_left := 0;
     r_events := [Submit 0; Wait (Completed 0 8)] |}.

(** A [write] whose submission the USB core refuses. *)
Definition env_write_refused : write_env :=
  {| w_signal := false; w_urb := true; w_buf := true; w_copy_left := 0;
     w_submit := - ENOMEM |}.

(** The attached session of the motor variant after a [write] whose
    submission the core refused: the send descriptor is on the anchor and
    not in flight. *)
Definition motor_send_refused : usb_rt :=
  match Mtr.usb_rt_write (session_attached Motor) false 8 env_write_refused
  with
  | Some (_, s) => s
  | None => session_attached Motor
  end.

(** The attach of the motor variant in which [kmalloc] has no buffer for
    the text interface. *)
Definition motor_attach_no_text_buffer : MtrAttach.probe_env :=
  {| MtrAttach.p_kzalloc := true; MtrAttach.p_create_file := 0;
     MtrAttach.p_in_urb := true; MtrAttach.p_in_buffer := true;
     MtrAttach.p_out_urb := true; MtrAttach.p_out_buffer := true;
     MtrAttach.p_text_buffer := false; MtrAttach.p_register := 0 |}.

(** * Properties *)

(** ** Proof support *)

Ltac unfold_setters :=
  unfold set_interface, set_intfdata, set_minor, set_pm_usage, set_limit_sem,
    set_submitted, set_out_inflight, set_bulk_in_urb, set_bulk_in_size,
    set_bulk_in_filled, set_bulk_in_copied, set_errors, set_ongoing_read,
    set_kref, set_io_mutex, set_disconnected, set_has_text_api,
    set_text_api_attr in *.

Ltac unfold_kernel :=
  unfold up, down_trylock, down_interruptible, mutex_lock,
    mutex_lock_interruptible, mutex_unlock, kref_get, kref_put,
    usb_anchor_urb, usb_unanchor_urb, usb_submit_out, usb_deregister_dev,
    usb_rt_delete, usb_fill_bulk_in, usb_kill_urb, read_urb_giveback,
    write_urb_giveback, usb_rt_read_bulk_callback,
    usb_rt_write_bulk_callback, no_bulk_in_urb in *.

(** Case analysis on the scrutinee of the first [if] or [match] of the
    goal. *)
Ltac split_goal_if :=
  match goal with
  | |- context [if ?b then _ else _] => destruct b eqn:?
  | |- context [match ?o with Some _ => _ | None => _ end] => destruct o eqn:?
  end.

Ltac zbool :=
  repeat match goal with
    | H : (_ <? _) = true |- _ => apply Z.ltb_lt in H
    | H : (_ <? _) = false |- _ => apply Z.ltb_ge in H
    | H : (_ <=? _) = true |- _ => apply Z.leb_le in H
    | H : (_ <=? _) = false |- _ => apply Z.leb_gt in H
    | H : (_ =? _) = true |- _ => apply Z.eqb_eq in H
    | H : (_ =? _) = false |- _ => apply Z.eqb_neq in H
    | H : negb _ = true |- _ => apply negb_true_iff in H
    | H : negb _ = false |- _ => apply negb_false_iff in H
    | H : _ && _ = true |- _ => apply andb_prop in H; destruct H
    | H : Nat.eqb _ _ = true |- _ => apply Nat.eqb_eq in H
    | H : Nat.eqb _ _ = false |- _ => apply Nat.eqb_neq in H
    end.

(** Case analysis on every [if] and [match] of the hypotheses, down to the
    leaves of an operation. *)
Ltac crush :=
  repeat (simpl in *; try discriminate;
          match goal with
          | H : Some _ = Some _ |- _ => inversion H; subst; clear H
          | H : None = Some _ |- _ => discriminate H
          | H : Some _ = None |- _ => discriminate H
          | H : (_, _) = (_, _) |- _ => inversion H; subst; clear H
          | H : context [let '(_, _) := ?p in _] |- _ => destruct p eqn:?
          | H : context [if ?b then _ else _] |- _ => destruct b eqn:?
          | H : context [match ?o with Some _ => _ | None => _ end] |- _ =>
              destruct o eqn:?
          end).


(** ** The receive submission *)

Lemma do_read_io_fields (s : usb_rt) (count rv : Z) :
  let s' := snd (usb_rt_do_read_io s count rv) in
  bulk_in_filled s' = 0 /\ bulk_in_copied s' = 0 /\ errors s' = errors s
  /\ ongoing_read s' = negb (rv <? 0)
  /\ bulk_in_size s' = bulk_in_size s
  /\ limit_sem s' = limit_sem s /\ out_inflight s' = out_inflight s
  /\ submitted s' = submitted s /\ io_mutex s' = io_mutex s.
Proof.
  unfold usb_rt_do_read_io, usb_fill_bulk_in.
  destruct (bulk_in_urb s), (rv <? 0); simpl; repeat split; reflexivity.
Qed.



(** ** Machine arithmetic within range *)

Lemma size_sub_small (a b : Z) :
  0 <= b <= a -> a < SIZE_MODULUS -> size_sub a b = a - b.
Proof. intros. unfold size_sub. apply Z.mod_small. lia. Qed.

Lemma size_add_small (a b : Z) :
  0 <= a -> 0 <= b -> a + b < SIZE_MODULUS -> size_add a b = a + b.
Proof. intros. unfold size_add. apply Z.mod_small. lia. Qed.

Lemma to_int_small (x : Z) : 0 <= x < 2 ^ 31 -> to_int x = x.
Proof.
  intros. unfold to_int.
  rewrite Z.mod_small by (change (2 ^ 32) with (2 ^ 31 + 2 ^ 31); lia). lia.
Qed.

Lemma to_ssize_small (x : Z) : 0 <= x < 2 ^ 63 -> to_ssize x = x.
Proof.
  intros. unfold to_ssize.
  rewrite Z.mod_small by (change (2 ^ 64) with (2 ^ 63 + 2 ^ 63); lia). lia.
Qed.

(** ** [read] served from the buffer *)

Lemma read_buffer_serves (count copy_left : Z) (s : usb_rt) events :
  0 <= errors s ->
  0 <= bulk_in_copied s < bulk_in_filled s ->
  bulk_in_filled s < SIZE_MODULUS ->
  0 < count ->
  let chunk := Z.min (bulk_in_filled s - bulk_in_copied s) count in
  read_buffer count copy_left s events =
    Some (Exit (if negb (copy_left =? 0) then - EFAULT else to_int chunk)
            (set_bulk_in_copied (bulk_in_copied s + chunk) s)).
Proof.
  intros He Hc Hf Hn chunk. unfold read_buffer.
  rewrite size_sub_small by lia.
  destruct (errors s <? 0) eqn:E1; zbool; [lia |].
  destruct (bulk_in_filled s =? 0) eqn:E2; zbool; [lia |].
  destruct (bulk_in_filled s - bulk_in_copied s =? 0) eqn:E3; zbool; [lia |].
  simpl. fold chunk. rewrite size_add_small by (subst chunk; lia).
  reflexivity.
Qed.

Lemma Rt_read_serves (s : usb_rt) (nonblock : bool) (count : Z)
  (e : read_env) :
  no_bulk_in_urb s = false -> io_mutex s = false -> interface s = true ->
  ongoing_read s = false -> 0 <= errors s ->
  0 <= bulk_in_copied s < bulk_in_filled s ->
  bulk_in_filled s < SIZE_MODULUS -> 0 < count ->
  let chunk := Z.min (bulk_in_filled s - bulk_in_copied s) count in
  Rt.usb_rt_read s nonblock count e =
    Some ((if negb (r_copy_left e =? 0) then - EFAULT else to_int chunk),
          set_bulk_in_copied (bulk_in_copied s + chunk) s).
Proof.
  intros Hu Hm Hi Ho He Hc Hf Hn chunk. unfold Rt.usb_rt_read.
  rewrite Hu. destruct (count =? 0) eqn:E0; zbool; [lia |]. simpl.
  unfold mutex_lock_interruptible. rewrite Hm. simpl. rewrite Hi. simpl.
  unfold Rt.read_pass. simpl. rewrite Ho.
  rewrite read_buffer_serves by (simpl; assumption). simpl.
  f_equal. f_equal. destruct s; simpl in *; subst; reflexivity.
Qed.

Lemma Mtr_read_serves (s : usb_rt) (nonblock : bool) (count : Z)
  (e : read_env) :
  no_bulk_in_urb s = false -> io_mutex s = false -> disconnected s = false ->
  ongoing_read s = false -> 0 <= errors s ->
  0 <= bulk_in_copied s < bulk_in_filled s ->
  bulk_in_filled s < SIZE_MODULUS -> 0 < count ->
  let chunk := Z.min (bulk_in_filled s - bulk_in_copied s) count in
  Mtr.usb_rt_read s nonblock count e =
    Some ((if negb (r_copy_left e =? 0) then - EFAULT else to_int chunk),
          set_bulk_in_copied (bulk_in_copied s + chunk) s).
Proof.
  intros Hu Hm Hi Ho He Hc Hf Hn chunk. unfold Mtr.usb_rt_read.
  rewrite Hu. destruct (count =? 0) eqn:E0; zbool; [lia |]. simpl.
  unfold mutex_lock_interruptible. rewrite Hm. simpl. rewrite Hi. simpl.
  unfold Mtr.read_pass. simpl. rewrite Ho.
  rewrite read_buffer_serves by (simpl; assumption). simpl.
  f_equal. f_equal. destruct s; simpl in *; subst; reflexivity.
Qed.

(** C9: when unread bytes are available and the copy to the caller's
    buffer faults, [read] returns [-EFAULT] and still advances [copied] by
    the whole chunk [min (filled - copied) count], in both variants; a
    retry whose copy works is served from the new position and gets only
    the bytes after the chunk. *)
Theorem read_copy_fault_consumes_chunk (s : usb_rt) (nonblock : bool)
  (count : Z) (e e' : read_env) :
  no_bulk_in_urb s = false -> io_mutex s = false ->
  interface s = true -> disconnected s = false ->
  ongoing_read s = false -> 0 <= errors s ->
  0 <= bulk_in_copied s < bulk_in_filled s -> bulk_in_filled s < 2 ^ 31 ->
  0 < count ->
  r_copy_left e <> 0 -> r_copy_left e' = 0 ->
  let chunk := Z.min (bulk_in_filled s - bulk_in_copied s) count in
  let s' := set_bulk_in_copied (bulk_in_copied s + chunk) s in
  let rest := Z.min (bulk_in_filled s - (bulk_in_copied s + chunk)) count in
  let s'' := set_bulk_in_copied (bulk_in_copied s + chunk + rest) s in
  Rt.usb_rt_read s nonblock count e = Some (- EFAULT, s')
  /\ Mtr.usb_rt_read s nonblock count e = Some (- EFAULT, s')
  /\ (chunk < bulk_in_filled s - bulk_in_copied s ->
      Rt.usb_rt_read s' nonblock count e' = Some (rest, s'')
      /\ Mtr.usb_rt_read s' nonblock count e' = Some (rest, s'')).
Proof.
  intros Hu Hm Hi Hd Ho He Hc Hf Hn Hfault Hok chunk s' rest s''.
  assert (Hbig : 2 ^ 31 < SIZE_MODULUS) by reflexivity.
  apply Z.eqb_neq in Hfault.
  split; [| split].
  - rewrite Rt_read_serves by (auto; lia). rewrite Hfault. reflexivity.
  - rewrite Mtr_read_serves by (auto; lia). rewrite Hfault. reflexivity.
  - intros Hmore.
    assert (Hs' : bulk_in_copied s' = bulk_in_copied s + chunk)
      by reflexivity.
    split.
    + rewrite Rt_read_serves; try assumption;
        try (rewrite Hs'; simpl; subst chunk; lia); try (simpl; lia).
      rewrite Hok, Hs'. change (bulk_in_filled s') with (bulk_in_filled s).
      fold rest. rewrite to_int_small by (subst rest chunk; lia).
      reflexivity.
    + rewrite Mtr_read_serves; try assumption;
        try (rewrite Hs'; simpl; subst chunk; lia); try (simpl; lia).
      rewrite Hok, Hs'. change (bulk_in_filled s') with (bulk_in_filled s).
      fold rest. rewrite to_int_small by (subst rest chunk; lia).
      reflexivity.
Qed.

Lemma read_copy_fault_consumes_chunk_witness :
  Rt.usb_rt_read session_with_data false 8 env_copy_fault
    = Some (- EFAULT, set_bulk_in_copied 8 session_with_data)
  /\ Mtr.usb_rt_read session_with_data false 8 env_copy_fault
    = Some (- EFAULT, set_bulk_in_copied 8 session_with_data)
  /\ (8 < 32 ->
      Rt.usb_rt_read (set_bulk_in_copied 8 session_with_data) false 8
        env_copy_ok = Some (8, set_bulk_in_copied 16 session_with_data)
      /\ Mtr.usb_rt_read (set_bulk_in_copied 8 session_with_data) false 8
        env_copy_ok = Some (8, set_bulk_in_copied 16 session_with_data)).
Proof.
  apply (read_copy_fault_consumes_chunk session_with_data false 8
           env_copy_fault env_copy_ok);
    try reflexivity; simpl; try lia; discriminate.
Defined.

(** ** The [retry:] loop *)

Lemma read_start_io_shrinks count s events s' rest :
  read_start_io count s events = Some (Retry s' rest) ->
  (length rest < length events)%nat.
Proof.
  unfold read_start_io. destruct events as [| [w | rv] tl]; try discriminate.
  destruct (usb_rt_do_read_io s count rv) as [r t].
  destruct (r <? 0); intros H; inversion H; subst. simpl. lia.
Qed.

Lemma read_buffer_shrinks count copy_left s events s' rest :
  read_buffer count copy_left s events = Some (Retry s' rest) ->
  (length rest < length events)%nat.
Proof.
  unfold read_buffer.
  repeat split_goal_if; try discriminate; apply read_start_io_shrinks.
Qed.

Lemma Rt_read_pass_shrinks nonblock count copy_left s events s' rest :
  Rt.read_pass nonblock count copy_left s events = Some (Retry s' rest) ->
  (length rest < length events)%nat.
Proof.
  unfold Rt.read_pass. destruct (ongoing_read s).
  - destruct nonblock; [discriminate |].
    destruct events as [| [[st len | |] | rv] tl]; try discriminate.
    destruct (read_urb_giveback st len s); [| discriminate].
    intros H. apply read_buffer_shrinks in H. simpl. lia.
  - apply read_buffer_shrinks.
Qed.

Lemma Mtr_read_pass_shrinks nonblock count copy_left s events s' rest :
  Mtr.read_pass nonblock count copy_left s events = Some (Retry s' rest) ->
  (length rest < length events)%nat.
Proof.
  unfold Mtr.read_pass. destruct (ongoing_read s).
  - destruct nonblock; [discriminate |].
    destruct events as [| [[st len | |] | rv] tl]; try discriminate.
    destruct (read_urb_giveback st len s); [| discriminate].
    intros H. apply read_buffer_shrinks in H. simpl. lia.
  - apply read_buffer_shrinks.
Qed.

(** Once the fuel exceeds the number of events left, more fuel changes
    nothing. *)
Lemma read_loop_fuel one_pass :
  (forall s events s' rest,
      one_pass s events = Some (Retry s' rest) ->
      (length rest < length events)%nat) ->
  forall f1 f2 s events,
    (length events < f1)%nat -> (length events < f2)%nat ->
    read_loop one_pass f1 s events = read_loop one_pass f2 s events.
Proof.
  intros Hshrink. induction f1 as [| f1 IH]; intros f2 s events H1 H2.
  - lia.
  - destruct f2 as [| f2]; [lia |]. simpl.
    destruct (one_pass s events) as [[rv t | t rest] |] eqn:E; auto.
    apply Hshrink in E. apply IH; lia.
Qed.

(** ** A receive is outstanding when [read] looks *)

Lemma read_urb_giveback_locked status len s :
  read_urb_giveback status len (set_io_mutex true s) =
  option_map (set_io_mutex true) (read_urb_giveback status len s).
Proof.
  unfold read_urb_giveback. simpl. destruct (bulk_in_urb s); [| reflexivity].
  destruct (ongoing_read s && (status <=? 0) && (0 <=? len)
            && (len <=? transfer_buffer_length u)); [| reflexivity].
  unfold usb_rt_read_bulk_callback. simpl.
  destruct (negb (status =? 0)); reflexivity.
Qed.

Lemma read_urb_giveback_fields status len s s' :
  read_urb_giveback status len s = Some s' ->
  ongoing_read s' = false /\ no_bulk_in_urb s' = no_bulk_in_urb s
  /\ io_mutex s' = io_mutex s /\ interface s' = interface s
  /\ disconnected s' = disconnected s
  /\ ongoing_read s = true /\ status <= 0.
Proof.
  unfold read_urb_giveback, usb_rt_read_bulk_callback, no_bulk_in_urb.
  destruct (bulk_in_urb s) eqn:Eu; [| discriminate].
  destruct (ongoing_read s); simpl; [| discriminate].
  destruct (status <=? 0) eqn:Es; simpl; [| discriminate].
  destruct ((0 <=? len) && (len <=? transfer_buffer_length u));
    [| discriminate].
  intros H; inversion H; subst; clear H. zbool.
  destruct (negb (status =? 0)); simpl; rewrite Eu; auto 10.
Qed.

Lemma read_loop_step one_pass fuel s events :
  read_loop one_pass (S fuel) s events =
    match one_pass s events with
    | Some (Exit rv s') => Some (rv, s')
    | Some (Retry s' rest) => read_loop one_pass fuel s' rest
    | None => None
    end.
Proof. reflexivity. Qed.

Lemma Rt_pass_completed count copy_left s status len s1 rest :
  ongoing_read s = true -> read_urb_giveback status len s = Some s1 ->
  Rt.read_pass false count copy_left s (Wait (Completed status len) :: rest)
    = read_buffer count copy_left s1 rest.
Proof. intros Ho Hg. unfold Rt.read_pass. rewrite Ho, Hg. reflexivity. Qed.

Lemma Mtr_pass_completed count copy_left s status len s1 rest :
  ongoing_read s = true -> read_urb_giveback status len s = Some s1 ->
  Mtr.read_pass false count copy_left s (Wait (Completed status len) :: rest)
    = read_buffer count copy_left s1 rest.
Proof. intros Ho Hg. unfold Mtr.read_pass. rewrite Ho, Hg. reflexivity. Qed.

Lemma Rt_pass_idle nonblock count copy_left s events :
  ongoing_read s = false ->
  Rt.read_pass nonblock count copy_left s events
    = read_buffer count copy_left s events.
Proof. intros Ho. unfold Rt.read_pass. rewrite Ho. reflexivity. Qed.

Lemma Mtr_pass_idle nonblock count copy_left s events :
  ongoing_read s = false ->
  Mtr.read_pass nonblock count copy_left s events
    = read_buffer count copy_left s events.
Proof. intros Ho. unfold Mtr.read_pass. rewrite Ho. reflexivity. Qed.

Lemma unlock_after_lock (s : usb_rt) :
  io_mutex s = false -> mutex_unlock (set_io_mutex true s) = s.
Proof. intros H. destruct s; simpl in *; subst; reflexivity. Qed.

Lemma Rt_read_enters (s : usb_rt) (nonblock : bool) (count : Z)
  (e : read_env) :
  no_bulk_in_urb s = false -> 0 < count -> io_mutex s = false ->
  interface s = true ->
  Rt.usb_rt_read s nonblock count e =
    match read_loop (Rt.read_pass nonblock count (r_copy_left e))
            (S (length (r_events e))) (set_io_mutex true s) (r_events e) with
    | Some (rv, s2) => Some (rv, mutex_unlock s2)
    | None => None
    end.
Proof.
  intros Hu Hn Hm Hi. unfold Rt.usb_rt_read. rewrite Hu.
  destruct (count =? 0) eqn:E0; zbool; [lia |]. simpl.
  unfold mutex_lock_interruptible. rewrite Hm. simpl. rewrite Hi.
  reflexivity.
Qed.

Lemma Mtr_read_enters (s : usb_rt) (nonblock : bool) (count : Z)
  (e : read_env) :
  no_bulk_in_urb s = false -> 0 < count -> io_mutex s = false ->
  disconnected s = false ->
  Mtr.usb_rt_read s nonblock count e =
    match read_loop (Mtr.read_pass nonblock count (r_copy_left e))
            (S (length (r_events e))) (set_io_mutex true s) (r_events e) with
    | Some (rv, s2) => Some (rv, mutex_unlock s2)
    | None => None
    end.
Proof.
  intros Hu Hn Hm Hi. unfold Mtr.usb_rt_read. rewrite Hu.
  destruct (count =? 0) eqn:E0; zbool; [lia |]. simpl.
  unfold mutex_lock_interruptible. rewrite Hm. simpl. rewrite Hi.
  reflexivity.
Qed.

(** C5: with a receive outstanding when [read] looks, a non-blocking
    [read] fails with [-EAGAIN] whatever the environment would do (it does
    not wait); a blocking [read] has no result while nothing happens, fails
    with [-ERESTARTSYS] when a signal ends the wait, and carries on as a
    [read] of the session the completion leaves when the transfer
    completes; in the motor variant, whose wait is bounded, the expiry of
    the bound makes [read] fail with [-ETIMEDOUT]. *)
Theorem read_with_receive_outstanding (s : usb_rt) (count : Z) :
  no_bulk_in_urb s = false -> 0 < count -> io_mutex s = false ->
  interface s = true -> disconnected s = false ->
  ongoing_read s = true ->
  (forall e,
      Rt.usb_rt_read s true count e = Some (- EAGAIN, s)
      /\ Mtr.usb_rt_read s true count e = Some (- EAGAIN, s))
  /\ (forall e, r_events e = [] ->
      Rt.usb_rt_read s false count e = None
      /\ Mtr.usb_rt_read s false count e = None)
  /\ (forall e rest, r_events e = Wait Signalled :: rest ->
      Rt.usb_rt_read s false count e = Some (- ERESTARTSYS, s)
      /\ Mtr.usb_rt_read s false count e = Some (- ERESTARTSYS, s))
  /\ (forall e rest status len s1,
      r_events e = Wait (Completed status len) :: rest ->
      read_urb_giveback status len s = Some s1 ->
      let e1 := {| r_signal := r_signal e; r_copy_left := r_copy_left e;
                   r_events := rest |} in
      Rt.usb_rt_read s false count e = Rt.usb_rt_read s1 false count e1
      /\ Mtr.usb_rt_read s false count e = Mtr.usb_rt_read s1 false count e1)
  /\ (forall e rest, r_events e = Wait Expired :: rest ->
      Mtr.usb_rt_read s false count e = Some (- ETIMEDOUT, s)).
Proof.
  intros Hu Hn Hm Hi Hd Ho.
  assert (Hback := unlock_after_lock s Hm).
  repeat split; intros;
    try match goal with |- _ /\ _ => split end.
  - rewrite Rt_read_enters by assumption. simpl.
    unfold Rt.read_pass. simpl. rewrite Ho, Hback. reflexivity.
  - rewrite Mtr_read_enters by assumption. simpl.
    unfold Mtr.read_pass. simpl. rewrite Ho, Hback. reflexivity.
  - rewrite Rt_read_enters by assumption. rewrite H. simpl.
    unfold Rt.read_pass. simpl. rewrite Ho. reflexivity.
  - rewrite Mtr_read_enters by assumption. rewrite H. simpl.
    unfold Mtr.read_pass. simpl. rewrite Ho. reflexivity.
  - rewrite Rt_read_enters by assumption. rewrite H. simpl.
    unfold Rt.read_pass. simpl. rewrite Ho, Hback. reflexivity.
  - rewrite Mtr_read_enters by assumption. rewrite H. simpl.
    unfold Mtr.read_pass. simpl. rewrite Ho, Hback. reflexivity.
  - destruct (read_urb_giveback_fields _ _ _ _ H0)
      as (Ho1 & Hu1 & Hm1 & Hi1 & _).
    rewrite !Rt_read_enters by congruence. rewrite H.
    cbn [r_events r_copy_left length]. rewrite !read_loop_step.
    rewrite (Rt_pass_completed _ _ _ _ _ (set_io_mutex true s1))
      by (auto; rewrite read_urb_giveback_locked, H0; reflexivity).
    rewrite Rt_pass_idle by assumption.
    destruct (read_buffer count (r_copy_left e) (set_io_mutex true s1) rest)
      as [[rv t | t rest'] |] eqn:E; try reflexivity.
    apply read_buffer_shrinks in E.
    rewrite (read_loop_fuel _ (Rt_read_pass_shrinks false count _)
               (S (length rest)) (length rest)) by lia.
    reflexivity.
  - destruct (read_urb_giveback_fields _ _ _ _ H0)
      as (Ho1 & Hu1 & Hm1 & _ & Hd1 & _).
    rewrite !Mtr_read_enters by congruence. rewrite H.
    cbn [r_events r_copy_left length]. rewrite !read_loop_step.
    rewrite (Mtr_pass_completed _ _ _ _ _ (set_io_mutex true s1))
      by (auto; rewrite read_urb_giveback_locked, H0; reflexivity).
    rewrite Mtr_pass_idle by assumption.
    destruct (read_buffer count (r_copy_left e) (set_io_mutex true s1) rest)
      as [[rv t | t rest'] |] eqn:E; try reflexivity.
    apply read_buffer_shrinks in E.
    rewrite (read_loop_fuel _ (Mtr_read_pass_shrinks false count _)
               (S (length rest)) (length rest)) by lia.
    reflexivity.
  - rewrite Mtr_read_enters by assumption. rewrite H. simpl.
    unfold Mtr.read_pass. simpl. rewrite Ho, Hback. reflexivity.
Qed.

Lemma read_with_receive_outstanding_witness :
  ongoing_read session_receiving = true
  /\ Rt.usb_rt_read session_receiving true 32 env_copy_ok
     = Some (- EAGAIN, session_receiving)
  /\ Mtr.usb_rt_read session_receiving false 32 env_expired
     = Some (- ETIMEDOUT, session_receiving).
Proof.
  assert (H : 0 < 32) by reflexivity.
  destruct (read_with_receive_outstanding session_receiving 32
              eq_refl H eq_refl eq_refl eq_refl eq_refl)
    as (Hnb & _ & _ & _ & Hexp).
  split; [reflexivity |]. split.
  - apply Hnb.
  - apply (Hexp env_expired []). reflexivity.
Defined.

(** ** The bookkeeping of the receive buffer is an invariant *)

Lemma rx_inv_view (s s' : usb_rt) :
  rx_view s' = rx_view s -> rx_inv s -> rx_inv s'.
Proof.
  unfold rx_view, rx_inv. intros H. inversion H as [[H1 H2 H3 H4 H5]].
  rewrite H1, H2, H3, H4, H5. auto.
Qed.

(** A length that fits the receive buffer passes through the [int]
    parameter of [usb_fill_bulk_urb] and the [u32] field unchanged. *)
Lemma buffer_length_small (x : Z) :
  0 <= x < 2 ^ 16 -> to_uint (to_int x) = x.
Proof.
  intros H. rewrite to_int_small by lia. unfold to_uint.
  apply Z.mod_small. lia.
Qed.

Lemma rx_inv_do_read_io (s : usb_rt) (count rv : Z) :
  rx_inv s -> 0 <= count -> rx_inv (snd (usb_rt_do_read_io s count rv)).
Proof.
  unfold rx_inv. intros (Hc & Hf & Hs & Hu & Ho) Hn.
  assert (Hlen : to_uint (to_int (Z.min (bulk_in_size s) count))
                 <= bulk_in_size s)
    by (rewrite buffer_length_small; lia).
  unfold usb_rt_do_read_io, usb_fill_bulk_in. cbv zeta.
  destruct (bulk_in_urb s) eqn:Eu; destruct (rv <? 0); simpl;
    rewrite ?Eu; repeat split; try lia; auto;
    intros u' Hu'; inversion Hu'; subst; simpl; lia.
Qed.

Lemma rx_inv_read_callback (s s' : usb_rt) (status len : Z) :
  rx_inv s -> read_urb_giveback status len s = Some s' -> rx_inv s'.
Proof.
  unfold rx_inv, read_urb_giveback, usb_rt_read_bulk_callback.
  intros (Hc & Hf & Hs & Hu & Ho).
  destruct (bulk_in_urb s) as [u |] eqn:Eu; [| discriminate].
  destruct (ongoing_read s); simpl; [| discriminate].
  destruct (status <=? 0); simpl; [| discriminate].
  destruct (0 <=? len) eqn:E1; simpl; [| discriminate].
  destruct (len <=? transfer_buffer_length u) eqn:E2; [| discriminate].
  intros H; inversion H; subst; clear H. zbool.
  specialize (Hu u eq_refl). destruct Ho as [Ho1 Ho2]; [reflexivity |].
  destruct (negb (status =? 0)); simpl; rewrite ?Eu;
    repeat split; try lia; try discriminate;
    intros u' Hu'; inversion Hu'; subst; lia.
Qed.

Lemma rx_inv_kill_urb (s : usb_rt) : rx_inv s -> rx_inv (usb_kill_urb s).
Proof.
  unfold usb_kill_urb. destruct (ongoing_read s) eqn:Eo; [| auto].
  unfold rx_inv, usb_rt_read_bulk_callback. simpl.
  intros (Hc & Hf & Hs & Hu & Ho).
  repeat split; try lia; auto; discriminate.
Qed.

Lemma rx_view_write_giveback (s : usb_rt) (status : Z) :
  rx_view (write_urb_giveback status s) = rx_view s.
Proof.
  unfold write_urb_giveback, usb_rt_write_bulk_callback, up.
  destruct (negb (status =? 0)); reflexivity.
Qed.

Lemma rx_view_wait_completions (done : list Z) (s : usb_rt) :
  rx_view (usb_wait_completions done s) = rx_view s.
Proof.
  revert s. induction done as [| st rest IH]; intros s; simpl; auto.
  destruct (Nat.eqb (out_inflight s) 0); auto.
  rewrite IH. apply rx_view_write_giveback.
Qed.

Lemma rx_view_kill_iter (n : nat) (s : usb_rt) :
  rx_view (Nat.iter n (write_urb_giveback (- ENOENT)) s) = rx_view s.
Proof.
  induction n as [| n IH]; [reflexivity |].
  rewrite Nat.iter_succ, rx_view_write_giveback. exact IH.
Qed.

Lemma rx_inv_kill_anchored (s s' : usb_rt) :
  rx_inv s -> usb_kill_anchored_urbs s = Some s' -> rx_inv s'.
Proof.
  unfold usb_kill_anchored_urbs. intros Hi.
  destruct (Nat.eqb (submitted s) (out_inflight s)); [| discriminate].
  intros H; inversion H; subst. eapply rx_inv_view; [| exact Hi].
  apply rx_view_kill_iter.
Qed.

Lemma rx_inv_draw_down (done : list Z) (s s' : usb_rt) :
  rx_inv s -> usb_rt_draw_down done s = Some s' -> rx_inv s'.
Proof.
  unfold usb_rt_draw_down, usb_wait_anchor_empty_timeout. intros Hi.
  assert (Hw : rx_inv (usb_wait_completions done s))
    by (eapply rx_inv_view; [apply rx_view_wait_completions | exact Hi]).
  destruct (Nat.eqb (submitted (usb_wait_completions done s)) 0); simpl.
  - intros H; inversion H; subst. apply rx_inv_kill_urb. exact Hw.
  - destruct (usb_kill_anchored_urbs (usb_wait_completions done s))
      as [t |] eqn:Ek; [| discriminate].
    intros H; inversion H; subst. apply rx_inv_kill_urb.
    eapply rx_inv_kill_anchored; eauto.
Qed.

(** ** How one pass of [read] can end *)

Lemma read_start_io_cases count s events :
  match read_start_io count s events with
  | None => True
  | Some (Exit rv s') =>
      exists srv rest,
        events = Submit srv :: rest /\ srv < 0
        /\ (rv = - ENOMEM \/ rv = - EIO)
        /\ s' = snd (usb_rt_do_read_io s count srv)
  | Some (Retry s' rest) =>
      exists srv,
        events = Submit srv :: rest /\ 0 <= srv
        /\ s' = snd (usb_rt_do_read_io s count srv)
  end.
Proof.
  unfold read_start_io. destruct events as [| [w | srv] rest]; auto.
  destruct (usb_rt_do_read_io s count srv) as [rv s'] eqn:E.
  assert (Hrv : rv = fst (usb_rt_do_read_io s count srv))
    by (rewrite E; reflexivity).
  assert (Hs : s' = snd (usb_rt_do_read_io s count srv))
    by (rewrite E; reflexivity).
  unfold usb_rt_do_read_io in Hrv.
  destruct (srv <? 0) eqn:E1; cbn [fst] in Hrv; zbool.
  - assert (Hneg : (rv <? 0) = true).
    { apply Z.ltb_lt. subst rv.
      destruct (srv =? - ENOMEM); [lia | reflexivity]. }
    rewrite Hneg. exists srv, rest. repeat split; auto.
    subst rv. destruct (srv =? - ENOMEM) eqn:E2; zbool; auto.
  - assert (Hpos : (rv <? 0) = false) by (apply Z.ltb_ge; lia).
    rewrite Hpos. exists srv. repeat split; auto.
Qed.

Lemma read_buffer_cases count copy_left s events :
  rx_inv s -> 0 < count ->
  match read_buffer count copy_left s events with
  | None => True
  | Some (Exit rv s') =>
      (errors s < 0 /\ rv = surfaced (errors s) /\ s' = set_errors 0 s)
      \/ (0 <= errors s /\ bulk_in_filled s = bulk_in_copied s
          /\ exists srv rest,
              events = Submit srv :: rest /\ srv < 0
              /\ (rv = - ENOMEM \/ rv = - EIO)
              /\ s' = snd (usb_rt_do_read_io s count srv))
      \/ (0 <= errors s /\ bulk_in_copied s < bulk_in_filled s
          /\ rv = (if negb (copy_left =? 0) then - EFAULT
                   else Z.min (bulk_in_filled s - bulk_in_copied s) count)
          /\ s' = set_bulk_in_copied
                    (bulk_in_copied s
                     + Z.min (bulk_in_filled s - bulk_in_copied s) count) s)
  | Some (Retry s' rest) =>
      0 <= errors s /\ bulk_in_filled s = bulk_in_copied s
      /\ exists srv,
          events = Submit srv :: rest /\ 0 <= srv
          /\ s' = snd (usb_rt_do_read_io s count srv)
  end.
Proof.
  intros (Hc & Hf & Hs & Hu & Ho) Hn.
  assert (Hbig : 2 ^ 16 < 2 ^ 31 /\ 2 ^ 31 < SIZE_MODULUS)
    by (split; reflexivity).
  unfold read_buffer.
  destruct (errors s <? 0) eqn:E1; zbool.
  { left. unfold surfaced. destruct (errors s =? - EPIPE) eqn:E; zbool;
      repeat split; auto. }
  rewrite size_sub_small by lia.
  assert (Hio :
    bulk_in_filled s = bulk_in_copied s ->
    match read_start_io count s events with
    | None => True
    | Some (Exit rv s') =>
        (errors s < 0 /\ rv = surfaced (errors s) /\ s' = set_errors 0 s)
        \/ (0 <= errors s /\ bulk_in_filled s = bulk_in_copied s
            /\ exists srv rest,
                events = Submit srv :: rest /\ srv < 0
                /\ (rv = - ENOMEM \/ rv = - EIO)
                /\ s' = snd (usb_rt_do_read_io s count srv))
        \/ (0 <= errors s /\ bulk_in_copied s < bulk_in_filled s
            /\ rv = (if negb (copy_left =? 0) then - EFAULT
                     else Z.min (bulk_in_filled s - bulk_in_copied s) count)
            /\ s' = set_bulk_in_copied
                      (bulk_in_copied s
                       + Z.min (bulk_in_filled s - bulk_in_copied s) count) s)
    | Some (Retry s' rest) =>
        0 <= errors s /\ bulk_in_filled s = bulk_in_copied s
        /\ exists srv,
            events = Submit srv :: rest /\ 0 <= srv
            /\ s' = snd (usb_rt_do_read_io s count srv)
    end).
  { intros Heq. pose proof (read_start_io_cases count s events) as H.
    destruct (read_start_io count s events) as [[rv s' | s' rest] |];
      auto 6. }
  destruct (bulk_in_filled s =? 0) eqn:E2; zbool; simpl.
  { apply Hio. lia. }
  destruct (bulk_in_filled s - bulk_in_copied s =? 0) eqn:E3; zbool.
  { apply Hio. lia. }
  right. right. repeat split; try lia.
  - destruct (negb (copy_left =? 0)); auto. apply to_int_small. lia.
  - rewrite size_add_small by lia. reflexivity.
Qed.

Lemma read_loop_rule (P : usb_rt -> list io_event -> Prop)
  (Q : Z -> usb_rt -> Prop) one_pass :
  (forall s events, P s events ->
     match one_pass s events with
     | Some (Exit rv s') => Q rv s'
     | Some (Retry s' rest) => P s' rest
     | None => True
     end) ->
  forall fuel s events rv s',
    P s events -> read_loop one_pass fuel s events = Some (rv, s') ->
    Q rv s'.
Proof.
  intros Hpass. induction fuel as [| fuel IH]; intros s events rv s' HP;
    simpl; [discriminate |].
  specialize (Hpass s events HP).
  destruct (one_pass s events) as [[rv1 s1 | s1 rest] |]; try discriminate.
  - intros H; inversion H; subst. exact Hpass.
  - intros H. exact (IH s1 rest rv s' Hpass H).
Qed.

Lemma read_exit_ok_negative count rv s :
  rx_inv s -> rv < 0 -> read_exit_ok count rv s.
Proof. intros Hi Hrv. split; [exact Hi | lia]. Qed.

Lemma rx_inv_unread_idle (s : usb_rt) :
  rx_inv s -> bulk_in_copied s < bulk_in_filled s -> ongoing_read s = false.
Proof.
  intros (Hc & Hf & Hs & Hu & Ho) Hlt.
  destruct (ongoing_read s); [| reflexivity].
  destruct Ho; [reflexivity | lia].
Qed.

Lemma read_buffer_exit_ok count copy_left s events :
  rx_inv s -> 0 < count ->
  match read_buffer count copy_left s events with
  | Some (Exit rv s') => read_exit_ok count rv s'
  | Some (Retry s' rest) => rx_inv s'
  | None => True
  end.
Proof.
  intros Hi Hn. pose proof (read_buffer_cases count copy_left s events Hi Hn).
  destruct (read_buffer count copy_left s events) as [[rv s' | s' rest] |];
    auto.
  - destruct H as [(He & Hrv & Hs) | [(He & Heq & srv & rest & _ & _ & Hrv & Hs)
                                     | (He & Hlt & Hrv & Hs)]].
    + apply read_exit_ok_negative.
      * subst s'. eapply rx_inv_view; [| exact Hi]. reflexivity.
      * subst rv. unfold surfaced. destruct (errors s =? - EPIPE); reflexivity.
    + apply read_exit_ok_negative.
      * subst s'. apply rx_inv_do_read_io; [exact Hi | lia].
      * destruct Hrv; subst rv; reflexivity.
    + pose proof (rx_inv_unread_idle s Hi Hlt) as Hidle.
      destruct Hi as (Hc & Hf & Hsz & Hu & Ho).
      assert (Hinv' : rx_inv s').
      { subst s'. unfold rx_inv. simpl. rewrite Hidle.
        repeat split; try lia; auto; discriminate. }
      destruct (negb (copy_left =? 0)).
      * apply read_exit_ok_negative; [exact Hinv' | subst rv; reflexivity].
      * split; [exact Hinv' |]. intros _. subst s' rv. simpl. lia.
  - destruct H as (_ & _ & srv & _ & _ & Hs). subst s'.
    apply rx_inv_do_read_io; [exact Hi | lia].
Qed.

Lemma Rt_read_pass_exit_ok nonblock count copy_left s events :
  rx_inv s -> 0 < count ->
  match Rt.read_pass nonblock count copy_left s events with
  | Some (Exit rv s') => read_exit_ok count rv s'
  | Some (Retry s' rest) => rx_inv s'
  | None => True
  end.
Proof.
  intros Hi Hn. unfold Rt.read_pass. destruct (ongoing_read s).
  - destruct nonblock.
    + apply read_exit_ok_negative; [exact Hi | reflexivity].
    + destruct events as [| [[st len | |] | rv] rest]; auto.
      * destruct (read_urb_giveback st len s) as [s1 |] eqn:E; auto.
        apply read_buffer_exit_ok; auto.
        eapply rx_inv_read_callback; eauto.
      * apply read_exit_ok_negative; [exact Hi | reflexivity].
  - apply read_buffer_exit_ok; auto.
Qed.

Lemma Mtr_read_pass_exit_ok nonblock count copy_left s events :
  rx_inv s -> 0 < count ->
  match Mtr.read_pass nonblock count copy_left s events with
  | Some (Exit rv s') => read_exit_ok count rv s'
  | Some (Retry s' rest) => rx_inv s'
  | None => True
  end.
Proof.
  intros Hi Hn. unfold Mtr.read_pass. destruct (ongoing_read s).
  - destruct nonblock.
    + apply read_exit_ok_negative; [exact Hi | reflexivity].
    + destruct events as [| [[st len | |] | rv] rest]; auto.
      * destruct (read_urb_giveback st len s) as [s1 |] eqn:E; auto.
        apply read_buffer_exit_ok; auto.
        eapply rx_inv_read_callback; eauto.
      * apply read_exit_ok_negative; [exact Hi | reflexivity].
      * apply read_exit_ok_negative; [exact Hi | reflexivity].
  - apply read_buffer_exit_ok; auto.
Qed.

Lemma read_exit_ok_unlock count rv s :
  read_exit_ok count rv s -> read_exit_ok count rv (mutex_unlock s).
Proof.
  intros [Hi Hrv]. split; [| exact Hrv].
  eapply rx_inv_view; [| exact Hi]. reflexivity.
Qed.

(** What every [read] that returns leaves behind, generic variant. *)
Lemma Rt_read_result (s : usb_rt) nonblock count e rv s' :
  rx_inv s -> 0 <= count ->
  Rt.usb_rt_read s nonblock count e = Some (rv, s') ->
  rx_inv s'
  /\ (0 <= rv -> rv <= count /\ 0 <= bulk_in_copied s' - rv
               /\ rv <= bulk_in_filled s' - (bulk_in_copied s' - rv))
  /\ (0 <= rv -> no_bulk_in_urb s = false ->
      rv = Z.min (bulk_in_filled s' - (bulk_in_copied s' - rv)) count).
Proof.
  intros Hi Hn. unfold Rt.usb_rt_read.
  remember (read_loop (Rt.read_pass nonblock count (r_copy_left e))
              (S (length (r_events e)))) as loop eqn:Hloop.
  assert (Hlock : rx_inv (set_io_mutex true s))
    by (eapply rx_inv_view; [| exact Hi]; reflexivity).
  assert (Hc : 0 <= bulk_in_copied s <= bulk_in_filled s) by apply Hi.
  destruct (no_bulk_in_urb s) eqn:Eu; simpl.
  { intros H; inversion H; subst.
    split; [exact Hi |]. split; intros; [lia | discriminate]. }
  destruct (count =? 0) eqn:E0; zbool.
  { intros H; inversion H; subst.
    split; [exact Hi |]. split; intros; lia. }
  unfold mutex_lock_interruptible. destruct (io_mutex s).
  { destruct (r_signal e); [| discriminate]. simpl.
    intros H; inversion H; subst.
    split; [exact Hi |]. unfold EINTR. split; intros; lia. }
  cbn [Z.ltb Z.compare interface set_io_mutex]. destruct (interface s).
  2:{ simpl. intros H; inversion H; subst.
      split; [eapply rx_inv_view; [| exact Hi]; reflexivity |].
      unfold ENODEV. split; intros; lia. }
  cbn [negb].
  destruct (loop (set_io_mutex true s) (r_events e))
    as [[rv2 s2] |] eqn:El; [| discriminate].
  intros H; inversion H; subst; clear H.
  assert (Hex : read_exit_ok count rv s2).
  { eapply (read_loop_rule (fun s _ => rx_inv s) (read_exit_ok count));
      [| exact Hlock | exact El].
    intros t ev Ht. apply Rt_read_pass_exit_ok; auto. lia. }
  apply read_exit_ok_unlock in Hex. destruct Hex as [Hi2 Hrv].
  split; [exact Hi2 |]. split; intros; specialize (Hrv ltac:(assumption)).
  - lia.
  - tauto.
Qed.

(** What every [read] that returns leaves behind, motor variant. *)
Lemma Mtr_read_result (s : usb_rt) nonblock count e rv s' :
  rx_inv s -> 0 <= count ->
  Mtr.usb_rt_read s nonblock count e = Some (rv, s') ->
  rx_inv s'
  /\ (0 <= rv -> rv <= count /\ 0 <= bulk_in_copied s' - rv
               /\ rv <= bulk_in_filled s' - (bulk_in_copied s' - rv))
  /\ (0 <= rv -> no_bulk_in_urb s = false ->
      rv = Z.min (bulk_in_filled s' - (bulk_in_copied s' - rv)) count).
Proof.
  intros Hi Hn. unfold Mtr.usb_rt_read.
  remember (read_loop (Mtr.read_pass nonblock count (r_copy_left e))
              (S (length (r_events e)))) as loop eqn:Hloop.
  assert (Hlock : rx_inv (set_io_mutex true s))
    by (eapply rx_inv_view; [| exact Hi]; reflexivity).
  assert (Hc : 0 <= bulk_in_copied s <= bulk_in_filled s) by apply Hi.
  destruct (no_bulk_in_urb s) eqn:Eu; simpl.
  { intros H; inversion H; subst.
    split; [exact Hi |]. split; intros; [lia | discriminate]. }
  destruct (count =? 0) eqn:E0; zbool.
  { intros H; inversion H; subst.
    split; [exact Hi |]. split; intros; lia. }
  unfold mutex_lock_interruptible. destruct (io_mutex s).
  { destruct (r_signal e); [| discriminate]. simpl.
    intros H; inversion H; subst.
    split; [exact Hi |]. unfold EINTR. split; intros; lia. }
  cbn [Z.ltb Z.compare disconnected set_io_mutex].
  destruct (disconnected s).
  1:{ simpl. intros H; inversion H; subst.
      split; [eapply rx_inv_view; [| exact Hi]; reflexivity |].
      unfold ENODEV. split; intros; lia. }
  destruct (loop (set_io_mutex true s) (r_events e))
    as [[rv2 s2] |] eqn:El; [| discriminate].
  intros H; inversion H; subst; clear H.
  assert (Hex : read_exit_ok count rv s2).
  { eapply (read_loop_rule (fun s _ => rx_inv s) (read_exit_ok count));
      [| exact Hlock | exact El].
    intros t ev Ht. apply Mtr_read_pass_exit_ok; auto. lia. }
  apply read_exit_ok_unlock in Hex. destruct Hex as [Hi2 Hrv].
  split; [exact Hi2 |]. split; intros; specialize (Hrv ltac:(assumption)).
  - lia.
  - tauto.
Qed.

(** ** Operations that leave the receive bookkeeping alone *)

Lemma Rt_write_effect PAGE_SIZE s nonblock count e r s' :
  Rt.usb_rt_write PAGE_SIZE s nonblock count e = Some (r, s') ->
  rx_view s' = rx_view s /\ slots s' = slots s
  /\ ((out_inflight s' = out_inflight s /\ limit_sem s' = limit_sem s)
      \/ (out_inflight s' = S (out_inflight s)
          /\ limit_sem s' = limit_sem s - 1
          /\ r = to_ssize (Z.min count (Rt.MAX_TRANSFER PAGE_SIZE)))).
Proof.
  unfold Rt.usb_rt_write, Rt.write_error, slots. unfold_kernel.
  intros H. crush; simpl; repeat split; try reflexivity; try lia;
    try (rewrite Nat2Z.inj_succ; lia);
    try (left; split; [reflexivity | lia]);
    right; repeat split; lia.
Qed.

Lemma Mtr_write_effect s nonblock count e r s' :
  Mtr.usb_rt_write s nonblock count e = Some (r, s') ->
  rx_view s' = rx_view s /\ slots s' = slots s
  /\ ((out_inflight s' = out_inflight s /\ limit_sem s' = limit_sem s)
      \/ (out_inflight s' = S (out_inflight s)
          /\ limit_sem s' = limit_sem s - 1
          /\ r = to_ssize (Z.min count (bulk_out_size s)))).
Proof.
  unfold Mtr.usb_rt_write, Mtr.write_error, slots. unfold_kernel.
  intros H. crush; simpl; repeat split; try reflexivity; try lia;
    try (rewrite Nat2Z.inj_succ; lia);
    try (left; split; [reflexivity | lia]);
    right; repeat split; lia.
Qed.

(** ** Free slots plus sends in flight are constant *)

Lemma slots_write_giveback (status : Z) (s : usb_rt) :
  (0 < out_inflight s)%nat ->
  slots (write_urb_giveback status s) = slots s
  /\ out_inflight (write_urb_giveback status s) = Nat.pred (out_inflight s)
  /\ limit_sem (write_urb_giveback status s) = limit_sem s + 1.
Proof.
  intros Hpos. unfold write_urb_giveback, usb_rt_write_bulk_callback, up, slots.
  destruct (negb (status =? 0)); simpl; repeat split; lia.
Qed.

Lemma slots_wait_completions (done : list Z) (s : usb_rt) :
  slots (usb_wait_completions done s) = slots s.
Proof.
  revert s. induction done as [| st rest IH]; intros s; simpl; auto.
  destruct (Nat.eqb (out_inflight s) 0) eqn:E; auto. zbool.
  rewrite IH. apply slots_write_giveback. lia.
Qed.

Lemma kill_iter_effect (n : nat) (s : usb_rt) :
  (n <= out_inflight s)%nat ->
  let s' := Nat.iter n (write_urb_giveback (- ENOENT)) s in
  slots s' = slots s
  /\ out_inflight s' = (out_inflight s - n)%nat
  /\ submitted s' = (submitted s - n)%nat
  /\ limit_sem s' = limit_sem s + Z.of_nat n.
Proof.
  induction n as [| n IH]; intros Hle s'.
  - subst s'. simpl. repeat split; lia.
  - subst s'. rewrite Nat.iter_succ.
    destruct IH as (H1 & H2 & H3 & H4); [lia |].
    set (t := Nat.iter n (write_urb_giveback (- ENOENT)) s) in *.
    destruct (slots_write_giveback (- ENOENT) t) as (G1 & G2 & G3); [lia |].
    repeat split; try lia.
    unfold write_urb_giveback, usb_rt_write_bulk_callback, up. simpl. lia.
Qed.

Lemma slots_kill_anchored (s s' : usb_rt) :
  usb_kill_anchored_urbs s = Some s' ->
  slots s' = slots s /\ out_inflight s' = 0%nat /\ submitted s' = 0%nat.
Proof.
  unfold usb_kill_anchored_urbs.
  destruct (Nat.eqb (submitted s) (out_inflight s)) eqn:E; [| discriminate].
  zbool. intros [= <-].
  destruct (kill_iter_effect (out_inflight s) s) as (H1 & H2 & H3 & _);
    [lia |].
  change (- ENOENT) with (-2) in H1, H2, H3.
  repeat split; try assumption; lia.
Qed.

Lemma sem_kill_urb (s : usb_rt) :
  slots (usb_kill_urb s) = slots s
  /\ out_inflight (usb_kill_urb s) = out_inflight s
  /\ submitted (usb_kill_urb s) = submitted s
  /\ ongoing_read (usb_kill_urb s) = false.
Proof.
  unfold usb_kill_urb, usb_rt_read_bulk_callback, slots.
  destruct (ongoing_read s) eqn:E; simpl; auto.
Qed.

Lemma slots_draw_down (done : list Z) (s s' : usb_rt) :
  usb_rt_draw_down done s = Some s' -> slots s' = slots s.
Proof.
  unfold usb_rt_draw_down, usb_wait_anchor_empty_timeout.
  pose proof (slots_wait_completions done s) as Hw.
  destruct (Nat.eqb (submitted (usb_wait_completions done s)) 0); simpl.
  - intros H; inversion H; subst.
    destruct (sem_kill_urb (usb_wait_completions done s)) as (-> & _).
    exact Hw.
  - destruct (usb_kill_anchored_urbs (usb_wait_completions done s))
      as [t |] eqn:Ek; [| discriminate].
    intros H; inversion H; subst.
    destruct (sem_kill_urb t) as (-> & _).
    apply slots_kill_anchored in Ek. destruct Ek as (-> & _). exact Hw.
Qed.

Lemma slots_of_tx_view (s s' : usb_rt) :
  tx_view s' = tx_view s -> slots s' = slots s.
Proof.
  unfold tx_view, slots. intros [= -> -> _ _]. reflexivity.
Qed.

Lemma tx_view_do_read_io (s : usb_rt) (count rv : Z) :
  tx_view (snd (usb_rt_do_read_io s count rv)) = tx_view s.
Proof.
  unfold usb_rt_do_read_io, usb_fill_bulk_in.
  destruct (bulk_in_urb s), (rv <? 0); reflexivity.
Qed.

Lemma slots_do_read_io (s : usb_rt) (count rv : Z) :
  slots (snd (usb_rt_do_read_io s count rv)) = slots s.
Proof. apply slots_of_tx_view, tx_view_do_read_io. Qed.

Lemma tx_view_read_giveback status len s s' :
  read_urb_giveback status len s = Some s' -> tx_view s' = tx_view s.
Proof.
  unfold read_urb_giveback, usb_rt_read_bulk_callback. intros H.
  crush; reflexivity.
Qed.

Lemma tx_view_read_buffer count copy_left s events :
  match read_buffer count copy_left s events with
  | Some (Exit _ s') => tx_view s' = tx_view s
  | Some (Retry s' _) => tx_view s' = tx_view s
  | None => True
  end.
Proof.
  assert (Hio :
    match read_start_io count s events with
    | Some (Exit _ s') => tx_view s' = tx_view s
    | Some (Retry s' _) => tx_view s' = tx_view s
    | None => True
    end).
  { unfold read_start_io. destruct events as [| [w | srv] rest]; auto.
    pose proof (tx_view_do_read_io s count srv) as Hs.
    destruct (usb_rt_do_read_io s count srv) as [rv t]. simpl in Hs.
    destruct (rv <? 0); exact Hs. }
  unfold read_buffer.
  destruct (errors s <? 0); [reflexivity |].
  destruct (negb (bulk_in_filled s =? 0)); [| exact Hio].
  destruct (size_sub (bulk_in_filled s) (bulk_in_copied s) =? 0);
    [exact Hio | reflexivity].
Qed.

Lemma Rt_tx_view_read_pass nonblock count copy_left s events :
  match Rt.read_pass nonblock count copy_left s events with
  | Some (Exit _ s') => tx_view s' = tx_view s
  | Some (Retry s' _) => tx_view s' = tx_view s
  | None => True
  end.
Proof.
  unfold Rt.read_pass. destruct (ongoing_read s).
  - destruct nonblock; auto.
    destruct events as [| [[st len | |] | rv] rest]; auto.
    destruct (read_urb_giveback st len s) as [s1 |] eqn:E; auto.
    apply tx_view_read_giveback in E. rewrite <- E.
    apply tx_view_read_buffer.
  - apply tx_view_read_buffer.
Qed.

Lemma Mtr_tx_view_read_pass nonblock count copy_left s events :
  match Mtr.read_pass nonblock count copy_left s events with
  | Some (Exit _ s') => tx_view s' = tx_view s
  | Some (Retry s' _) => tx_view s' = tx_view s
  | None => True
  end.
Proof.
  unfold Mtr.read_pass. destruct (ongoing_read s).
  - destruct nonblock; auto.
    destruct events as [| [[st len | |] | rv] rest]; auto.
    destruct (read_urb_giveback st len s) as [s1 |] eqn:E; auto.
    apply tx_view_read_giveback in E. rewrite <- E.
    apply tx_view_read_buffer.
  - apply tx_view_read_buffer.
Qed.

Lemma tx_view_read_loop one_pass :
  (forall s events,
      match one_pass s events with
      | Some (Exit _ s') => tx_view s' = tx_view s
      | Some (Retry s' _) => tx_view s' = tx_view s
      | None => True
      end) ->
  forall fuel s events rv s',
    read_loop one_pass fuel s events = Some (rv, s') -> tx_view s' = tx_view s.
Proof.
  intros Hpass fuel s events rv s' H.
  refine (read_loop_rule (fun t _ => tx_view t = tx_view s)
            (fun _ t => tx_view t = tx_view s) one_pass _
            fuel s events rv s' eq_refl H).
  intros t ev Ht. specialize (Hpass t ev).
  destruct (one_pass t ev) as [[rv1 t1 | t1 rest] |]; auto; congruence.
Qed.

Lemma Rt_tx_view_read s nonblock count e rv s' :
  Rt.usb_rt_read s nonblock count e = Some (rv, s') -> tx_view s' = tx_view s.
Proof.
  unfold Rt.usb_rt_read.
  destruct (no_bulk_in_urb s || (count =? 0));
    [intros [= _ <-]; reflexivity |].
  unfold mutex_lock_interruptible. destruct (io_mutex s).
  { destruct (r_signal e); [intros [= _ <-]; reflexivity | discriminate]. }
  cbn [Z.ltb Z.compare interface set_io_mutex].
  destruct (interface s); cbn [negb].
  2:{ intros [= _ <-]. reflexivity. }
  destruct (read_loop (Rt.read_pass nonblock count (r_copy_left e))
              (S (length (r_events e))) (set_io_mutex true s) (r_events e))
    as [[rv2 s2] |] eqn:El; [| discriminate].
  intros [= _ <-]. apply tx_view_read_loop in El; [exact El |].
  intros. apply Rt_tx_view_read_pass.
Qed.

Lemma Mtr_tx_view_read s nonblock count e rv s' :
  Mtr.usb_rt_read s nonblock count e = Some (rv, s') -> tx_view s' = tx_view s.
Proof.
  unfold Mtr.usb_rt_read.
  destruct (no_bulk_in_urb s || (count =? 0));
    [intros [= _ <-]; reflexivity |].
  unfold mutex_lock_interruptible. destruct (io_mutex s).
  { destruct (r_signal e); [intros [= _ <-]; reflexivity | discriminate]. }
  cbn [Z.ltb Z.compare disconnected set_io_mutex].
  destruct (disconnected s); cbn [negb].
  1:{ intros [= _ <-]. reflexivity. }
  destruct (read_loop (Mtr.read_pass nonblock count (r_copy_left e))
              (S (length (r_events e))) (set_io_mutex true s) (r_events e))
    as [[rv2 s2] |] eqn:El; [| discriminate].
  intros [= _ <-]. apply tx_view_read_loop in El; [exact El |].
  intros. apply Mtr_tx_view_read_pass.
Qed.

Lemma slots_read_giveback status len s s' :
  read_urb_giveback status len s = Some s' -> slots s' = slots s.
Proof. intros H. eapply slots_of_tx_view, tx_view_read_giveback, H. Qed.

Lemma Rt_slots_read s nonblock count e rv s' :
  Rt.usb_rt_read s nonblock count e = Some (rv, s') -> slots s' = slots s.
Proof. intros H. eapply slots_of_tx_view, Rt_tx_view_read, H. Qed.

Lemma Mtr_slots_read s nonblock count e rv s' :
  Mtr.usb_rt_read s nonblock count e = Some (rv, s') -> slots s' = slots s.
Proof. intros H. eapply slots_of_tx_view, Mtr_tx_view_read, H. Qed.

(** ** Effect of the remaining operations on the two invariants *)

Lemma open_effect rv s :
  rx_view (snd (usb_rt_open rv s)) = rx_view s
  /\ slots (snd (usb_rt_open rv s)) = slots s.
Proof.
  unfold usb_rt_open.
  destruct (negb (minor s)), (negb (intfdata s)), (negb (rv =? 0));
    split; reflexivity.
Qed.

Lemma kref_put_effect s :
  rx_inv s ->
  rx_inv (kref_put usb_rt_delete s)
  /\ slots (kref_put usb_rt_delete s) = slots s.
Proof.
  intros (Hc & Hf & Hs & Hu & Ho). unfold kref_put, usb_rt_delete. simpl.
  destruct (Nat.eqb (Nat.pred (kref s)) 0); split; try reflexivity;
    unfold rx_inv; simpl;
    (split; [lia |]); (split; [lia |]); (split; [lia |]);
    (split; [| exact Ho]); auto; intros; discriminate.
Qed.

Lemma draw_down_effect done s s' :
  rx_inv s -> usb_rt_draw_down done s = Some s' ->
  rx_inv s' /\ slots s' = slots s.
Proof.
  intros Hi H. split.
  - eapply rx_inv_draw_down; eauto.
  - eapply slots_draw_down; eauto.
Qed.

Lemma flush_effect done s r s' :
  rx_inv s -> usb_rt_flush (Some s) done = Some (r, Some s') ->
  rx_inv s' /\ slots s' = slots s.
Proof.
  intros Hi. unfold usb_rt_flush, mutex_lock.
  destruct (io_mutex s); [discriminate |].
  destruct (usb_rt_draw_down done (set_io_mutex true s)) as [s2 |] eqn:E;
    [| discriminate].
  intros [= _ <-]. apply draw_down_effect in E.
  - destruct E as [Hi2 Hs2]. split.
    + eapply rx_inv_view; [| exact Hi2]. reflexivity.
    + transitivity (slots s2); [reflexivity | rewrite Hs2; reflexivity].
  - eapply rx_inv_view; [| exact Hi]. reflexivity.
Qed.

Lemma suspend_effect done s r s' :
  rx_inv s -> usb_rt_suspend done s = Some (r, s') ->
  rx_inv s' /\ slots s' = slots s.
Proof.
  intros Hi. unfold usb_rt_suspend. destruct (negb (intfdata s)).
  - intros [= _ <-]. auto.
  - destruct (usb_rt_draw_down done s) as [s2 |] eqn:E; [| discriminate].
    intros [= _ <-]. eapply draw_down_effect; eauto.
Qed.

Lemma pre_reset_effect done s r s' :
  rx_inv s -> usb_rt_pre_reset done s = Some (r, s') ->
  rx_inv s' /\ slots s' = slots s.
Proof.
  intros Hi. unfold usb_rt_pre_reset, mutex_lock.
  destruct (io_mutex s); [discriminate |].
  destruct (usb_rt_draw_down done (set_io_mutex true s)) as [s2 |] eqn:E;
    [| discriminate].
  intros [= _ <-]. apply draw_down_effect in E.
  - destruct E as [Hi2 Hs2]. split; [exact Hi2 |]. rewrite Hs2. reflexivity.
  - eapply rx_inv_view; [| exact Hi]. reflexivity.
Qed.

Lemma post_reset_effect s :
  rx_view (snd (usb_rt_post_reset s)) = rx_view s
  /\ slots (snd (usb_rt_post_reset s)) = slots s.
Proof. split; reflexivity. Qed.

Lemma Rt_release_effect s r s' :
  rx_inv s -> Rt.usb_rt_release (Some s) = Some (r, Some s') ->
  rx_inv s' /\ slots s' = slots s.
Proof.
  intros Hi. unfold Rt.usb_rt_release, mutex_lock.
  destruct (io_mutex s); [discriminate |]. intros [= _ <-].
  match goal with
  | |- rx_inv (kref_put _ ?t) /\ _ =>
      assert (Ht : rx_inv t /\ slots t = slots s)
  end.
  { destruct (interface s); split;
      try reflexivity; (eapply rx_inv_view; [| exact Hi]; reflexivity). }
  destruct Ht as [Ht1 Ht2]. destruct (kref_put_effect _ Ht1) as [K1 K2].
  split; [exact K1 | congruence].
Qed.

Lemma Mtr_release_effect s r s' :
  rx_inv s -> Mtr.usb_rt_release (Some s) = (r, Some s') ->
  rx_inv s' /\ slots s' = slots s.
Proof.
  intros Hi. unfold Mtr.usb_rt_release. intros [= _ <-].
  assert (Ht : rx_inv (set_pm_usage (pm_usage s - 1) s))
    by (eapply rx_inv_view; [| exact Hi]; reflexivity).
  destruct (kref_put_effect _ Ht) as [K1 K2]. split; [exact K1 |].
  rewrite K2. reflexivity.
Qed.

Lemma Rt_poll_effect rv s :
  rx_inv s ->
  rx_inv (snd (Rt.usb_rt_poll rv s))
  /\ slots (snd (Rt.usb_rt_poll rv s)) = slots s.
Proof.
  intros Hi. unfold Rt.usb_rt_poll. destruct (ongoing_read s); [auto |].
  destruct (negb (size_sub (bulk_in_filled s) (bulk_in_copied s) =? 0));
    [auto |].
  cbn [snd]. split; [| apply slots_do_read_io].
  apply rx_inv_do_read_io; [exact Hi |]. unfold rx_inv in Hi. lia.
Qed.

Lemma Mtr_poll_effect signal rv s r s' :
  rx_inv s -> Mtr.usb_rt_poll signal rv s = Some (r, s') ->
  rx_inv s' /\ slots s' = slots s.
Proof.
  intros Hi. unfold Mtr.usb_rt_poll, mutex_lock_interruptible.
  assert (Hunlock : forall t, rx_view t = rx_view s -> slots t = slots s ->
                              rx_inv (mutex_unlock t)
                              /\ slots (mutex_unlock t) = slots s).
  { intros t Hv Hs. split; [| exact Hs].
    eapply rx_inv_view; [| exact Hi]. rewrite <- Hv. reflexivity. }
  destruct (io_mutex s).
  { destruct signal; [| discriminate]. intros [= _ <-]. auto. }
  cbn [Z.ltb Z.compare disconnected ongoing_read errors bulk_in_filled
       bulk_in_copied bulk_in_size set_io_mutex].
  destruct (disconnected s).
  { intros [= _ <-]. apply Hunlock; reflexivity. }
  destruct (ongoing_read s).
  { intros [= _ <-]. apply Hunlock; reflexivity. }
  destruct (negb (errors s =? 0)).
  { intros [= _ <-]. apply Hunlock; reflexivity. }
  destruct (negb (size_sub (bulk_in_filled s) (bulk_in_copied s) =? 0)).
  { intros [= _ <-]. apply Hunlock; reflexivity. }
  pose proof (rx_inv_do_read_io (set_io_mutex true s) (bulk_in_size s) rv)
    as Hd.
  pose proof (slots_do_read_io (set_io_mutex true s) (bulk_in_size s) rv)
    as Hsl.
  destruct (usb_rt_do_read_io (set_io_mutex true s) (bulk_in_size s) rv)
    as [rv' t]. cbn [snd] in Hd, Hsl.
  assert (Ht : rx_inv (mutex_unlock t) /\ slots (mutex_unlock t) = slots s).
  { split.
    - eapply rx_inv_view; [| apply Hd]; [reflexivity | |].
      + eapply rx_inv_view; [| exact Hi]. reflexivity.
      + simpl. unfold rx_inv in Hi. lia.
    - transitivity (slots t); [reflexivity | rewrite Hsl; reflexivity]. }
  destruct (negb (rv' =? 0)); intros [= _ <-]; exact Ht.
Qed.

Lemma Rt_disconnect_effect s s' :
  rx_inv s -> Rt.usb_rt_disconnect s = Some s' ->
  rx_inv s' /\ slots s' = slots s.
Proof.
  intros Hi. unfold Rt.usb_rt_disconnect, mutex_lock, usb_deregister_dev.
  cbn [io_mutex set_minor set_intfdata].
  destruct (io_mutex s); [discriminate |].
  match goal with
  | |- match usb_kill_anchored_urbs ?t with _ => _ end = _ -> _ =>
      assert (Ht : rx_inv t /\ slots t = slots s)
        by (split; [eapply rx_inv_view; [| exact Hi] |]; reflexivity);
      destruct (usb_kill_anchored_urbs t) as [s5 |] eqn:Ek; [| discriminate]
  end.
  intros [= <-]. destruct Ht as [Ht1 Ht2].
  pose proof (rx_inv_kill_anchored _ _ Ht1 Ek) as H5.
  apply slots_kill_anchored in Ek. destruct Ek as (Hs5 & _).
  destruct (kref_put_effect _ H5) as [K1 K2]. split; [exact K1 | congruence].
Qed.

Lemma Mtr_disconnect_effect s s' :
  rx_inv s -> Mtr.usb_rt_disconnect s = Some s' ->
  rx_inv s' /\ slots s' = slots s.
Proof.
  intros Hi. unfold Mtr.usb_rt_disconnect, mutex_lock, usb_deregister_dev.
  assert (H0 : rx_view (if has_text_api s then set_text_api_attr false s
                        else s) = rx_view s
               /\ slots (if has_text_api s then set_text_api_attr false s
                         else s) = slots s
               /\ io_mutex (if has_text_api s then set_text_api_attr false s
                            else s) = io_mutex s)
    by (destruct (has_text_api s); repeat split; reflexivity).
  destruct H0 as (V0 & S0 & M0).
  set (s0 := if has_text_api s then set_text_api_attr false s else s) in *.
  cbn [io_mutex set_minor set_intfdata]. rewrite M0.
  destruct (io_mutex s); [discriminate |].
  match goal with
  | |- match usb_kill_anchored_urbs (usb_kill_urb ?t) with _ => _ end = _
       -> _ =>
      assert (Ht : rx_inv t /\ slots t = slots s)
        by (split; [eapply rx_inv_view; [| exact Hi]; rewrite <- V0
                   | rewrite <- S0]; reflexivity);
      destruct (usb_kill_anchored_urbs (usb_kill_urb t)) as [s6 |] eqn:Ek;
        [| discriminate]
  end.
  intros [= <-]. destruct Ht as [Ht1 Ht2].
  apply rx_inv_kill_urb in Ht1.
  pose proof (rx_inv_kill_anchored _ _ Ht1 Ek) as H6.
  apply slots_kill_anchored in Ek. destruct Ek as (Hs6 & _).
  destruct (kref_put_effect _ H6) as [K1 K2]. split; [exact K1 |].
  rewrite K2, Hs6.
  match goal with
  | |- slots (usb_kill_urb ?t) = _ =>
      destruct (sem_kill_urb t) as (-> & _)
  end.
  exact Ht2.
Qed.

(** ** Both invariants hold in every reachable session *)

Lemma Rt_reachable_ok PAGE_SIZE s :
  Rt.reachable PAGE_SIZE s -> rx_inv s /\ slots s = Rt.WRITES_IN_FLIGHT.
Proof.
  induction 1 as
    [ maxp Hm
    | s rv _ [Hi Hs]
    | s r s' _ [Hi Hs] Hop
    | s done r s' _ [Hi Hs] Hop
    | s rv _ [Hi Hs]
    | s nonblock count e r s' _ [Hi Hs] Hc Hop
    | s nonblock count e r s' _ [Hi Hs] Hc Hop
    | s status len s' _ [Hi Hs] Hop
    | s status _ [Hi Hs] Hpos
    | s s' _ [Hi Hs] Hop
    | s done r s' _ [Hi Hs] Hop
    | s _ [Hi Hs]
    | s done r s' _ [Hi Hs] Hop
    | s _ [Hi Hs] ].
  - split; [| reflexivity]. unfold rx_inv. simpl.
    repeat split; try lia; try discriminate.
    intros u [= <-]. simpl. lia.
  - destruct (open_effect rv s) as [V S]. split; [| congruence].
    eapply rx_inv_view; eauto.
  - destruct (Rt_release_effect _ _ _ Hi Hop). split; congruence.
  - destruct (flush_effect _ _ _ _ Hi Hop). split; congruence.
  - destruct (Rt_poll_effect rv s Hi). split; congruence.
  - split.
    + eapply Rt_read_result; [exact Hi | | exact Hop]. lia.
    + rewrite (Rt_slots_read _ _ _ _ _ _ Hop). exact Hs.
  - destruct (Rt_write_effect _ _ _ _ _ _ _ Hop) as (V & S & _).
    split; [| congruence]. eapply rx_inv_view; eauto.
  - split; [eapply rx_inv_read_callback; eauto |].
    rewrite (slots_read_giveback _ _ _ _ Hop). exact Hs.
  - split.
    + eapply rx_inv_view; [apply rx_view_write_giveback | exact Hi].
    + destruct (slots_write_giveback status s Hpos) as (-> & _). exact Hs.
  - destruct (Rt_disconnect_effect _ _ Hi Hop). split; congruence.
  - destruct (suspend_effect _ _ _ _ Hi Hop). split; congruence.
  - split; assumption.
  - destruct (pre_reset_effect _ _ _ _ Hi Hop). split; congruence.
  - destruct (post_reset_effect s) as [V S]. split; [| congruence].
    eapply rx_inv_view; eauto.
Qed.

Lemma Mtr_reachable_ok s :
  Mtr.reachable s -> rx_inv s /\ slots s = Mtr.WRITES_IN_FLIGHT.
Proof.
  induction 1 as
    [ maxp_in maxp_out text_api Hm1 Hm2
    | s rv _ [Hi Hs]
    | s r s' _ [Hi Hs] Hop
    | s done r s' _ [Hi Hs] Hop
    | s signal rv r s' _ [Hi Hs] Hop
    | s nonblock count e r s' _ [Hi Hs] Hc Hop
    | s nonblock count e r s' _ [Hi Hs] Hc Hop
    | s status len s' _ [Hi Hs] Hop
    | s status _ [Hi Hs] Hpos
    | s s' _ [Hi Hs] Hop
    | s done r s' _ [Hi Hs] Hop
    | s _ [Hi Hs]
    | s done r s' _ [Hi Hs] Hop
    | s _ [Hi Hs] ].
  - split; [| destruct text_api; reflexivity]. unfold rx_inv.
    destruct text_api; simpl; repeat split; try lia; try discriminate;
      intros u [= <-]; simpl; lia.
  - destruct (open_effect rv s) as [V S]. split; [| congruence].
    eapply rx_inv_view; eauto.
  - destruct (Mtr_release_effect _ _ _ Hi Hop). split; congruence.
  - destruct (flush_effect _ _ _ _ Hi Hop). split; congruence.
  - destruct (Mtr_poll_effect _ _ _ _ _ Hi Hop). split; congruence.
  - split.
    + eapply Mtr_read_result; [exact Hi | | exact Hop]. lia.
    + rewrite (Mtr_slots_read _ _ _ _ _ _ Hop). exact Hs.
  - destruct (Mtr_write_effect _ _ _ _ _ _ Hop) as (V & S & _).
    split; [| congruence]. eapply rx_inv_view; eauto.
  - split; [eapply rx_inv_read_callback; eauto |].
    rewrite (slots_read_giveback _ _ _ _ Hop). exact Hs.
  - split.
    + eapply rx_inv_view; [apply rx_view_write_giveback | exact Hi].
    + destruct (slots_write_giveback status s Hpos) as (-> & _). exact Hs.
  - destruct (Mtr_disconnect_effect _ _ Hi Hop). split; congruence.
  - destruct (suspend_effect _ _ _ _ Hi Hop). split; congruence.
  - split; assumption.
  - destruct (pre_reset_effect _ _ _ _ Hi Hop). split; congruence.
  - destruct (post_reset_effect s) as [V S]. split; [| congruence].
    eapply rx_inv_view; eauto.
Qed.

Lemma reachable_in_ok v PAGE_SIZE s :
  reachable_in v PAGE_SIZE s -> rx_inv s /\ slots s = writes_in_flight v.
Proof.
  destruct v; simpl; [apply Rt_reachable_ok | apply Mtr_reachable_ok].
Qed.

Lemma read_in_result v s nonblock count e rv s' :
  rx_inv s -> 0 <= count ->
  read_in v s nonblock count e = Some (rv, s') ->
  rx_inv s'
  /\ (0 <= rv -> rv <= count /\ 0 <= bulk_in_copied s' - rv
               /\ rv <= bulk_in_filled s' - (bulk_in_copied s' - rv))
  /\ (0 <= rv -> no_bulk_in_urb s = false ->
      rv = Z.min (bulk_in_filled s' - (bulk_in_copied s' - rv)) count).
Proof.
  destruct v; simpl; [apply Rt_read_result | apply Mtr_read_result].
Qed.


Lemma session_with_data_reachable :
  reachable_in Generic 4096 session_with_data.
Proof.
  change (Rt.reachable 4096 session_with_data).
  apply (Rt.r_read_done 4096
           (snd (Rt.usb_rt_poll 0 (Rt.usb_rt_probe 64))) 0 32).
  - apply Rt.r_poll. apply (Rt.r_probe 4096 64).
    split; [discriminate | reflexivity].
  - vm_compute. reflexivity.
Defined.

(** ** A [poll] inside a [read] *)

(** The two parts of [usb_rt_poll], one right after the other, are the
    [poll] that runs as a whole. *)
Lemma poll_in_two_parts rv s :
  Rt.usb_rt_poll rv s
  = if RtOverlap.poll_test s then RtOverlap.poll_start rv s
    else (fst (Rt.usb_rt_poll rv s), s).
Proof.
  unfold Rt.usb_rt_poll, RtOverlap.poll_test, RtOverlap.poll_start.
  destruct (ongoing_read s); [reflexivity |].
  destruct (negb (size_sub (bulk_in_filled s) (bulk_in_copied s) =? 0));
    reflexivity.
Qed.

Lemma read_buffer_in_two_parts count copy_left s events :
  read_buffer count copy_left s events
  = match RtOverlap.read_buffer_to_copy count s events with
    | Some (RtOverlap.Copy chunk s') =>
        Some (Exit (if negb (copy_left =? 0) then - EFAULT else to_int chunk)
                (set_bulk_in_copied (size_add (bulk_in_copied s') chunk) s'))
    | Some (RtOverlap.Leave rv s') => Some (Exit rv s')
    | Some (RtOverlap.Again s' rest) => Some (Retry s' rest)
    | None => None
    end.
Proof.
  unfold read_buffer, RtOverlap.read_buffer_to_copy,
    RtOverlap.start_io_to_copy.
  destruct (errors s <? 0); [reflexivity |].
  destruct (negb (bulk_in_filled s =? 0)).
  - destruct (size_sub (bulk_in_filled s) (bulk_in_copied s) =? 0);
      [| reflexivity].
    destruct (read_start_io count s events) as [[rv s' | s' rest] |];
      reflexivity.
  - destruct (read_start_io count s events) as [[rv s' | s' rest] |];
      reflexivity.
Qed.

Lemma read_pass_in_two_parts nonblock count copy_left s events :
  Rt.read_pass nonblock count copy_left s events
  = match RtOverlap.read_pass_to_copy nonblock count s events with
    | Some (RtOverlap.Copy chunk s') =>
        Some (Exit (if negb (copy_left =? 0) then - EFAULT else to_int chunk)
                (set_bulk_in_copied (size_add (bulk_in_copied s') chunk) s'))
    | Some (RtOverlap.Leave rv s') => Some (Exit rv s')
    | Some (RtOverlap.Again s' rest) => Some (Retry s' rest)
    | None => None
    end.
Proof.
  unfold Rt.read_pass, RtOverlap.read_pass_to_copy.
  destruct (ongoing_read s).
  - destruct nonblock; [reflexivity |].
    destruct events as [| [[st len | |] | rv] rest]; try reflexivity.
    destruct (read_urb_giveback st len s) as [s1 |]; [| reflexivity].
    apply read_buffer_in_two_parts.
  - apply read_buffer_in_two_parts.
Qed.

Lemma read_loop_in_two_parts nonblock count copy_left fuel s events :
  read_loop (Rt.read_pass nonblock count copy_left) fuel s events
  = match RtOverlap.read_loop_to_copy nonblock count fuel s events with
    | Some (RtOverlap.At_copy chunk s') =>
        Some ((if negb (copy_left =? 0) then - EFAULT else to_int chunk),
              set_bulk_in_copied (size_add (bulk_in_copied s') chunk) s')
    | Some (RtOverlap.Returned rv s') => Some (rv, s')
    | None => None
    end.
Proof.
  revert s events. induction fuel as [| fuel IH]; intros s events;
    [reflexivity |].
  cbn [read_loop RtOverlap.read_loop_to_copy].
  rewrite read_pass_in_two_parts.
  destruct (RtOverlap.read_pass_to_copy nonblock count s events)
    as [[chunk s' | rv s' | s' rest] |]; try reflexivity.
  apply IH.
Qed.

(** Cut at the copy and resumed at once, [read] is the [read] that runs
    as a whole. *)
Lemma read_in_two_parts s nonblock count e :
  Rt.usb_rt_read s nonblock count e
  = match RtOverlap.read_to_copy s nonblock count e with
    | Some (RtOverlap.At_copy chunk s1) =>
        Some (RtOverlap.read_from_copy (r_copy_left e) chunk s1)
    | Some (RtOverlap.Returned rv s') => Some (rv, s')
    | None => None
    end.
Proof.
  unfold Rt.usb_rt_read, RtOverlap.read_to_copy, RtOverlap.read_from_copy.
  destruct (no_bulk_in_urb s || (count =? 0)); [reflexivity |].
  destruct (mutex_lock_interruptible (r_signal e) s) as [[rv s1] |];
    [| reflexivity].
  destruct (rv <? 0); [reflexivity |].
  destruct (negb (interface s1)); [reflexivity |].
  rewrite read_loop_in_two_parts.
  destruct (RtOverlap.read_loop_to_copy nonblock count
              (S (length (r_events e))) s1 (r_events e))
    as [[chunk s2 | rv' s2] |]; reflexivity.
Qed.

Lemma read_giveback_idle status len s s' :
  read_urb_giveback status len s = Some s' ->
  io_mutex s' = io_mutex s /\ ongoing_read s' = false.
Proof.
  unfold read_urb_giveback, usb_rt_read_bulk_callback. intros H.
  crush; auto.
Qed.

Lemma read_buffer_to_copy_spec count s events :
  ongoing_read s = false ->
  match RtOverlap.read_buffer_to_copy count s events with
  | Some (RtOverlap.Copy chunk s') => s' = s /\ at_copy count chunk s
  | Some (RtOverlap.Leave _ s') => io_mutex s' = io_mutex s
  | Some (RtOverlap.Again s' _) => io_mutex s' = io_mutex s
  | None => True
  end.
Proof.
  intros Ho.
  assert (Hio :
    match RtOverlap.start_io_to_copy count s events with
    | Some (RtOverlap.Copy chunk s') => s' = s /\ at_copy count chunk s
    | Some (RtOverlap.Leave _ s') => io_mutex s' = io_mutex s
    | Some (RtOverlap.Again s' _) => io_mutex s' = io_mutex s
    | None => True
    end).
  { unfold RtOverlap.start_io_to_copy, read_start_io.
    destruct events as [| [w | srv] rest]; auto.
    destruct (do_read_io_fields s count srv)
      as (_ & _ & _ & _ & _ & _ & _ & _ & Hs).
    destruct (usb_rt_do_read_io s count srv) as [rv t]. simpl in Hs.
    destruct (rv <? 0); exact Hs. }
  unfold RtOverlap.read_buffer_to_copy.
  destruct (errors s <? 0) eqn:Ee; [reflexivity |].
  destruct (bulk_in_filled s =? 0) eqn:Ef; [exact Hio |]. cbn [negb].
  destruct (size_sub (bulk_in_filled s) (bulk_in_copied s) =? 0) eqn:Ea;
    [exact Hio |].
  zbool. unfold at_copy, unread. repeat split; auto.
Qed.

Lemma read_pass_to_copy_spec nonblock count s events :
  match RtOverlap.read_pass_to_copy nonblock count s events with
  | Some (RtOverlap.Copy chunk s') =>
      io_mutex s' = io_mutex s /\ at_copy count chunk s'
  | Some (RtOverlap.Leave _ s') => io_mutex s' = io_mutex s
  | Some (RtOverlap.Again s' _) => io_mutex s' = io_mutex s
  | None => True
  end.
Proof.
  unfold RtOverlap.read_pass_to_copy.
  destruct (ongoing_read s) eqn:Eo.
  - destruct nonblock; auto.
    destruct events as [| [[st len | |] | rv] rest]; auto.
    destruct (read_urb_giveback st len s) as [s1 |] eqn:E; auto.
    destruct (read_giveback_idle _ _ _ _ E) as (Hm & Ho1).
    pose proof (read_buffer_to_copy_spec count s1 rest Ho1) as H.
    destruct (RtOverlap.read_buffer_to_copy count s1 rest)
      as [[chunk s' | rv s' | s' ev] |]; auto; try congruence.
    destruct H as (-> & H). auto.
  - pose proof (read_buffer_to_copy_spec count s events Eo) as H.
    destruct (RtOverlap.read_buffer_to_copy count s events)
      as [[chunk s' | rv s' | s' ev] |]; auto.
    destruct H as (-> & H). auto.
Qed.

Lemma read_loop_to_copy_spec nonblock count fuel s events chunk s' :
  RtOverlap.read_loop_to_copy nonblock count fuel s events
  = Some (RtOverlap.At_copy chunk s') ->
  io_mutex s' = io_mutex s /\ at_copy count chunk s'.
Proof.
  revert s events. induction fuel as [| fuel IH]; intros s events;
    [discriminate |].
  cbn [RtOverlap.read_loop_to_copy].
  pose proof (read_pass_to_copy_spec nonblock count s events) as H.
  destruct (RtOverlap.read_pass_to_copy nonblock count s events)
    as [[c t | rv t | t rest] |]; try discriminate.
  - intros [= <- <-]. exact H.
  - intros Hl. apply IH in Hl. destruct Hl as (Hm & Ha).
    split; [congruence | exact Ha].
Qed.

(** A [read] that stands at its copy took the lock and holds it, found no
    receive outstanding and no error pending, and computed [chunk] from
    the unread bytes it saw. *)
Lemma read_to_copy_spec s nonblock count e chunk s1 :
  RtOverlap.read_to_copy s nonblock count e
  = Some (RtOverlap.At_copy chunk s1) ->
  io_mutex s = false /\ io_mutex s1 = true /\ count <> 0
  /\ at_copy count chunk s1.
Proof.
  unfold RtOverlap.read_to_copy.
  destruct (no_bulk_in_urb s || (count =? 0)) eqn:E0; [discriminate |].
  apply orb_false_iff in E0. destruct E0 as (_ & Ec). zbool.
  unfold mutex_lock_interruptible.
  destruct (io_mutex s) eqn:Em;
    [destruct (r_signal e); discriminate |].
  cbn [Z.ltb Z.compare interface set_io_mutex].
  destruct (interface s) eqn:Ei; cbn [negb]; [| discriminate].
  destruct (RtOverlap.read_loop_to_copy nonblock count
              (S (length (r_events e))) (set_io_mutex true s) (r_events e))
    as [[c s2 | rv' s2] |] eqn:El; try discriminate.
  intros [= <- <-]. apply read_loop_to_copy_spec in El.
  destruct El as (Hm & Ha). simpl in Hm. auto.
Qed.

(** C2, evaluated on the code.  [usb_rt_poll] of the generic variant
    takes no lock.  When a [poll] that passed its test (no receive
    outstanding, nothing unread) calls [usb_rt_do_read_io] while a [read]
    holds the lock and stands at its copy, [filled] and [copied] are reset
    under that [read], which then advances [copied] by the chunk it
    computed before: the session is left with [copied = chunk], which is
    more than 0, and [filled = 0].  [usb_rt_poll] of the motor variant
    cannot run there: it waits for the lock the [read] holds, and in the
    motor variant [copied <= filled] holds in every reachable session.

    The run from the attached session with one handle open: [poll] passes
    its test; a [read] of 8 bytes starts the receive, is given 8 bytes and
    stands at its copy; [poll] starts its receive; the [read] returns 8
    and leaves [copied = 8] with [filled = 0], a session that no run of
    whole calls produces; the receive completes with 4 bytes; a [read] of
    100 bytes then returns 100. *)
Theorem poll_inside_read_breaks_bookkeeping :
  (forall s nonblock count e chunk s1 submit_rv copy_left,
      0 <= count ->
      RtOverlap.read_to_copy s nonblock count e
      = Some (RtOverlap.At_copy chunk s1) ->
      let s2 := snd (RtOverlap.poll_start submit_rv s1) in
      let s3 := snd (RtOverlap.read_from_copy copy_left chunk s2) in
      io_mutex s1 = true
      /\ chunk = Z.min (unread s1) count /\ 0 < chunk
      /\ bulk_in_filled s3 = 0 /\ bulk_in_copied s3 = chunk
      /\ io_mutex s3 = false
      /\ (forall signal,
             Mtr.usb_rt_poll signal submit_rv s1
             = if signal then Some (to_uint (- EINTR), s1) else None))
  /\ (forall s,
         Mtr.reachable s -> 0 <= bulk_in_copied s <= bulk_in_filled s)
  /\ RtOverlap.poll_test (session_open Generic) = true
  /\ exists s1 s3 s4 s5,
      RtOverlap.read_to_copy (session_open Generic) false 8 env_receive_8
      = Some (RtOverlap.At_copy 8 s1)
      /\ RtOverlap.read_from_copy 0 8 (snd (RtOverlap.poll_start 0 s1))
         = (8, s3)
      /\ bulk_in_filled s3 = 0 /\ bulk_in_copied s3 = 8
      /\ (forall PAGE_SIZE, ~ Rt.reachable PAGE_SIZE s3)
      /\ read_urb_giveback 0 4 s3 = Some s4
      /\ bulk_in_filled s4 = 4 /\ bulk_in_copied s4 = 8
      /\ Rt.usb_rt_read s4 false 100 env_copy_ok = Some (100, s5)
      /\ bulk_in_filled s5 = 4 /\ bulk_in_copied s5 = 108.
Proof.
  split; [| split; [| split]].
  - intros s nonblock count e chunk s1 submit_rv copy_left Hc Hr s2 s3.
    apply read_to_copy_spec in Hr.
    destruct Hr as (_ & Hm & Hn & _ & _ & _ & Ha & Hk).
    assert (Hu : 0 <= unread s1 < SIZE_MODULUS)
      by (apply Z.mod_pos_bound; reflexivity).
    destruct (do_read_io_fields s1 (bulk_in_size s1) submit_rv)
      as (Hf & Hp & _ & _ & _ & _ & _ & _ & Hl).
    split; [exact Hm |]. split; [exact Hk |]. split; [lia |].
    subst s3 s2. unfold RtOverlap.read_from_copy, RtOverlap.poll_start.
    cbn [snd mutex_unlock set_io_mutex set_bulk_in_copied bulk_in_filled
         bulk_in_copied io_mutex].
    rewrite Hf, Hp. split; [reflexivity |]. split.
    + unfold size_add. rewrite Z.add_0_l. apply Z.mod_small. lia.
    + split; [reflexivity |].
      intros signal. unfold Mtr.usb_rt_poll, mutex_lock_interruptible.
      rewrite Hm. destruct signal; reflexivity.
  - intros s Hr. apply Mtr_reachable_ok in Hr. destruct Hr as (Hi & _).
    apply Hi.
  - vm_compute. reflexivity.
  - do 4 eexists.
    split; [vm_compute; reflexivity |].
    split; [vm_compute; reflexivity |].
    split; [reflexivity |]. split; [reflexivity |].
    split.
    { intros PAGE_SIZE Hr. apply Rt_reachable_ok in Hr.
      destruct Hr as ((Hc & _) & _). simpl in Hc. lia. }
    split; [vm_compute; reflexivity |].
    split; [reflexivity |]. split; [reflexivity |].
    split; [vm_compute; reflexivity |].
    split; reflexivity.
Qed.

Lemma poll_inside_read_breaks_bookkeeping_witness :
  exists s1,
    RtOverlap.read_to_copy (session_open Generic) false 8 env_receive_8
    = Some (RtOverlap.At_copy 8 s1)
    /\ bulk_in_filled
         (snd (RtOverlap.read_from_copy 0 8
                 (snd (RtOverlap.poll_start 0 s1)))) = 0
    /\ bulk_in_copied
         (snd (RtOverlap.read_from_copy 0 8
                 (snd (RtOverlap.poll_start 0 s1)))) = 8
    /\ Mtr.usb_rt_poll false 0 s1 = None.
Proof.
  destruct poll_inside_read_breaks_bookkeeping as (Hg & _ & _).
  eexists. split; [vm_compute; reflexivity |].
  match goal with
  | |- context [RtOverlap.poll_start 0 ?t] =>
      destruct (Hg (session_open Generic) false 8 env_receive_8 8 t 0 0)
        as (_ & _ & _ & Hf & Hc & _ & Hp);
        [lia | vm_compute; reflexivity |]
  end.
  split; [exact Hf |]. split; [exact Hc |]. exact (Hp false).
Defined.

(** ** The send path *)

Lemma write_in_effect v PAGE_SIZE s nonblock count e r s' :
  write_in v PAGE_SIZE s nonblock count e = Some (r, s') ->
  rx_view s' = rx_view s /\ slots s' = slots s
  /\ ((out_inflight s' = out_inflight s /\ limit_sem s' = limit_sem s)
      \/ (out_inflight s' = S (out_inflight s)
          /\ limit_sem s' = limit_sem s - 1
          /\ r = to_ssize (Z.min count (max_transfer v PAGE_SIZE s)))).
Proof.
  destruct v; simpl; [apply Rt_write_effect | apply Mtr_write_effect].
Qed.

(** The session a successful [write] leaves: one slot taken, one more
    transfer on the anchor and in flight. *)
Lemma write_in_success v PAGE_SIZE s nonblock count e :
  0 < count -> 0 < limit_sem s -> 0 <= errors s ->
  w_urb e = true -> w_buf e = true -> w_copy_left e = 0 ->
  io_mutex s = false -> torn_down v s = false -> w_submit e = 0 ->
  write_in v PAGE_SIZE s nonblock count e =
    Some (to_ssize (Z.min count (max_transfer v PAGE_SIZE s)),
          set_out_inflight (S (out_inflight s))
            (set_submitted (S (submitted s))
               (set_limit_sem (limit_sem s - 1) s))).
Proof.
  intros Hn Hsem He Hu Hb Hc Hm Ht Hs.
  assert (Hcount : (count =? 0) = false) by (apply Z.eqb_neq; lia).
  assert (Hsem' : (0 <? limit_sem s) = true) by (apply Z.ltb_lt; lia).
  assert (He' : (errors s <? 0) = false) by (apply Z.ltb_ge; lia).
  destruct v; simpl in Ht |- *;
    [unfold Rt.usb_rt_write | unfold Mtr.usb_rt_write];
    unfold down_interruptible, down_trylock, mutex_lock, usb_submit_out,
      usb_anchor_urb, mutex_unlock;
    rewrite Hcount, Hsem'; try (apply negb_false_iff in Ht);
    destruct nonblock; simpl;
    repeat (progress (rewrite ?He', ?Hu, ?Hb, ?Hc, ?Hm, ?Ht, ?Hs; simpl));
    f_equal; f_equal; destruct s; simpl in *; subst; reflexivity.
Qed.

(** A [write] that took a slot and then fails gives the slot back before
    it returns. *)
Lemma write_in_failure v PAGE_SIZE s nonblock count e :
  0 < count -> 0 < limit_sem s -> io_mutex s = false ->
  errors s < 0 \/ w_copy_left e <> 0 \/ torn_down v s = true
  \/ w_submit e <> 0 ->
  exists r s',
    write_in v PAGE_SIZE s nonblock count e = Some (r, s')
    /\ limit_sem s' = limit_sem s /\ out_inflight s' = out_inflight s.
Proof.
  intros Hn Hsem Hm Hcause.
  assert (Hcount : (count =? 0) = false) by (apply Z.eqb_neq; lia).
  assert (Hsem' : (0 <? limit_sem s) = true) by (apply Z.ltb_lt; lia).
  destruct v; simpl in Hcause |- *; rewrite ?negb_true_iff in Hcause;
    [unfold Rt.usb_rt_write, Rt.write_error
    | unfold Mtr.usb_rt_write, Mtr.write_error];
    unfold down_interruptible, down_trylock, mutex_lock, usb_submit_out,
      usb_anchor_urb, usb_unanchor_urb, mutex_unlock, up;
    rewrite Hcount, Hsem'; destruct nonblock; simpl; rewrite ?Hm; simpl;
    repeat split_goal_if; simpl; zbool;
    try (exfalso;
         repeat match goal with
           | H : _ \/ _ |- _ => destruct H
           | H : context [if ?b then _ else _] |- _ => destruct b
           end; simpl in *; try lia; congruence);
    do 2 eexists; (split; [reflexivity |]); simpl; split; lia.
Qed.

(** With a non-empty request, a [write] that submits nothing returns a
    negative value (the core answers a refused submission with a negative
    error number). *)
Lemma write_in_not_submitted v PAGE_SIZE s nonblock count e r s' :
  write_in v PAGE_SIZE s nonblock count e = Some (r, s') ->
  count <> 0 -> w_submit e <= 0 ->
  out_inflight s' = out_inflight s -> r < 0.
Proof.
  destruct v; simpl;
    [unfold Rt.usb_rt_write, Rt.write_error
    | unfold Mtr.usb_rt_write, Mtr.write_error];
    unfold_kernel; intros H Hn Hs Hsame; crush; zbool; simpl in *; lia.
Qed.

(** C1: the completion handler of a send gives one admission slot back
    whatever the status; a [write] either submits nothing and leaves the
    count of free slots as it found it (the slot it took, if any, was given
    back once), or submits one transfer and keeps one slot, which the
    completion of that transfer gives back; a [write] that took a slot and
    meets a pending error, a copy fault, a torn-down session or a refused
    submission returns with the free slots as they were; in every reachable
    session the free slots and the sends in flight add up to the capacity
    of the semaphore. *)
Theorem admission_slot_released_once (v : variant) (PAGE_SIZE : Z)
  (s : usb_rt) :
  (forall status,
      limit_sem (usb_rt_write_bulk_callback s status) = limit_sem s + 1)
  /\ (forall nonblock count e r s',
      write_in v PAGE_SIZE s nonblock count e = Some (r, s') ->
      (out_inflight s' = out_inflight s /\ limit_sem s' = limit_sem s)
      \/ (out_inflight s' = S (out_inflight s)
          /\ limit_sem s' = limit_sem s - 1
          /\ forall status,
              limit_sem (write_urb_giveback status s') = limit_sem s
              /\ out_inflight (write_urb_giveback status s')
                 = out_inflight s))
  /\ (forall nonblock count e,
      0 < count -> 0 < limit_sem s -> io_mutex s = false ->
      errors s < 0 \/ w_copy_left e <> 0 \/ torn_down v s = true
      \/ w_submit e <> 0 ->
      exists r s',
        write_in v PAGE_SIZE s nonblock count e = Some (r, s')
        /\ limit_sem s' = limit_sem s /\ out_inflight s' = out_inflight s)
  /\ (reachable_in v PAGE_SIZE s ->
      limit_sem s + Z.of_nat (out_inflight s) = writes_in_flight v).
Proof.
  split; [| split; [| split]].
  - intros status. unfold usb_rt_write_bulk_callback, up.
    destruct (negb (status =? 0)); reflexivity.
  - intros nonblock count e r s' H.
    destruct (write_in_effect _ _ _ _ _ _ _ _ H)
      as (_ & _ & [Hsame | (Hin & Hsem & _)]); [left; exact Hsame |].
    right. repeat split; try assumption.
    + destruct (slots_write_giveback status s') as (_ & _ & ->); lia.
    + destruct (slots_write_giveback status s') as (_ & -> & _); lia.
  - intros. apply write_in_failure; assumption.
  - intros Hreach. apply (reachable_in_ok _ _ _ Hreach).
Qed.

(** C4: a [write] of [count > 0] bytes that succeeds returns
    [min count max], where [max] is the bound of the variant on one
    transfer ([MAX_TRANSFER], or the [bulk_out_size] of the session), and
    not [count]; with a bound of 64 a [write] of 100 bytes returns 64. *)
Theorem write_returns_truncated_length (v : variant) (PAGE_SIZE : Z)
  (s : usb_rt) (nonblock : bool) (count : Z) (e : write_env) :
  0 < count < SIZE_MODULUS ->
  0 <= max_transfer v PAGE_SIZE s < 2 ^ 63 ->
  (0 < limit_sem s -> 0 <= errors s ->
   w_urb e = true -> w_buf e = true -> w_copy_left e = 0 ->
   io_mutex s = false -> torn_down v s = false -> w_submit e = 0 ->
   exists s',
     write_in v PAGE_SIZE s nonblock count e
       = Some (Z.min count (max_transfer v PAGE_SIZE s), s')
     /\ out_inflight s' = S (out_inflight s))
  /\ (forall r s',
      write_in v PAGE_SIZE s nonblock count e = Some (r, s') ->
      out_inflight s' = S (out_inflight s) \/ (0 <= r /\ w_submit e <= 0) ->
      r = Z.min count (max_transfer v PAGE_SIZE s))
  /\ (forall r s',
      max_transfer v PAGE_SIZE s = 64 -> count = 100 ->
      write_in v PAGE_SIZE s nonblock count e = Some (r, s') ->
      0 <= r -> w_submit e <= 0 -> r = 64).
Proof.
  intros Hcount Hmax.
  assert (Hssize : to_ssize (Z.min count (max_transfer v PAGE_SIZE s))
                   = Z.min count (max_transfer v PAGE_SIZE s))
    by (apply to_ssize_small; lia).
  assert (Hmain : forall r s',
      write_in v PAGE_SIZE s nonblock count e = Some (r, s') ->
      out_inflight s' = S (out_inflight s) \/ (0 <= r /\ w_submit e <= 0) ->
      r = Z.min count (max_transfer v PAGE_SIZE s)).
  { intros r s' H Hok.
    destruct (write_in_effect _ _ _ _ _ _ _ _ H)
      as (_ & _ & [(Hsame & _) | (_ & _ & Hr)]).
    - destruct Hok as [Hin | [Hr Hs]]; [lia |].
      assert (r < 0)
        by (eapply write_in_not_submitted; eauto; lia).
      lia.
    - rewrite Hr. exact Hssize. }
  split; [| split].
  - intros. eexists. rewrite write_in_success by (auto; lia).
    rewrite Hssize. split; reflexivity.
  - exact Hmain.
  - intros r s' H64 H100 H Hr Hs.
    rewrite (Hmain r s' H) by (right; split; assumption).
    rewrite H64, H100. reflexivity.
Qed.

Lemma admission_slot_released_once_witness :
  limit_sem session_with_data + Z.of_nat (out_inflight session_with_data)
  = Rt.WRITES_IN_FLIGHT
  /\ exists r s',
      write_in Generic 4096 session_with_data false 16 env_write_fault
      = Some (r, s')
      /\ limit_sem s' = limit_sem session_with_data
      /\ out_inflight s' = out_inflight session_with_data.
Proof.
  destruct (admission_slot_released_once Generic 4096 session_with_data)
    as (_ & _ & Hfail & Hinv).
  split.
  - exact (Hinv session_with_data_reachable).
  - apply Hfail; try reflexivity. right. left. discriminate.
Defined.

Lemma write_returns_truncated_length_witness :
  exists s',
    write_in Motor 4096 session_motor_64 false 100 env_write_ok
    = Some (64, s')
    /\ out_inflight s' = S (out_inflight session_motor_64).
Proof.
  assert (Hcount : 0 < 100 < SIZE_MODULUS) by (split; reflexivity).
  assert (Hmax : 0 <= max_transfer Motor 4096 session_motor_64 < 2 ^ 63)
    by (split; [discriminate | reflexivity]).
  destruct (write_returns_truncated_length Motor 4096 session_motor_64
              false 100 env_write_ok Hcount Hmax) as (Hok & _).
  apply Hok; try reflexivity; discriminate.
Defined.

(** ** The error slot *)

Lemma read_buffer_surfaces count copy_left s events :
  errors s < 0 ->
  read_buffer count copy_left s events
    = Some (Exit (surfaced (errors s)) (set_errors 0 s)).
Proof.
  intros He. unfold read_buffer, surfaced.
  apply Z.ltb_lt in He. rewrite He.
  destruct (errors s =? - EPIPE) eqn:E; [| reflexivity].
  apply Z.eqb_eq in E. rewrite E. reflexivity.
Qed.

Lemma read_in_enters v s nonblock count e :
  no_bulk_in_urb s = false -> 0 < count -> io_mutex s = false ->
  torn_down v s = false ->
  exists one_pass,
    (forall t events,
        ongoing_read t = false ->
        one_pass t events = read_buffer count (r_copy_left e) t events)
    /\ read_in v s nonblock count e =
       match read_loop one_pass (S (length (r_events e)))
               (set_io_mutex true s) (r_events e) with
       | Some (rv, s2) => Some (rv, mutex_unlock s2)
       | None => None
       end.
Proof.
  intros Hu Hn Hm Ht. destruct v; simpl in Ht |- *.
  - apply negb_false_iff in Ht.
    exists (Rt.read_pass nonblock count (r_copy_left e)). split.
    + intros. apply Rt_pass_idle. assumption.
    + apply Rt_read_enters; assumption.
  - exists (Mtr.read_pass nonblock count (r_copy_left e)). split.
    + intros. apply Mtr_pass_idle. assumption.
    + apply Mtr_read_enters; assumption.
Qed.

Lemma read_in_surfaces v s nonblock count e :
  no_bulk_in_urb s = false -> 0 < count -> io_mutex s = false ->
  torn_down v s = false -> ongoing_read s = false -> errors s < 0 ->
  read_in v s nonblock count e
    = Some (surfaced (errors s), set_errors 0 s).
Proof.
  intros Hu Hn Hm Ht Ho He.
  destruct (read_in_enters v s nonblock count e Hu Hn Hm Ht)
    as (one_pass & Hidle & ->).
  rewrite read_loop_step, Hidle by exact Ho.
  rewrite read_buffer_surfaces by exact He.
  f_equal. f_equal. destruct s; simpl in *; subst; reflexivity.
Qed.

Lemma write_in_surfaces v PAGE_SIZE s nonblock count e :
  0 < count -> 0 < limit_sem s -> errors s < 0 ->
  write_in v PAGE_SIZE s nonblock count e
    = Some (surfaced (errors s), set_errors 0 s).
Proof.
  intros Hn Hsem He.
  assert (Hcount : (count =? 0) = false) by (apply Z.eqb_neq; lia).
  assert (Hsem' : (0 <? limit_sem s) = true) by (apply Z.ltb_lt; lia).
  assert (He' : (errors s <? 0) = true) by (apply Z.ltb_lt; lia).
  assert (Hcode : (if errors s =? - EPIPE then errors s else - EIO)
                  = surfaced (errors s)).
  { unfold surfaced. destruct (errors s =? - EPIPE) eqn:E; [| reflexivity].
    apply Z.eqb_eq in E. exact E. }
  assert (Hsurf : (surfaced (errors s) <? 0) = true).
  { apply Z.ltb_lt. unfold surfaced.
    destruct (errors s =? - EPIPE); reflexivity. }
  assert (Hback : up (set_errors 0 (set_limit_sem (limit_sem s - 1) s))
                  = set_errors 0 s).
  { unfold up. destruct s. unfold_setters. simpl. f_equal. lia. }
  destruct v; simpl;
    [unfold Rt.usb_rt_write, Rt.write_error
    | unfold Mtr.usb_rt_write, Mtr.write_error];
    unfold down_interruptible, down_trylock;
    rewrite Hcount, Hsem'; destruct nonblock;
    cbn [negb Z.eqb fst snd errors set_limit_sem]; rewrite He', Hcode, Hsurf,
      Hback; reflexivity.
Qed.

Lemma read_giveback_quiet len s s' :
  read_urb_giveback 0 len s = Some s' -> errors s' = errors s.
Proof.
  unfold read_urb_giveback, usb_rt_read_bulk_callback. intros H.
  crush; reflexivity.
Qed.

Lemma read_buffer_quiet count copy_left s events :
  rx_inv s -> 0 < count -> 0 <= errors s -> quiet events ->
  match read_buffer count copy_left s events with
  | Some (Exit rv s') => rv <> - EPIPE /\ rv <> - EIO
  | Some (Retry s' rest) => rx_inv s' /\ 0 <= errors s' /\ quiet rest
  | None => True
  end.
Proof.
  intros Hi Hn He Hq.
  pose proof (read_buffer_cases count copy_left s events Hi Hn) as H.
  destruct (read_buffer count copy_left s events) as [[rv s' | s' rest] |];
    auto.
  - destruct H as [(Hneg & _) | [(_ & _ & srv & rest & Hev & Hsrv & _)
                                | (_ & Hlt & Hrv & _)]].
    + lia.
    + subst events. inversion Hq as [| ? ? Hq1 _]. simpl in Hq1. lia.
    + subst rv. unfold EFAULT, EPIPE, EIO.
      destruct (negb (copy_left =? 0)); lia.
  - destruct H as (_ & _ & srv & Hev & _ & Hs). subst events s'.
    inversion Hq as [| ? ? _ Hq2]. split; [| split].
    + apply rx_inv_do_read_io; [exact Hi | lia].
    + destruct (do_read_io_fields s count srv) as (_ & _ & -> & _).
      exact He.
    + exact Hq2.
Qed.

Lemma read_pass_quiet v nonblock count copy_left s events :
  rx_inv s -> 0 < count -> 0 <= errors s -> quiet events ->
  match
    match v with
    | Generic => Rt.read_pass nonblock count copy_left s events
    | Motor => Mtr.read_pass nonblock count copy_left s events
    end
  with
  | Some (Exit rv s') => rv <> - EPIPE /\ rv <> - EIO
  | Some (Retry s' rest) => rx_inv s' /\ 0 <= errors s' /\ quiet rest
  | None => True
  end.
Proof.
  intros Hi Hn He Hq.
  assert (Hdone : forall st len rest,
    events = Wait (Completed st len) :: rest ->
    match read_urb_giveback st len s with
    | Some s1 =>
        match read_buffer count copy_left s1 rest with
        | Some (Exit rv s') => rv <> - EPIPE /\ rv <> - EIO
        | Some (Retry s' rest') =>
            rx_inv s' /\ 0 <= errors s' /\ quiet rest'
        | None => True
        end
    | None => True
    end).
  { intros st len rest ->. inversion Hq as [| ? ? Hq1 Hq2]. simpl in Hq1.
    subst st. destruct (read_urb_giveback 0 len s) as [s1 |] eqn:E; auto.
    apply read_buffer_quiet; auto.
    - eapply rx_inv_read_callback; eauto.
    - rewrite (read_giveback_quiet _ _ _ E). exact He. }
  destruct v; [unfold Rt.read_pass | unfold Mtr.read_pass];
    (destruct (ongoing_read s); [| apply read_buffer_quiet; auto]);
    (destruct nonblock; [split; discriminate |]);
    destruct events as [| [[st len | |] | rv] rest]; auto;
    try (split; discriminate);
    specialize (Hdone st len rest eq_refl);
    destruct (read_urb_giveback st len s); auto.
Qed.

Lemma read_in_quiet v s nonblock count e r s' :
  rx_inv s -> 0 <= count -> 0 <= errors s -> quiet (r_events e) ->
  read_in v s nonblock count e = Some (r, s') ->
  r <> - EPIPE /\ r <> - EIO.
Proof.
  intros Hi Hn He Hq.
  assert (Hloop : forall fuel rv t,
    0 < count ->
    read_loop
      (fun s events =>
         match v with
         | Generic => Rt.read_pass nonblock count (r_copy_left e) s events
         | Motor => Mtr.read_pass nonblock count (r_copy_left e) s events
         end) fuel (set_io_mutex true s) (r_events e) = Some (rv, t) ->
    rv <> - EPIPE /\ rv <> - EIO).
  { intros fuel rv t Hpos Hl.
    refine (read_loop_rule
              (fun s ev => rx_inv s /\ 0 <= errors s /\ quiet ev)
              (fun rv _ => rv <> - EPIPE /\ rv <> - EIO) _ _
              fuel _ _ rv t _ Hl).
    - intros u ev (Hu1 & Hu2 & Hu3).
      apply (read_pass_quiet v nonblock count (r_copy_left e) u ev);
        assumption.
    - split; [| split]; assumption. }
  destruct v; simpl; [unfold Rt.usb_rt_read | unfold Mtr.usb_rt_read];
    (destruct (no_bulk_in_urb s || (count =? 0)) eqn:E0;
     [intros [= <- _]; split; discriminate |]);
    apply orb_false_iff in E0; destruct E0 as [_ E0]; zbool;
    unfold mutex_lock_interruptible; (destruct (io_mutex s);
     [destruct (r_signal e); [intros [= <- _]; split; discriminate
                             | discriminate] |]);
    cbn [Z.ltb Z.compare interface disconnected set_io_mutex].
  - destruct (interface s); cbn [negb];
      [| intros [= <- _]; split; discriminate].
    specialize (Hloop (S (length (r_events e)))).
    destruct (read_loop (Rt.read_pass nonblock count (r_copy_left e))
                (S (length (r_events e))) (set_io_mutex true s)
                (r_events e)) as [[rv2 s2] |]; [| discriminate].
    intros [= <- _]. apply (Hloop rv2 s2); [lia | reflexivity].
  - destruct (disconnected s); [intros [= <- _]; split; discriminate |].
    specialize (Hloop (S (length (r_events e)))).
    destruct (read_loop (Mtr.read_pass nonblock count (r_copy_left e))
                (S (length (r_events e))) (set_io_mutex true s)
                (r_events e)) as [[rv2 s2] |]; [| discriminate].
    intros [= <- _]. apply (Hloop rv2 s2); [lia | reflexivity].
Qed.

Lemma write_in_quiet v PAGE_SIZE s nonblock count e r s' :
  0 <= errors s -> 0 <= count -> 0 <= max_transfer v PAGE_SIZE s < 2 ^ 63 ->
  w_submit e = 0 ->
  write_in v PAGE_SIZE s nonblock count e = Some (r, s') ->
  r <> - EPIPE /\ r <> - EIO.
Proof.
  intros He Hn Hmax Hs H.
  assert (Hsz : 0 <= to_ssize (Z.min count (max_transfer v PAGE_SIZE s)))
    by (rewrite to_ssize_small; lia).
  destruct v; simpl in H, Hsz;
    [unfold Rt.usb_rt_write, Rt.write_error in H
    | unfold Mtr.usb_rt_write, Mtr.write_error in H];
    unfold_kernel; crush; zbool; simpl in *;
    split; try discriminate; try lia.
Qed.

(** C3: an error code in the shared slot is reported by the next [read] or
    [write] that reaches the check, as [-EPIPE] when the code is the stall
    code and as [-EIO] otherwise, and the slot is cleared by that call; a
    [read] or [write] that follows, during which no transfer fails, does not
    report [-EPIPE] or [-EIO]. *)
Theorem error_reported_once (v : variant) (PAGE_SIZE : Z) (s : usb_rt) :
  errors s < 0 ->
  (surfaced (errors s) = - EPIPE <-> errors s = - EPIPE)
  /\ (surfaced (errors s) = - EIO <-> errors s <> - EPIPE)
  /\ (forall nonblock count e,
      no_bulk_in_urb s = false -> 0 < count -> io_mutex s = false ->
      torn_down v s = false -> ongoing_read s = false ->
      read_in v s nonblock count e
        = Some (surfaced (errors s), set_errors 0 s))
  /\ (forall nonblock count e,
      0 < count -> 0 < limit_sem s ->
      write_in v PAGE_SIZE s nonblock count e
        = Some (surfaced (errors s), set_errors 0 s))
  /\ errors (set_errors 0 s) = 0
  /\ (forall nonblock count e r s',
      rx_inv s -> 0 <= count -> quiet (r_events e) ->
      read_in v (set_errors 0 s) nonblock count e = Some (r, s') ->
      r <> - EPIPE /\ r <> - EIO)
  /\ (forall nonblock count e r s',
      0 <= count -> 0 <= max_transfer v PAGE_SIZE s < 2 ^ 63 ->
      w_submit e = 0 ->
      write_in v PAGE_SIZE (set_errors 0 s) nonblock count e = Some (r, s') ->
      r <> - EPIPE /\ r <> - EIO).
Proof.
  intros He.
  split.
  { unfold surfaced. destruct (errors s =? - EPIPE) eqn:E; zbool;
      split; intros; auto; try discriminate; contradiction. }
  split.
  { unfold surfaced. destruct (errors s =? - EPIPE) eqn:E; zbool;
      split; intros; auto; try discriminate; contradiction. }
  split; [intros; apply read_in_surfaces; assumption |].
  split; [intros; apply write_in_surfaces; assumption |].
  split; [reflexivity |].
  split.
  - intros nonblock count e r s' Hi Hn Hq H.
    apply (read_in_quiet v (set_errors 0 s) nonblock count e r s');
      try assumption.
    simpl. lia.
  - intros nonblock count e r s' Hn Hmax Hs H.
    apply (write_in_quiet v PAGE_SIZE (set_errors 0 s) nonblock count e r s');
      try assumption; try (destruct v; assumption).
    simpl. lia.
Qed.

Lemma error_reported_once_witness :
  errors session_after_reset < 0
  /\ read_in Generic session_after_reset false 8 env_copy_ok
     = Some (- EPIPE, set_errors 0 session_after_reset)
  /\ read_in Generic (set_errors 0 session_after_reset) false 8 env_copy_ok
     = Some (8, set_bulk_in_copied 8 (set_errors 0 session_after_reset)).
Proof.
  assert (He : errors session_after_reset < 0) by reflexivity.
  destruct (error_reported_once Generic 4096 session_after_reset He)
    as (_ & _ & Hread & _).
  split; [exact He |]. split.
  - apply (Hread false 8 env_copy_ok); reflexivity.
  - vm_compute. reflexivity.
Defined.

(** ** Draw-down and [flush] *)

Lemma write_giveback_fields status s :
  io_mutex (write_urb_giveback status s) = io_mutex s
  /\ ongoing_read (write_urb_giveback status s) = ongoing_read s
  /\ submitted (write_urb_giveback status s) = Nat.pred (submitted s)
  /\ out_inflight (write_urb_giveback status s) = Nat.pred (out_inflight s).
Proof.
  unfold write_urb_giveback, usb_rt_write_bulk_callback, up.
  destruct (negb (status =? 0)); simpl; auto.
Qed.

Lemma wait_completions_fields done s :
  let s' := usb_wait_completions done s in
  io_mutex s' = io_mutex s /\ ongoing_read s' = ongoing_read s
  /\ (submitted s = out_inflight s -> submitted s' = out_inflight s')
  /\ (out_inflight s = 0%nat -> s' = s).
Proof.
  revert s. induction done as [| st rest IH]; intros s; simpl.
  - auto.
  - destruct (Nat.eqb (out_inflight s) 0) eqn:E; zbool.
    + auto.
    + destruct (write_giveback_fields st s) as (G1 & G2 & G3 & G4).
      destruct (IH (write_urb_giveback st s)) as (I1 & I2 & I3 & _).
      split; [congruence |]. split; [congruence |]. split.
      * intros Heq. apply I3. rewrite G3, G4, Heq. reflexivity.
      * intros H0. contradiction.
Qed.

Lemma kill_iter_fields n s :
  io_mutex (Nat.iter n (write_urb_giveback (- ENOENT)) s) = io_mutex s
  /\ ongoing_read (Nat.iter n (write_urb_giveback (- ENOENT)) s)
     = ongoing_read s.
Proof.
  induction n as [| n [IH1 IH2]]; [auto |].
  rewrite Nat.iter_succ.
  destruct (write_giveback_fields (- ENOENT)
              (Nat.iter n (write_urb_giveback (- ENOENT)) s))
    as (G1 & G2 & _).
  split; congruence.
Qed.

Lemma kill_urb_fields s :
  io_mutex (usb_kill_urb s) = io_mutex s
  /\ (ongoing_read s = false -> usb_kill_urb s = s).
Proof.
  unfold usb_kill_urb, usb_rt_read_bulk_callback.
  destruct (ongoing_read s); simpl; split; auto; discriminate.
Qed.

(** With every anchored transfer in flight, draw-down returns, and
    nothing is outstanding afterwards. *)
Lemma draw_down_returns done s :
  submitted s = out_inflight s ->
  exists s',
    usb_rt_draw_down done s = Some s'
    /\ submitted s' = 0%nat /\ out_inflight s' = 0%nat
    /\ ongoing_read s' = false /\ io_mutex s' = io_mutex s.
Proof.
  intros Heq. unfold usb_rt_draw_down, usb_wait_anchor_empty_timeout.
  destruct (wait_completions_fields done s) as (W1 & W2 & W3 & _).
  specialize (W3 Heq). set (w := usb_wait_completions done s) in *.
  destruct (Nat.eqb (submitted w) 0) eqn:E; zbool; simpl.
  - exists (usb_kill_urb w). destruct (sem_kill_urb w) as (_ & K2 & K3 & K4).
    destruct (kill_urb_fields w) as (K5 & _).
    repeat split; congruence || lia.
  - destruct (usb_kill_anchored_urbs w) as [k |] eqn:Ek.
    + exists (usb_kill_urb k).
      pose proof Ek as Ek'. apply slots_kill_anchored in Ek'.
      destruct Ek' as (_ & A2 & A3).
      unfold usb_kill_anchored_urbs in Ek.
      destruct (Nat.eqb (submitted w) (out_inflight w)); [| discriminate].
      apply (f_equal (option_map io_mutex)) in Ek. simpl in Ek.
      destruct (kill_iter_fields (out_inflight w) w) as (I1 & _).
      change (- ENOENT) with (-2) in I1.
      destruct (sem_kill_urb k) as (_ & K2 & K3 & K4).
      destruct (kill_urb_fields k) as (K5 & _).
      repeat split; try congruence.
    + exfalso. unfold usb_kill_anchored_urbs in Ek.
      apply Nat.eqb_eq in W3. rewrite W3 in Ek. discriminate.
Qed.

Lemma draw_down_idle done s :
  submitted s = 0%nat -> out_inflight s = 0%nat -> ongoing_read s = false ->
  usb_rt_draw_down done s = Some s.
Proof.
  intros Hs Hi Ho. unfold usb_rt_draw_down, usb_wait_anchor_empty_timeout.
  destruct (wait_completions_fields done s) as (_ & _ & _ & W4).
  rewrite (W4 Hi), Hs. simpl.
  destruct (kill_urb_fields s) as (_ & K). rewrite (K Ho). reflexivity.
Qed.

(** *** A send that sits on the anchor without being in flight *)

Lemma kill_anchored_stuck s :
  submitted s <> out_inflight s -> usb_kill_anchored_urbs s = None.
Proof.
  intros H. unfold usb_kill_anchored_urbs.
  apply Nat.eqb_neq in H. rewrite H. reflexivity.
Qed.

Lemma wait_completions_stale done s :
  (out_inflight s < submitted s)%nat ->
  (out_inflight (usb_wait_completions done s)
   < submitted (usb_wait_completions done s))%nat.
Proof.
  revert s. induction done as [| st rest IH]; intros s H; simpl.
  - exact H.
  - destruct (Nat.eqb (out_inflight s) 0) eqn:E; [exact H |].
    apply Nat.eqb_neq in E. apply IH.
    destruct (write_giveback_fields st s) as (_ & _ & -> & ->). lia.
Qed.

(** Draw-down does not return then: the wait ends with the anchor not
    empty, and the cancellation never empties it. *)
Lemma draw_down_stuck done s :
  (out_inflight s < submitted s)%nat -> usb_rt_draw_down done s = None.
Proof.
  intros H. unfold usb_rt_draw_down, usb_wait_anchor_empty_timeout.
  pose proof (wait_completions_stale done s H) as Hw.
  set (w := usb_wait_completions done s) in *.
  destruct (Nat.eqb (submitted w) 0) eqn:E.
  - apply Nat.eqb_eq in E. lia.
  - simpl. rewrite kill_anchored_stuck by lia. reflexivity.
Qed.



(** *** In the generic variant every anchored send is in flight *)

Lemma anchor_of_tx_view (s s' : usb_rt) :
  tx_view s' = tx_view s ->
  submitted s = out_inflight s -> submitted s' = out_inflight s'.
Proof. unfold tx_view. intros [= _ -> -> _]. auto. Qed.

Lemma anchor_draw_down done s s' :
  submitted s = out_inflight s -> usb_rt_draw_down done s = Some s' ->
  submitted s' = out_inflight s'.
Proof.
  intros Heq H. destruct (draw_down_returns done s Heq)
    as (t & Ht & T1 & T2 & _).
  rewrite Ht in H. injection H as <-. congruence.
Qed.

Lemma anchor_kref_put s :
  submitted (kref_put usb_rt_delete s) = submitted s
  /\ out_inflight (kref_put usb_rt_delete s) = out_inflight s.
Proof.
  unfold kref_put, usb_rt_delete. simpl.
  destruct (Nat.eqb (Nat.pred (kref s)) 0); auto.
Qed.

Lemma Rt_write_anchor PAGE_SIZE s nonblock count e r s' :
  Rt.usb_rt_write PAGE_SIZE s nonblock count e = Some (r, s') ->
  submitted s = out_inflight s -> submitted s' = out_inflight s'.
Proof.
  unfold Rt.usb_rt_write, Rt.write_error. unfold_kernel.
  intros H Heq. crush; zbool; simpl in *; congruence || lia.
Qed.

Lemma Rt_reachable_anchor PAGE_SIZE s :
  Rt.reachable PAGE_SIZE s -> submitted s = out_inflight s.
Proof.
  induction 1 as
    [ maxp Hm
    | s rv _ IH
    | s r s' _ IH Hop
    | s done r s' _ IH Hop
    | s rv _ IH
    | s nonblock count e r s' _ IH Hc Hop
    | s nonblock count e r s' _ IH Hc Hop
    | s status len s' _ IH Hop
    | s status _ IH Hpos
    | s s' _ IH Hop
    | s done r s' _ IH Hop
    | s _ IH
    | s done r s' _ IH Hop
    | s _ IH ].
  - reflexivity.
  - unfold usb_rt_open.
    destruct (negb (minor s)), (negb (intfdata s)), (negb (rv =? 0));
      exact IH.
  - unfold Rt.usb_rt_release, mutex_lock in Hop.
    destruct (io_mutex s); [discriminate |]. injection Hop as _ <-.
    match goal with
    | |- submitted (kref_put _ ?t) = _ =>
        destruct (anchor_kref_put t) as [-> ->]
    end.
    destruct (interface s); exact IH.
  - unfold usb_rt_flush, mutex_lock in Hop.
    destruct (io_mutex s); [discriminate |].
    destruct (usb_rt_draw_down done (set_io_mutex true s)) as [d |] eqn:Ed;
      [| discriminate].
    injection Hop as _ <-. apply anchor_draw_down in Ed; [exact Ed | exact IH].
  - unfold Rt.usb_rt_poll. destruct (ongoing_read s); [exact IH |].
    destruct (negb (size_sub (bulk_in_filled s) (bulk_in_copied s) =? 0));
      [exact IH |].
    eapply anchor_of_tx_view; [apply tx_view_do_read_io | exact IH].
  - eapply anchor_of_tx_view; [eapply Rt_tx_view_read; exact Hop | exact IH].
  - eapply Rt_write_anchor; eauto.
  - eapply anchor_of_tx_view;
      [eapply tx_view_read_giveback; exact Hop | exact IH].
  - destruct (write_giveback_fields status s) as (_ & _ & -> & ->).
    congruence.
  - unfold Rt.usb_rt_disconnect, mutex_lock, usb_deregister_dev in Hop.
    cbn [io_mutex set_minor set_intfdata] in Hop.
    destruct (io_mutex s); [discriminate |].
    match type of Hop with
    | match usb_kill_anchored_urbs ?t with _ => _ end = _ =>
        destruct (usb_kill_anchored_urbs t) as [k |] eqn:Ek;
          [| discriminate]
    end.
    injection Hop as <-. destruct (anchor_kref_put k) as [-> ->].
    apply slots_kill_anchored in Ek. destruct Ek as (_ & -> & ->).
    reflexivity.
  - unfold usb_rt_suspend in Hop. destruct (negb (intfdata s)).
    + injection Hop as _ <-. exact IH.
    + destruct (usb_rt_draw_down done s) as [d |] eqn:Ed; [| discriminate].
      injection Hop as _ <-. eapply anchor_draw_down; eauto.
  - exact IH.
  - unfold usb_rt_pre_reset, mutex_lock in Hop.
    destruct (io_mutex s); [discriminate |].
    destruct (usb_rt_draw_down done (set_io_mutex true s)) as [d |] eqn:Ed;
      [| discriminate].
    injection Hop as _ <-. apply anchor_draw_down in Ed; [exact Ed | exact IH].
  - exact IH.
Qed.




(** ** The readiness query *)





(** ** Disconnect *)

Lemma teardown_view_write_giveback status s :
  teardown_view (write_urb_giveback status s) = teardown_view s.
Proof.
  unfold write_urb_giveback, usb_rt_write_bulk_callback, up.
  destruct (negb (status =? 0)); reflexivity.
Qed.

Lemma teardown_view_kill_iter n s :
  teardown_view (Nat.iter n (write_urb_giveback (- ENOENT)) s)
  = teardown_view s.
Proof.
  induction n as [| n IH]; [reflexivity |].
  rewrite Nat.iter_succ, teardown_view_write_giveback. exact IH.
Qed.

Lemma kill_anchored_returns s :
  submitted s = out_inflight s ->
  exists s',
    usb_kill_anchored_urbs s = Some s'
    /\ out_inflight s' = 0%nat /\ submitted s' = 0%nat
    /\ ongoing_read s' = ongoing_read s
    /\ teardown_view s' = teardown_view s.
Proof.
  intros Heq. unfold usb_kill_anchored_urbs.
  apply Nat.eqb_eq in Heq. rewrite Heq. eexists. split; [reflexivity |].
  destruct (kill_iter_effect (out_inflight s) s) as (_ & H2 & H3 & _);
    [lia |].
  destruct (kill_iter_fields (out_inflight s) s) as (_ & H4).
  apply Nat.eqb_eq in Heq.
  repeat split; try assumption; try lia.
  apply teardown_view_kill_iter.
Qed.

Lemma kref_put_fields s :
  kref (kref_put usb_rt_delete s) = Nat.pred (kref s)
  /\ ongoing_read (kref_put usb_rt_delete s) = ongoing_read s
  /\ out_inflight (kref_put usb_rt_delete s) = out_inflight s
  /\ minor (kref_put usb_rt_delete s) = minor s
  /\ interface (kref_put usb_rt_delete s) = interface s
  /\ disconnected (kref_put usb_rt_delete s) = disconnected s.
Proof.
  unfold kref_put, usb_rt_delete. simpl.
  destruct (Nat.eqb (Nat.pred (kref s)) 0); simpl; auto 10.
Qed.

(** C7, evaluated on the code: with the lock free and every anchored send
    in flight, [disconnect] of either variant unregisters the device node,
    marks the session torn down, cancels the tracked sends and drops one
    reference; the motor variant also cancels the receive transfer, the
    generic variant leaves the receive flag as it found it, so a receive
    that was outstanding stays outstanding. *)
Theorem disconnect_and_the_receive_transfer (s : usb_rt) :
  io_mutex s = false -> submitted s = out_inflight s ->
  (exists s',
      Rt.usb_rt_disconnect s = Some s'
      /\ minor s' = false /\ interface s' = false
      /\ out_inflight s' = 0%nat
      /\ kref s' = Nat.pred (kref s)
      /\ ongoing_read s' = ongoing_read s)
  /\ (exists s',
      Mtr.usb_rt_disconnect s = Some s'
      /\ minor s' = false /\ disconnected s' = true
      /\ out_inflight s' = 0%nat
      /\ kref s' = Nat.pred (kref s)
      /\ ongoing_read s' = false).
Proof.
  intros Hm Heq. split.
  - unfold Rt.usb_rt_disconnect, mutex_lock, usb_deregister_dev.
    cbn [io_mutex set_minor set_intfdata]. rewrite Hm.
    match goal with
    | |- context [usb_kill_anchored_urbs ?t] =>
        destruct (kill_anchored_returns t Heq)
          as (k & -> & K1 & K2 & K3 & K4)
    end.
    eexists. split; [reflexivity |].
    destruct (kref_put_fields k) as (F1 & F2 & F3 & F4 & F5 & _).
    unfold teardown_view in K4. simpl in K3, K4.
    injection K4 as V1 V2 V3 V4 V5. repeat split; congruence.
  - unfold Mtr.usb_rt_disconnect, mutex_lock, usb_deregister_dev.
    assert (H0 : forall t, t = (if has_text_api s
                                then set_text_api_attr false s else s) ->
                 io_mutex t = io_mutex s /\ submitted t = submitted s
                 /\ out_inflight t = out_inflight s /\ kref t = kref s).
    { intros t ->. destruct (has_text_api s); auto. }
    destruct (H0 _ eq_refl) as (M0 & S0 & I0 & R0).
    set (s0 := if has_text_api s then set_text_api_attr false s else s) in *.
    cbn [io_mutex set_minor set_intfdata]. rewrite M0, Hm.
    match goal with
    | |- context [usb_kill_anchored_urbs (usb_kill_urb ?t)] =>
        destruct (sem_kill_urb t) as (_ & U1 & U2 & U3);
        destruct (kill_anchored_returns (usb_kill_urb t))
          as (k & -> & K1 & K2 & K3 & K4);
          [rewrite U1, U2; simpl; congruence |]
    end.
    eexists. split; [reflexivity |].
    destruct (kref_put_fields k) as (F1 & F2 & F3 & F4 & _ & F6).
    unfold teardown_view in K4.
    match type of K4 with
    | _ = (minor (usb_kill_urb ?t), _, _, _, _) =>
        assert (Hv : teardown_view (usb_kill_urb t) = teardown_view t)
          by (unfold usb_kill_urb, usb_rt_read_bulk_callback;
              destruct (ongoing_read t); reflexivity)
    end.
    unfold teardown_view in Hv. rewrite Hv in K4. simpl in K4.
    injection K4 as V1 V2 V3 V4 V5.
    repeat split; congruence.
Qed.

Lemma disconnect_and_the_receive_transfer_witness :
  (exists s',
      Rt.usb_rt_disconnect session_receiving = Some s'
      /\ kref s' = 0%nat /\ ongoing_read s' = true)
  /\ (exists s',
      Mtr.usb_rt_disconnect session_receiving = Some s'
      /\ kref s' = 0%nat /\ ongoing_read s' = false).
Proof.
  destruct (disconnect_and_the_receive_transfer session_receiving
              eq_refl eq_refl)
    as ((g & Hg & _ & _ & _ & Gk & Go) & (m & Hm & _ & _ & _ & Mk & Mo)).
  split; [exists g | exists m]; repeat split; assumption.
Defined.

(** * Further properties *)

(** Turns the equations between views into equations between fields. *)
Ltac open_views :=
  repeat match goal with
    | H : held_view _ = held_view _ |- _ =>
        unfold held_view in H; simpl in H; injection H; clear H; intros
    | H : rx_view _ = rx_view _ |- _ =>
        unfold rx_view in H; simpl in H; injection H; clear H; intros
    | H : tx_view _ = tx_view _ |- _ =>
        unfold tx_view in H; simpl in H; injection H; clear H; intros
    end.

(** ** What the transfers and draw-down leave alone *)

(** The fields a completion or a cancellation does not assign, besides
    [held_view]: the lock and the receive buffer. *)
Lemma write_giveback_frame status s :
  let s' := write_urb_giveback status s in
  held_view s' = held_view s /\ io_mutex s' = io_mutex s
  /\ rx_view s' = rx_view s /\ limit_sem s' = limit_sem s + 1
  /\ errors s' = last_failure (errors s) [status].
Proof.
  unfold write_urb_giveback, usb_rt_write_bulk_callback, up, last_failure.
  simpl. destruct (status =? 0); simpl; repeat split; reflexivity.
Qed.

Lemma wait_completions_frame done s :
  let s' := usb_wait_completions done s in
  held_view s' = held_view s /\ io_mutex s' = io_mutex s
  /\ rx_view s' = rx_view s /\ limit_sem s <= limit_sem s'.
Proof.
  revert s. induction done as [| st rest IH]; intros s; simpl.
  - repeat split; lia.
  - destruct (Nat.eqb (out_inflight s) 0).
    + repeat split; lia.
    + destruct (write_giveback_frame st s) as (G1 & G2 & G3 & G4 & _).
      destruct (IH (write_urb_giveback st s)) as (I1 & I2 & I3 & I4).
      repeat split; try congruence. lia.
Qed.

Lemma kill_iter_frame n s :
  let s' := Nat.iter n (write_urb_giveback (- ENOENT)) s in
  held_view s' = held_view s /\ io_mutex s' = io_mutex s
  /\ rx_view s' = rx_view s /\ limit_sem s' = limit_sem s + Z.of_nat n
  /\ (n <> 0%nat -> errors s' = - ENOENT).
Proof.
  induction n as [| n IH].
  - simpl. repeat split; lia.
  - cbv zeta in *. rewrite Nat.iter_succ.
    destruct IH as (I1 & I2 & I3 & I4 & _).
    destruct (write_giveback_frame (- ENOENT)
                (Nat.iter n (write_urb_giveback (- ENOENT)) s))
      as (G1 & G2 & G3 & G4 & G5).
    repeat split; try congruence.
    rewrite G4, I4, Nat2Z.inj_succ. lia.
Qed.

Lemma kill_urb_frame s :
  let s' := usb_kill_urb s in
  held_view s' = held_view s /\ io_mutex s' = io_mutex s
  /\ tx_view s' = tx_view s
  /\ bulk_in_filled s' = bulk_in_filled s
  /\ bulk_in_copied s' = bulk_in_copied s
  /\ bulk_in_urb s' = bulk_in_urb s
  /\ ongoing_read s' = false
  /\ (ongoing_read s = true -> errors s' = - ENOENT)
  /\ (ongoing_read s = false -> s' = s).
Proof.
  unfold usb_kill_urb, usb_rt_read_bulk_callback.
  destruct (ongoing_read s) eqn:E; simpl; repeat split; auto; discriminate.
Qed.

Lemma kill_anchored_frame s s' :
  usb_kill_anchored_urbs s = Some s' ->
  held_view s' = held_view s /\ io_mutex s' = io_mutex s
  /\ rx_view s' = rx_view s
  /\ limit_sem s' = limit_sem s + Z.of_nat (out_inflight s)
  /\ (out_inflight s <> 0%nat -> errors s' = - ENOENT)
  /\ (out_inflight s = 0%nat -> s' = s).
Proof.
  unfold usb_kill_anchored_urbs.
  destruct (Nat.eqb (submitted s) (out_inflight s)); [| discriminate].
  intros [= <-].
  destruct (kill_iter_frame (out_inflight s) s) as (K1 & K2 & K3 & K4 & K5).
  repeat split; auto. intros ->. reflexivity.
Qed.

Lemma draw_down_frame done s s' :
  usb_rt_draw_down done s = Some s' ->
  held_view s' = held_view s /\ io_mutex s' = io_mutex s
  /\ bulk_in_filled s' = bulk_in_filled s
  /\ bulk_in_copied s' = bulk_in_copied s
  /\ bulk_in_urb s' = bulk_in_urb s
  /\ limit_sem s <= limit_sem s'
  /\ ongoing_read s' = false
  /\ (ongoing_read s = true -> errors s' = - ENOENT).
Proof.
  unfold usb_rt_draw_down, usb_wait_anchor_empty_timeout.
  destruct (wait_completions_frame done s) as (W1 & W2 & W3 & W4).
  set (w := usb_wait_completions done s) in *.
  assert (Hk : forall k,
             held_view k = held_view w -> io_mutex k = io_mutex w ->
             rx_view k = rx_view w -> limit_sem w <= limit_sem k ->
             Some (usb_kill_urb k) = Some s' ->
             held_view s' = held_view s /\ io_mutex s' = io_mutex s
             /\ bulk_in_filled s' = bulk_in_filled s
             /\ bulk_in_copied s' = bulk_in_copied s
             /\ bulk_in_urb s' = bulk_in_urb s
             /\ limit_sem s <= limit_sem s'
             /\ ongoing_read s' = false
             /\ (ongoing_read s = true -> errors s' = - ENOENT)).
  { intros k K1 K2 K3 K4 [= <-].
    destruct (kill_urb_frame k) as (U1 & U2 & U3 & U4 & U5 & U6 & U7 & U8 & _).
    unfold rx_view in W3, K3. unfold tx_view in U3.
    injection W3 as ? ? ? ? ?. injection K3 as ? ? ? ? ?.
    injection U3 as ? ? ? ?.
    repeat split; try congruence; try lia.
    intros Ho. apply U8. congruence. }
  destruct (Nat.eqb (submitted w) 0); simpl.
  - apply Hk; auto; lia.
  - destruct (usb_kill_anchored_urbs w) as [k |] eqn:Ek; [| discriminate].
    destruct (kill_anchored_frame _ _ Ek) as (A1 & A2 & A3 & A4 & _).
    apply Hk; auto; lia.
Qed.

(** ** What [read] and [write] leave alone *)

Section ReadFrame.

Context {A : Type} (f : usb_rt -> A).

Hypothesis f_io :
  forall s count rv, f (snd (usb_rt_do_read_io s count rv)) = f s.
Hypothesis f_done :
  forall status len s s', read_urb_giveback status len s = Some s' ->
                          f s' = f s.
Hypothesis f_errors : forall s, f (set_errors 0 s) = f s.
Hypothesis f_copied : forall s c, f (set_bulk_in_copied c s) = f s.

Lemma read_buffer_frame count copy_left s events :
  match read_buffer count copy_left s events with
  | Some (Exit _ s') => f s' = f s
  | Some (Retry s' _) => f s' = f s
  | None => True
  end.
Proof.
  assert (Hio :
    match read_start_io count s events with
    | Some (Exit _ s') => f s' = f s
    | Some (Retry s' _) => f s' = f s
    | None => True
    end).
  { unfold read_start_io. destruct events as [| [w | srv] rest]; auto.
    pose proof (f_io s count srv) as Hs.
    destruct (usb_rt_do_read_io s count srv) as [rv t]. simpl in Hs.
    destruct (rv <? 0); exact Hs. }
  unfold read_buffer.
  destruct (errors s <? 0); [apply f_errors |].
  destruct (negb (bulk_in_filled s =? 0)); [| exact Hio].
  destruct (size_sub (bulk_in_filled s) (bulk_in_copied s) =? 0);
    [exact Hio | apply f_copied].
Qed.

Lemma read_pass_frame v nonblock count copy_left s events :
  match
    match v with
    | Generic => Rt.read_pass nonblock count copy_left s events
    | Motor => Mtr.read_pass nonblock count copy_left s events
    end
  with
  | Some (Exit _ s') => f s' = f s
  | Some (Retry s' _) => f s' = f s
  | None => True
  end.
Proof.
  destruct v; [unfold Rt.read_pass | unfold Mtr.read_pass];
    (destruct (ongoing_read s); [| apply read_buffer_frame]);
    (destruct nonblock; auto);
    (destruct events as [| [[st len | |] | rv] rest]; auto);
    (destruct (read_urb_giveback st len s) as [s1 |] eqn:E; auto);
    apply f_done in E; rewrite <- E; apply read_buffer_frame.
Qed.

Lemma read_loop_frame one_pass :
  (forall s events,
      match one_pass s events with
      | Some (Exit _ s') => f s' = f s
      | Some (Retry s' _) => f s' = f s
      | None => True
      end) ->
  forall fuel s events rv s',
    read_loop one_pass fuel s events = Some (rv, s') -> f s' = f s.
Proof.
  intros Hpass fuel s events rv s' H.
  refine (read_loop_rule (fun t _ => f t = f s) (fun _ t => f t = f s)
            one_pass _ fuel s events rv s' eq_refl H).
  intros t ev Ht. specialize (Hpass t ev).
  destruct (one_pass t ev) as [[rv1 t1 | t1 rest] |]; auto; congruence.
Qed.

(** [read] between taking the lock and giving it back. *)
Lemma read_locked_frame v nonblock count copy_left fuel s events rv s' :
  read_loop
    match v with
    | Generic => Rt.read_pass nonblock count copy_left
    | Motor => Mtr.read_pass nonblock count copy_left
    end fuel s events = Some (rv, s') ->
  f s' = f s.
Proof.
  intros H. eapply read_loop_frame; [| exact H].
  intros t ev. pose proof (read_pass_frame v nonblock count copy_left t ev).
  destruct v; assumption.
Qed.

End ReadFrame.

(** The shape of a [read] that returns: it gave up before the lock, was
    interrupted while waiting for it, found the session torn down, or went
    through the loop with the lock held. *)
Lemma read_in_shape v s nonblock count e r s' :
  read_in v s nonblock count e = Some (r, s') ->
  (s' = s /\ r = 0 /\ (no_bulk_in_urb s = true \/ count = 0))
  \/ (s' = s /\ r = - EINTR /\ io_mutex s = true)
  \/ (io_mutex s = false /\ r = - ENODEV /\ torn_down v s = true
      /\ s' = mutex_unlock (set_io_mutex true s))
  \/ (io_mutex s = false /\ torn_down v s = false
      /\ no_bulk_in_urb s = false /\ count <> 0
      /\ exists s2,
          read_loop
            match v with
            | Generic => Rt.read_pass nonblock count (r_copy_left e)
            | Motor => Mtr.read_pass nonblock count (r_copy_left e)
            end (S (length (r_events e))) (set_io_mutex true s) (r_events e)
          = Some (r, s2)
          /\ s' = mutex_unlock s2).
Proof.
  destruct v; simpl; [unfold Rt.usb_rt_read | unfold Mtr.usb_rt_read];
    (destruct (no_bulk_in_urb s) eqn:Eu; [intros [= <- <-]; auto |]);
    (destruct (count =? 0) eqn:Ec; zbool; [intros [= <- <-]; auto |]);
    cbn [orb]; unfold mutex_lock_interruptible;
    (destruct (io_mutex s) eqn:Em;
     [destruct (r_signal e); [intros [= <- <-]; auto | discriminate] |]);
    cbn [Z.ltb Z.compare interface disconnected set_io_mutex].
  - destruct (interface s); cbn [negb].
    2:{ intros [= <- <-]. right. right. left. auto. }
    match goal with
    | |- match ?l with _ => _ end = _ -> _ =>
        destruct l as [[rv2 s2] |] eqn:El; [| discriminate]
    end.
    intros [= <- <-]. right. right. right. repeat split; auto.
    exists s2. auto.
  - destruct (disconnected s).
    1:{ intros [= <- <-]. right. right. left. auto. }
    match goal with
    | |- match ?l with _ => _ end = _ -> _ =>
        destruct l as [[rv2 s2] |] eqn:El; [| discriminate]
    end.
    intros [= <- <-]. right. right. right. repeat split; auto.
    exists s2. auto.
Qed.

Lemma held_view_do_read_io s count rv :
  held_view (snd (usb_rt_do_read_io s count rv)) = held_view s.
Proof.
  unfold usb_rt_do_read_io, usb_fill_bulk_in.
  destruct (bulk_in_urb s), (rv <? 0); reflexivity.
Qed.

Lemma held_view_read_giveback status len s s' :
  read_urb_giveback status len s = Some s' -> held_view s' = held_view s.
Proof.
  unfold read_urb_giveback, usb_rt_read_bulk_callback. intros H.
  crush; reflexivity.
Qed.

Lemma read_in_frame v s nonblock count e r s' :
  read_in v s nonblock count e = Some (r, s') ->
  held_view s' = held_view s /\ io_mutex s' = io_mutex s.
Proof.
  intros H. apply read_in_shape in H.
  destruct H as [(-> & _) | [(-> & _) | [(Hm & _ & _ & ->)
                | (Hm & _ & _ & _ & s2 & Hl & ->)]]].
  - auto.
  - auto.
  - split; [reflexivity | simpl; congruence].
  - split; [| simpl; congruence].
    apply (read_locked_frame held_view) in Hl.
    + exact Hl.
    + apply held_view_do_read_io.
    + apply held_view_read_giveback.
    + reflexivity.
    + reflexivity.
Qed.

Lemma write_in_frame v PAGE_SIZE s nonblock count e r s' :
  write_in v PAGE_SIZE s nonblock count e = Some (r, s') ->
  held_view s' = held_view s /\ io_mutex s' = io_mutex s
  /\ rx_view s' = rx_view s
  /\ (0 <= limit_sem s -> 0 <= limit_sem s')
  /\ (out_inflight s' = out_inflight s \/ torn_down v s = false).
Proof.
  destruct v; simpl;
    [unfold Rt.usb_rt_write, Rt.write_error
    | unfold Mtr.usb_rt_write, Mtr.write_error];
    unfold_kernel; intros H;
    crush; zbool; simpl in *; repeat split; auto; try lia; try congruence;
    right; apply negb_false_iff; assumption.
Qed.

(** ** What the other operations change *)

Lemma kref_put_cases s :
  kref_put usb_rt_delete s
  = if (kref s <=? 1)%nat then set_bulk_in_urb None (set_kref 0%nat s)
    else set_kref (Nat.pred (kref s)) s.
Proof.
  unfold kref_put, usb_rt_delete. cbn [kref set_kref].
  destruct (kref s) as [| [| k]]; reflexivity.
Qed.

Lemma flush_frame done s r s' :
  usb_rt_flush (Some s) done = Some (r, Some s') ->
  held_view s' = held_view s /\ io_mutex s = false /\ io_mutex s' = false
  /\ limit_sem s <= limit_sem s' /\ errors s' = 0
  /\ ongoing_read s' = false.
Proof.
  unfold usb_rt_flush, mutex_lock.
  destruct (io_mutex s) eqn:Em; [discriminate |].
  destruct (usb_rt_draw_down done (set_io_mutex true s)) as [d |] eqn:Ed;
    [| discriminate].
  intros [= _ <-]. apply draw_down_frame in Ed.
  destruct Ed as (D1 & D2 & _ & _ & _ & D6 & D7 & _). open_views.
  unfold held_view. simpl in *. repeat split; congruence.
Qed.

Lemma suspend_frame done s r s' :
  usb_rt_suspend done s = Some (r, s') ->
  r = 0 /\ held_view s' = held_view s /\ io_mutex s' = io_mutex s
  /\ limit_sem s <= limit_sem s'.
Proof.
  unfold usb_rt_suspend. destruct (negb (intfdata s)).
  - intros [= <- <-]. repeat split; lia.
  - destruct (usb_rt_draw_down done s) as [d |] eqn:Ed; [| discriminate].
    intros [= <- <-]. apply draw_down_frame in Ed. tauto.
Qed.

Lemma pre_reset_frame done s r s' :
  usb_rt_pre_reset done s = Some (r, s') ->
  r = 0 /\ held_view s' = held_view s /\ io_mutex s = false
  /\ io_mutex s' = true /\ limit_sem s <= limit_sem s'
  /\ ongoing_read s' = false.
Proof.
  unfold usb_rt_pre_reset, mutex_lock.
  destruct (io_mutex s) eqn:Em; [discriminate |].
  destruct (usb_rt_draw_down done (set_io_mutex true s)) as [d |] eqn:Ed;
    [| discriminate].
  intros [= <- <-]. apply draw_down_frame in Ed.
  destruct Ed as (D1 & D2 & _ & _ & _ & D6 & D7 & _).
  simpl in *. repeat split; auto.
Qed.

Lemma Rt_poll_frame rv s :
  let s' := snd (Rt.usb_rt_poll rv s) in
  held_view s' = held_view s /\ io_mutex s' = io_mutex s
  /\ tx_view s' = tx_view s.
Proof.
  unfold Rt.usb_rt_poll. destruct (ongoing_read s); [auto |].
  destruct (negb (size_sub (bulk_in_filled s) (bulk_in_copied s) =? 0));
    [auto |].
  cbn [snd]. destruct (do_read_io_fields s (bulk_in_size s) rv)
    as (_ & _ & _ & _ & _ & _ & _ & _ & Hm).
  split; [apply held_view_do_read_io |]. split; [exact Hm |].
  apply tx_view_do_read_io.
Qed.

Lemma Mtr_poll_frame signal rv s r s' :
  Mtr.usb_rt_poll signal rv s = Some (r, s') ->
  held_view s' = held_view s /\ io_mutex s' = io_mutex s
  /\ tx_view s' = tx_view s.
Proof.
  unfold Mtr.usb_rt_poll, mutex_lock_interruptible.
  destruct (io_mutex s) eqn:Em.
  { destruct signal; [| discriminate]. intros [= _ <-]. auto. }
  cbn [Z.ltb Z.compare disconnected ongoing_read errors bulk_in_filled
       bulk_in_copied bulk_in_size set_io_mutex].
  destruct (disconnected s); [intros [= _ <-]; auto |].
  destruct (ongoing_read s); [intros [= _ <-]; auto |].
  destruct (negb (errors s =? 0)); [intros [= _ <-]; auto |].
  destruct (negb (size_sub (bulk_in_filled s) (bulk_in_copied s) =? 0));
    [intros [= _ <-]; auto |].
  pose proof (held_view_do_read_io (set_io_mutex true s) (bulk_in_size s) rv)
    as Hh.
  pose proof (tx_view_do_read_io (set_io_mutex true s) (bulk_in_size s) rv)
    as Ht.
  destruct (usb_rt_do_read_io (set_io_mutex true s) (bulk_in_size s) rv)
    as [rv' t]. cbn [snd] in Hh, Ht.
  assert (held_view (mutex_unlock t) = held_view s
          /\ io_mutex (mutex_unlock t) = false
          /\ tx_view (mutex_unlock t) = tx_view s) as Hu
    by (repeat split; [exact Hh | exact Ht]).
  destruct (negb (rv' =? 0)); intros [= _ <-]; exact Hu.
Qed.

(** [disconnect] of either variant. *)
Lemma disconnect_in_effect v s s' :
  disconnect_in v s = Some s' ->
  io_mutex s = false /\ io_mutex s' = false
  /\ minor s' = false /\ intfdata s' = false /\ torn_down v s' = true
  /\ kref s' = Nat.pred (kref s)
  /\ no_bulk_in_urb s' = no_bulk_in_urb s || (kref s <=? 1)%nat
  /\ out_inflight s' = 0%nat /\ submitted s' = 0%nat
  /\ limit_sem s <= limit_sem s'
  /\ bulk_in_size s' = bulk_in_size s /\ bulk_out_size s' = bulk_out_size s
  /\ has_text_api s' = has_text_api s
  /\ text_api_attr s'
     = match v with
       | Generic => text_api_attr s
       | Motor => if has_text_api s then false else text_api_attr s
       end
  /\ ongoing_read s'
     = match v with Generic => ongoing_read s | Motor => false end.
Proof.
  destruct v; simpl;
    [unfold Rt.usb_rt_disconnect | unfold Mtr.usb_rt_disconnect];
    unfold mutex_lock, usb_deregister_dev.
  - cbn [io_mutex set_minor set_intfdata].
    destruct (io_mutex s) eqn:Em; [discriminate |].
    match goal with
    | |- match usb_kill_anchored_urbs ?t with _ => _ end = _ -> _ =>
        destruct (usb_kill_anchored_urbs t) as [k |] eqn:Ek; [| discriminate]
    end.
    intros [= <-]. pose proof (slots_kill_anchored _ _ Ek) as (_ & A2 & A3).
    destruct (kill_anchored_frame _ _ Ek) as (K1 & K2 & K3 & K4 & _).
    open_views. simpl in *. rewrite kref_put_cases.
    assert (Hu : no_bulk_in_urb k = no_bulk_in_urb s)
      by (unfold no_bulk_in_urb;
          match goal with H : bulk_in_urb k = _ |- _ => rewrite H end;
          reflexivity).
    assert (Hk : kref k = kref s) by congruence.
    rewrite <- Hk.
    destruct (kref k <=? 1)%nat eqn:Ekr; simpl;
      repeat split; try congruence; try lia;
      try (apply Nat.leb_le in Ekr; lia);
      try (match goal with
           | H : interface k = false |- negb _ = true =>
               rewrite H; reflexivity
           end).
    + rewrite orb_true_r. reflexivity.
    + rewrite orb_false_r. exact Hu.
  - set (s0 := if has_text_api s then set_text_api_attr false s else s).
    assert (H0 : io_mutex s0 = io_mutex s /\ tx_view s0 = tx_view s
                 /\ rx_view s0 = rx_view s /\ kref s0 = kref s
                 /\ bulk_out_size s0 = bulk_out_size s
                 /\ has_text_api s0 = has_text_api s
                 /\ text_api_attr s0
                    = (if has_text_api s then false else text_api_attr s))
      by (subst s0; destruct (has_text_api s) eqn:E; repeat split; simpl;
          congruence).
    clearbody s0. destruct H0 as (M0 & T0 & R0 & C0 & O0 & P0 & A0).
    cbn [io_mutex set_minor set_intfdata]. rewrite M0.
    destruct (io_mutex s) eqn:Em; [discriminate |].
    match goal with
    | |- match usb_kill_anchored_urbs (usb_kill_urb ?t) with _ => _ end = _
         -> _ =>
        remember t as t0 eqn:Et0
    end.
    destruct (kill_urb_frame t0) as (U1 & U2 & U3 & _ & _ & U6 & U7 & _).
    remember (usb_kill_urb t0) as u eqn:Eu.
    destruct (usb_kill_anchored_urbs u) as [k |] eqn:Ek; [| discriminate].
    intros [= <-]. pose proof (slots_kill_anchored _ _ Ek) as (_ & A2 & A3).
    destruct (kill_anchored_frame _ _ Ek) as (K1 & K2 & K3 & K4 & _).
    open_views. subst t0. simpl in *. rewrite kref_put_cases.
    assert (Hu : no_bulk_in_urb k = no_bulk_in_urb s)
      by (unfold no_bulk_in_urb;
          match goal with H : bulk_in_urb k = _ |- _ => rewrite H end;
          rewrite U6;
          match goal with H : bulk_in_urb s0 = _ |- _ => rewrite H end;
          reflexivity).
    assert (Hk : kref k = kref s) by congruence.
    rewrite <- Hk.
    destruct (kref k <=? 1)%nat eqn:Ekr; simpl;
      repeat split; try congruence; try lia;
      try (apply Nat.leb_le in Ekr; lia).
    + rewrite orb_true_r. reflexivity.
    + rewrite orb_false_r. exact Hu.
Qed.

Lemma disconnect_in_returns v s :
  io_mutex s = false -> submitted s = out_inflight s ->
  exists s', disconnect_in v s = Some s'.
Proof.
  intros Hm Ha.
  destruct v; simpl;
    [unfold Rt.usb_rt_disconnect | unfold Mtr.usb_rt_disconnect];
    unfold mutex_lock, usb_deregister_dev.
  - cbn [io_mutex set_minor set_intfdata]. rewrite Hm.
    match goal with
    | |- exists _, match usb_kill_anchored_urbs ?t with _ => _ end = _ =>
        destruct (kill_anchored_returns t) as (k & -> & _); [exact Ha |]
    end.
    eauto.
  - assert (H0 : io_mutex (if has_text_api s then set_text_api_attr false s
                           else s) = false
                 /\ tx_view (if has_text_api s then set_text_api_attr false s
                             else s) = tx_view s)
      by (destruct (has_text_api s); split; auto).
    destruct H0 as (M0 & T0).
    set (s0 := if has_text_api s then set_text_api_attr false s else s) in *.
    cbn [io_mutex set_minor set_intfdata]. rewrite M0.
    match goal with
    | |- exists _,
          match usb_kill_anchored_urbs (usb_kill_urb ?t) with _ => _ end = _
      =>
        destruct (sem_kill_urb t) as (_ & K2 & K3 & _);
        destruct (kill_anchored_returns (usb_kill_urb t)) as (k & -> & _)
    end.
    + rewrite K2, K3. open_views. simpl. congruence.
    + eauto.
Qed.

(** ** Handles and references *)

(** X1: [open] followed by [release] is a round trip: a successful
    [open] takes one reference and one unit of power usage, and [release]
    on the handle gives both back, leaving the session as it was before
    the [open]. *)
Theorem open_release_round_trip (v : variant) (s : usb_rt) :
  minor s = true -> intfdata s = true -> io_mutex s = false ->
  (v = Generic -> interface s = true) -> kref s <> 0%nat ->
  let s1 := snd (usb_rt_open 0 s) in
  fst (usb_rt_open 0 s) = 0
  /\ kref s1 = S (kref s) /\ pm_usage s1 = pm_usage s + 1
  /\ release_in v (Some s1) = Some (0, Some s).
Proof.
  intros Hn Hd Hm Hi Hk. unfold usb_rt_open. rewrite Hn, Hd. simpl.
  repeat split.
  destruct s as [i d n pm ls sb oi u bis bos bf bc er og kr mx dc ht ta].
  simpl in *; subst. destruct kr as [| k]; [contradiction |].
  destruct v; simpl.
  - rewrite (Hi eq_refl).
    unfold Rt.usb_rt_release, mutex_lock, mutex_unlock, kref_put,
      usb_rt_delete, kref_get. simpl.
    replace (pm + 1 - 1) with pm by lia. reflexivity.
  - unfold Mtr.usb_rt_release, kref_put, usb_rt_delete, kref_get. simpl.
    replace (pm + 1 - 1) with pm by lia. reflexivity.
Qed.

Lemma open_release_round_trip_witness :
  release_in Motor (Some (session_open Motor))
  = Some (0, Some (session_attached Motor)).
Proof.
  destruct (open_release_round_trip Motor (session_attached Motor)
              eq_refl eq_refl eq_refl)
    as (_ & _ & _ & H); [discriminate | discriminate | exact H].
Defined.

(** X2: [open] takes its reference only when it returns 0, which it does
    exactly when the device node is registered, the interface carries the
    session and the power-management call succeeds; on any other result the
    session is untouched.  After [disconnect] of either variant, [open]
    returns [-ENODEV]. *)
Theorem open_takes_a_reference_only_on_success (s : usb_rt) (rv : Z) :
  (fst (usb_rt_open rv s) = 0
   <-> minor s = true /\ intfdata s = true /\ rv = 0)
  /\ (fst (usb_rt_open rv s) <> 0 -> snd (usb_rt_open rv s) = s)
  /\ (forall v s0, disconnect_in v s0 = Some s ->
                   usb_rt_open rv s = (- ENODEV, s)).
Proof.
  split; [| split].
  - unfold usb_rt_open.
    destruct (minor s), (intfdata s), (rv =? 0) eqn:Er; zbool; simpl;
      (split; [intros H | intros (H1 & H2 & H3)]);
      try discriminate; try contradiction; auto.
  - unfold usb_rt_open.
    destruct (minor s), (intfdata s), (rv =? 0) eqn:Er; zbool; simpl;
      intros H; try reflexivity; contradiction.
  - intros v s0 H. apply disconnect_in_effect in H.
    destruct H as (_ & _ & Hn & _). unfold usb_rt_open. rewrite Hn.
    reflexivity.
Qed.

Lemma open_takes_a_reference_only_on_success_witness :
  exists s,
    disconnect_in Generic (session_open Generic) = Some s
    /\ usb_rt_open 0 s = (- ENODEV, s).
Proof.
  destruct (disconnect_in_returns Generic (session_open Generic)
              eq_refl eq_refl) as (s & Hs).
  exists s. split; [exact Hs |].
  destruct (open_takes_a_reference_only_on_success s 0) as (_ & _ & H).
  exact (H Generic _ Hs).
Defined.

(** With a send on the anchor that is not in flight, the cancellation of
    the anchored sends in [disconnect] never ends. *)
Lemma disconnect_in_stuck v s :
  submitted s <> out_inflight s -> disconnect_in v s = None.
Proof.
  intros H.
  destruct v; simpl;
    [unfold Rt.usb_rt_disconnect | unfold Mtr.usb_rt_disconnect];
    unfold mutex_lock, usb_deregister_dev.
  - cbn [io_mutex set_minor set_intfdata].
    destruct (io_mutex s); [reflexivity |].
    rewrite kill_anchored_stuck; [reflexivity | exact H].
  - assert (H0 : tx_view (if has_text_api s then set_text_api_attr false s
                          else s) = tx_view s)
      by (destruct (has_text_api s); reflexivity).
    set (s0 := if has_text_api s then set_text_api_attr false s else s) in *.
    cbn [io_mutex set_minor set_intfdata].
    destruct (io_mutex s0); [reflexivity |].
    rewrite kill_anchored_stuck; [reflexivity |].
    match goal with
    | |- submitted (usb_kill_urb ?t) <> _ =>
        destruct (kill_urb_frame t) as (_ & _ & U & _)
    end.
    unfold tx_view in U, H0. simpl in U.
    injection U as _ U2 U3 _. injection H0 as _ H2 H3 _.
    congruence.
Qed.

(** X3: the session is freed by whichever of [disconnect] and [release]
    drops the last reference, and not before: each takes one reference
    off, and the receive descriptor is gone afterwards exactly if it was
    gone before or the count was at most 1.  [release] returns whenever
    the lock is free.  [disconnect] cancels the anchored sends before it
    drops its reference: it returns when every anchored send is in flight,
    and has no result when one is not (the motor variant after a refused
    submission). *)
Theorem session_freed_with_the_last_reference (v : variant) (s : usb_rt) :
  io_mutex s = false ->
  (exists s',
      release_in v (Some s) = Some (0, Some s')
      /\ kref s' = Nat.pred (kref s)
      /\ no_bulk_in_urb s' = no_bulk_in_urb s || (kref s <=? 1)%nat)
  /\ (submitted s = out_inflight s ->
      exists s',
        disconnect_in v s = Some s' /\ kref s' = Nat.pred (kref s)
        /\ no_bulk_in_urb s' = no_bulk_in_urb s || (kref s <=? 1)%nat)
  /\ (submitted s <> out_inflight s -> disconnect_in v s = None).
Proof.
  intros Hm. split; [| split].
  - destruct s as [i d n pm ls sb oi u bis bos bf bc er og kr mx dc ht ta].
    simpl in *. subst.
    destruct v; simpl;
      unfold Rt.usb_rt_release, Mtr.usb_rt_release, mutex_lock, mutex_unlock,
        kref_put, usb_rt_delete, no_bulk_in_urb; simpl;
      destruct i, kr as [| [| k]]; simpl; eexists;
      (split; [reflexivity |]); simpl;
      rewrite ?orb_true_r, ?orb_false_r; auto.
  - intros Ha. destruct (disconnect_in_returns v s Hm Ha) as (s' & Hs').
    exists s'. split; [exact Hs' |].
    apply disconnect_in_effect in Hs'. tauto.
  - apply disconnect_in_stuck.
Qed.

Lemma session_freed_with_the_last_reference_witness :
  (exists s1 s2,
      disconnect_in Motor (session_open Motor) = Some s1
      /\ no_bulk_in_urb s1 = false
      /\ release_in Motor (Some s1) = Some (0, Some s2)
      /\ no_bulk_in_urb s2 = true)
  /\ disconnect_in Motor motor_send_refused = None.
Proof.
  destruct (session_freed_with_the_last_reference Motor (session_open Motor)
              eq_refl) as (_ & Hd & _).
  destruct (Hd eq_refl) as (s1 & H1 & K1 & U1).
  pose proof (disconnect_in_effect _ _ _ H1) as (_ & M1 & _).
  destruct (session_freed_with_the_last_reference Motor s1 M1)
    as ((s2 & H2 & K2 & U2) & _).
  destruct (session_freed_with_the_last_reference Motor motor_send_refused
              eq_refl) as (_ & _ & Hn).
  split.
  - exists s1, s2. split; [exact H1 |]. split; [exact U1 |].
    split; [exact H2 |]. rewrite U2, K1, U1. reflexivity.
  - apply Hn. vm_compute. discriminate.
Defined.

(** ** After disconnect *)

(** X4: on a torn-down session [read] with a non-empty request returns
    [-ENODEV] and changes nothing; [write] never submits a transfer: it
    returns a negative value with the anchor, the sends in flight and the
    free slots as they were, and [-ENODEV] once it got a slot, found no
    pending error and copied the data.  [poll] of the generic variant does
    not look at the mark: with nothing buffered it starts a receive all
    the same. *)
Theorem no_transfer_on_a_torn_down_session (v : variant) (PAGE_SIZE : Z)
  (s : usb_rt) :
  torn_down v s = true ->
  (forall nonblock count e,
      no_bulk_in_urb s = false -> 0 < count -> io_mutex s = false ->
      read_in v s nonblock count e = Some (- ENODEV, s))
  /\ (forall nonblock count e r s',
      write_in v PAGE_SIZE s nonblock count e = Some (r, s') -> 0 < count ->
      r < 0 /\ out_inflight s' = out_inflight s
      /\ submitted s' = submitted s /\ limit_sem s' = limit_sem s)
  /\ (forall nonblock count e,
      0 < count -> 0 < limit_sem s -> 0 <= errors s ->
      w_urb e = true -> w_buf e = true -> w_copy_left e = 0 ->
      io_mutex s = false ->
      write_in v PAGE_SIZE s nonblock count e = Some (- ENODEV, s))
  /\ (forall rv,
      v = Generic -> ongoing_read s = false -> unread s = 0 -> 0 <= rv ->
      ongoing_read (snd (Rt.usb_rt_poll rv s)) = true).
Proof.
  intros Ht. split; [| split; [| split]].
  - intros nonblock count e Hu Hn Hm.
    assert (Hcount : (count =? 0) = false) by (apply Z.eqb_neq; lia).
    destruct v; simpl in Ht |- *;
      [unfold Rt.usb_rt_read | unfold Mtr.usb_rt_read];
      unfold mutex_lock_interruptible; rewrite Hu, Hcount, Hm;
      cbn [orb Z.ltb Z.compare interface disconnected set_io_mutex];
      rewrite Ht; rewrite (unlock_after_lock s Hm); reflexivity.
  - intros nonblock count e r s'.
    destruct v; simpl in Ht |- *; rewrite ?negb_true_iff in Ht;
      [unfold Rt.usb_rt_write, Rt.write_error
      | unfold Mtr.usb_rt_write, Mtr.write_error];
      unfold_kernel; intros H Hn; crush; zbool; simpl in *;
      repeat split; try lia; try congruence;
      destruct (_ =? - EPIPE); lia.
  - intros nonblock count e Hn Hsem He Hu Hb Hc Hm.
    assert (Hcount : (count =? 0) = false) by (apply Z.eqb_neq; lia).
    assert (Hsem' : (0 <? limit_sem s) = true) by (apply Z.ltb_lt; lia).
    assert (He' : (errors s <? 0) = false) by (apply Z.ltb_ge; lia).
    destruct v; simpl in Ht |- *; rewrite ?negb_true_iff in Ht;
      [unfold Rt.usb_rt_write, Rt.write_error
      | unfold Mtr.usb_rt_write, Mtr.write_error];
      unfold down_interruptible, down_trylock, mutex_lock, mutex_unlock, up;
      rewrite Hcount, Hsem'; destruct nonblock; simpl;
      repeat (progress (rewrite ?He', ?Hu, ?Hb, ?Hc, ?Hm, ?Ht; simpl));
      f_equal; f_equal; destruct s; unfold_setters; simpl in *; subst;
      f_equal; lia.
  - intros rv _ Ho Hun Hrv. unfold Rt.usb_rt_poll. unfold unread in Hun.
    rewrite Ho, Hun. cbn [negb Z.eqb snd].
    destruct (do_read_io_fields s (bulk_in_size s) rv)
      as (_ & _ & _ & -> & _).
    apply negb_true_iff, Z.ltb_ge. exact Hrv.
Qed.

Lemma no_transfer_on_a_torn_down_session_witness :
  exists s,
    disconnect_in Motor (session_open Motor) = Some s
    /\ read_in Motor s false 8 env_copy_ok = Some (- ENODEV, s)
    /\ write_in Motor 4096 s false 8 env_write_ok = Some (- ENODEV, s).
Proof.
  destruct (disconnect_in Motor (session_open Motor)) as [s |] eqn:Hs;
    [| vm_compute in Hs; discriminate].
  exists s. split; [reflexivity |].
  vm_compute in Hs. injection Hs as <-.
  match goal with
  | |- read_in Motor ?t _ _ _ = _ /\ _ =>
      destruct (no_transfer_on_a_torn_down_session Motor 4096 t eq_refl)
        as (Hr & _ & Hw & _)
  end.
  split; [apply Hr; reflexivity | apply Hw; try reflexivity; lia].
Defined.

(** ** Draw-down and the events that use it *)

Lemma draw_down_quiet done s :
  submitted s = out_inflight s ->
  exists s',
    usb_rt_draw_down done s = Some s' /\ idle s'
    /\ limit_sem s' = limit_sem s + Z.of_nat (out_inflight s)
    /\ held_view s' = held_view s /\ io_mutex s' = io_mutex s
    /\ bulk_in_filled s' = bulk_in_filled s
    /\ bulk_in_copied s' = bulk_in_copied s
    /\ bulk_in_urb s' = bulk_in_urb s
    /\ (ongoing_read s = true -> errors s' = - ENOENT).
Proof.
  intros Ha. destruct (draw_down_returns done s Ha)
    as (s' & Hd & D1 & D2 & D3 & _).
  exists s'. split; [exact Hd |]. split; [unfold idle; auto |].
  pose proof (slots_draw_down _ _ _ Hd) as Hs. unfold slots in Hs.
  rewrite D2 in Hs. split; [simpl in Hs; lia |].
  apply draw_down_frame in Hd. tauto.
Qed.

(** X5: [usb_rt_draw_down] returns with nothing outstanding: no send on
    the anchor or in flight and no receive; every slot the sends held is
    free again, which in a reachable session means all of them; the bytes
    in the receive buffer stay; a receive that was outstanding leaves the
    cancellation code [-ENOENT] in the error slot; a second draw-down
    changes nothing. *)
Theorem draw_down_leaves_nothing_outstanding (s : usb_rt) (done : list Z) :
  submitted s = out_inflight s ->
  exists s',
    usb_rt_draw_down done s = Some s' /\ idle s'
    /\ limit_sem s' = limit_sem s + Z.of_nat (out_inflight s)
    /\ bulk_in_filled s' = bulk_in_filled s
    /\ bulk_in_copied s' = bulk_in_copied s
    /\ (ongoing_read s = true -> errors s' = - ENOENT)
    /\ (idle s -> s' = s)
    /\ (forall done', usb_rt_draw_down done' s' = Some s')
    /\ (forall v PAGE_SIZE,
           reachable_in v PAGE_SIZE s -> limit_sem s' = writes_in_flight v).
Proof.
  intros Ha. destruct (draw_down_quiet done s Ha)
    as (s' & Hd & (I1 & I2 & I3) & Hl & _ & _ & Hf & Hc & _ & He).
  exists s'. repeat split; auto.
  - intros (J1 & J2 & J3).
    rewrite (draw_down_idle done s J1 J2 J3) in Hd. congruence.
  - intros done'. apply draw_down_idle; assumption.
  - intros v PAGE_SIZE Hr. apply reachable_in_ok in Hr.
    destruct Hr as (_ & Hs). unfold slots in Hs. lia.
Qed.

Lemma draw_down_leaves_nothing_outstanding_witness :
  exists s',
    usb_rt_draw_down [] session_receiving = Some s'
    /\ idle s' /\ errors s' = - ENOENT
    /\ limit_sem s' = Rt.WRITES_IN_FLIGHT.
Proof.
  destruct (draw_down_leaves_nothing_outstanding session_receiving []
              eq_refl)
    as (s' & Hd & Hi & Hl & _ & _ & He & _).
  exists s'. split; [exact Hd |]. split; [exact Hi |].
  split; [apply He; reflexivity | rewrite Hl; reflexivity].
Defined.

(** *** Every send in flight is on the anchor *)

Lemma draw_down_order done s s' :
  (out_inflight s <= submitted s)%nat ->
  usb_rt_draw_down done s = Some s' ->
  submitted s' = out_inflight s'.
Proof.
  intros Hle H.
  destruct (Nat.eq_dec (submitted s) (out_inflight s)) as [E | E].
  - eapply anchor_draw_down; eauto.
  - rewrite draw_down_stuck in H by lia. discriminate.
Qed.

Lemma order_of_tx_view (s s' : usb_rt) :
  tx_view s' = tx_view s ->
  (out_inflight s <= submitted s)%nat ->
  (out_inflight s' <= submitted s')%nat.
Proof. unfold tx_view. intros [= _ -> -> _]. auto. Qed.

Lemma Mtr_write_order s nonblock count e r s' :
  Mtr.usb_rt_write s nonblock count e = Some (r, s') ->
  (out_inflight s <= submitted s)%nat ->
  (out_inflight s' <= submitted s')%nat.
Proof.
  unfold Mtr.usb_rt_write, Mtr.write_error. unfold_kernel.
  intros H Hle. crush; zbool; simpl in *; lia.
Qed.

(** In a reachable session the anchor holds the sends in flight, and in
    the motor variant also the sends whose submission was refused: either
    every anchored send is in flight, or more sends are anchored than are
    in flight. *)
Lemma reachable_in_anchor_order v PAGE_SIZE s :
  reachable_in v PAGE_SIZE s -> (out_inflight s <= submitted s)%nat.
Proof.
  destruct v; simpl.
  { intros H. apply Rt_reachable_anchor in H. lia. }
  induction 1 as
    [ maxp_in maxp_out text_api Hm1 Hm2
    | s rv _ IH
    | s r s' _ IH Hop
    | s done r s' _ IH Hop
    | s signal rv r s' _ IH Hop
    | s nonblock count e r s' _ IH Hc Hop
    | s nonblock count e r s' _ IH Hc Hop
    | s status len s' _ IH Hop
    | s status _ IH Hpos
    | s s' _ IH Hop
    | s done r s' _ IH Hop
    | s _ IH
    | s done r s' _ IH Hop
    | s _ IH ].
  - destruct text_api; simpl; lia.
  - unfold usb_rt_open.
    destruct (negb (minor s)), (negb (intfdata s)), (negb (rv =? 0));
      exact IH.
  - unfold Mtr.usb_rt_release in Hop. injection Hop as _ <-.
    match goal with
    | |- (out_inflight (kref_put _ ?t) <= _)%nat =>
        destruct (anchor_kref_put t) as [-> ->]
    end.
    exact IH.
  - unfold usb_rt_flush, mutex_lock in Hop.
    destruct (io_mutex s); [discriminate |].
    destruct (usb_rt_draw_down done (set_io_mutex true s)) as [d |] eqn:Ed;
      [| discriminate].
    injection Hop as _ <-. apply draw_down_order in Ed; [| exact IH].
    simpl. lia.
  - destruct (Mtr_poll_frame _ _ _ _ _ Hop) as (_ & _ & Ht).
    eapply order_of_tx_view; eauto.
  - eapply order_of_tx_view; [eapply Mtr_tx_view_read; exact Hop | exact IH].
  - eapply Mtr_write_order; eauto.
  - eapply order_of_tx_view;
      [eapply tx_view_read_giveback; exact Hop | exact IH].
  - destruct (write_giveback_fields status s) as (_ & _ & -> & ->). lia.
  - apply (disconnect_in_effect Motor) in Hop.
    destruct Hop as (_ & _ & _ & _ & _ & _ & _ & -> & -> & _). lia.
  - unfold usb_rt_suspend in Hop. destruct (negb (intfdata s)).
    + injection Hop as _ <-. exact IH.
    + destruct (usb_rt_draw_down done s) as [d |] eqn:Ed; [| discriminate].
      injection Hop as _ <-. apply draw_down_order in Ed; [lia | exact IH].
  - exact IH.
  - unfold usb_rt_pre_reset, mutex_lock in Hop.
    destruct (io_mutex s); [discriminate |].
    destruct (usb_rt_draw_down done (set_io_mutex true s)) as [d |] eqn:Ed;
      [| discriminate].
    injection Hop as _ <-. apply draw_down_order in Ed; [lia | exact IH].
  - exact IH.
Qed.

Lemma reachable_in_anchor_cases v PAGE_SIZE s :
  reachable_in v PAGE_SIZE s ->
  submitted s = out_inflight s \/ (out_inflight s < submitted s)%nat.
Proof. intros H. apply reachable_in_anchor_order in H. lia. Qed.
(** X6: [suspend] returns 0.  Without driver data on the interface it
    does nothing; otherwise it draws down, and [resume] restores nothing:
    a receive that was outstanding stays cancelled, and the first [read]
    after the resume returns [-EIO] for it.  This is for a session whose
    anchored sends are all in flight; with a send on the anchor that is
    not in flight (the motor variant after a refused submission) the
    draw-down, and with it [suspend], does not return.  A reachable
    session is in one of the two cases. *)
Theorem suspend_cancels_the_receive (v : variant) (s : usb_rt)
  (done : list Z) :
  (intfdata s = false -> usb_rt_suspend done s = Some (0, s))
  /\ (intfdata s = true -> submitted s = out_inflight s ->
      exists s',
        usb_rt_suspend done s = Some (0, s') /\ idle s'
        /\ usb_rt_resume s' = (0, s')
        /\ (ongoing_read s = true ->
            errors s' = - ENOENT
            /\ forall nonblock count e,
                no_bulk_in_urb s = false -> 0 < count ->
                io_mutex s = false -> torn_down v s = false ->
                read_in v s' nonblock count e
                  = Some (- EIO, set_errors 0 s')))
  /\ (intfdata s = true -> (out_inflight s < submitted s)%nat ->
      usb_rt_suspend done s = None)
  /\ (forall PAGE_SIZE,
         reachable_in v PAGE_SIZE s ->
         submitted s = out_inflight s \/ (out_inflight s < submitted s)%nat).
Proof.
  unfold usb_rt_suspend. split; [| split; [| split]].
  - intros ->. reflexivity.
  - intros -> Ha. cbn [negb].
    destruct (draw_down_quiet done s Ha)
      as (s' & -> & Hi & _ & Hv & Hm & _ & _ & Hu & He).
    exists s'. repeat split; try apply Hi.
    + apply He; assumption.
    + intros nonblock count e Hnu Hn Hmu Ht.
      specialize (He H). destruct Hi as (_ & _ & Ho).
      rewrite (read_in_surfaces v s' nonblock count e); try assumption.
      * rewrite He. reflexivity.
      * unfold no_bulk_in_urb in *. rewrite Hu. exact Hnu.
      * congruence.
      * open_views. destruct v; simpl in *; congruence.
      * rewrite He. reflexivity.
  - intros -> Hs. cbn [negb]. rewrite (draw_down_stuck done s Hs).
    reflexivity.
  - intros PAGE_SIZE. apply reachable_in_anchor_cases.
Qed.

Lemma suspend_cancels_the_receive_witness :
  (exists s',
      usb_rt_suspend [] session_receiving = Some (0, s')
      /\ read_in Generic (snd (usb_rt_resume s')) false 8 env_copy_ok
         = Some (- EIO, set_errors 0 s'))
  /\ usb_rt_suspend [] motor_send_refused = None.
Proof.
  destruct (suspend_cancels_the_receive Generic session_receiving [])
    as (_ & H & _).
  destruct (H eq_refl eq_refl) as (s' & Hs & _ & Hr & Hc).
  destruct (suspend_cancels_the_receive Motor motor_send_refused [])
    as (_ & _ & Hn & _).
  split.
  - exists s'. split; [exact Hs |]. rewrite Hr.
    destruct (Hc eq_refl) as (_ & Hread). apply Hread; reflexivity.
  - apply Hn; [reflexivity | vm_compute; lia].
Defined.





(** ** The error slot *)


(** ** What [read] and [write] return *)





(** X11: a submission that the USB core refuses ends [write] with the
    core's own code, not translated and not recorded in the error slot;
    the slot taken is given back and nothing is in flight.  The generic
    variant takes the transfer off the anchor again; the motor variant
    hands [usb_unanchor_urb] a [NULL] pointer, so the transfer stays on
    the anchor. *)
Theorem write_passes_on_a_refused_submission (v : variant) (PAGE_SIZE : Z)
  (s : usb_rt) (nonblock : bool) (count : Z) (e : write_env) :
  0 < count -> 0 < limit_sem s -> 0 <= errors s ->
  w_urb e = true -> w_buf e = true -> w_copy_left e = 0 ->
  io_mutex s = false -> torn_down v s = false -> w_submit e <> 0 ->
  exists s',
    write_in v PAGE_SIZE s nonblock count e = Some (w_submit e, s')
    /\ limit_sem s' = limit_sem s /\ out_inflight s' = out_inflight s
    /\ errors s' = errors s /\ io_mutex s' = false
    /\ held_view s' = held_view s /\ rx_view s' = rx_view s
    /\ submitted s'
       = match v with
         | Generic => submitted s
         | Motor => S (submitted s)
         end.
Proof.
  intros Hn Hsem He Hu Hb Hc Hm Ht Hs.
  assert (Hcount : (count =? 0) = false) by (apply Z.eqb_neq; lia).
  assert (Hsem' : (0 <? limit_sem s) = true) by (apply Z.ltb_lt; lia).
  assert (He' : (errors s <? 0) = false) by (apply Z.ltb_ge; lia).
  apply Z.eqb_neq in Hs.
  destruct v; simpl in Ht |- *; rewrite ?negb_false_iff in Ht;
    [unfold Rt.usb_rt_write, Rt.write_error
    | unfold Mtr.usb_rt_write, Mtr.write_error];
    unfold down_interruptible, down_trylock, mutex_lock, usb_submit_out,
      usb_anchor_urb, usb_unanchor_urb, mutex_unlock, up;
    rewrite Hcount, Hsem'; destruct nonblock; simpl;
    repeat (progress (rewrite ?He', ?Hu, ?Hb, ?Hc, ?Hm, ?Ht, ?Hs; simpl));
    eexists; (split; [reflexivity |]); simpl; repeat split; lia.
Qed.

Lemma write_passes_on_a_refused_submission_witness :
  exists s',
    write_in Motor 4096 session_motor_64 true 8
      {| w_signal := false; w_urb := true; w_buf := true; w_copy_left := 0;
         w_submit := - ENODEV |} = Some (- ENODEV, s')
    /\ submitted s' = 1%nat /\ out_inflight s' = 0%nat.
Proof.
  destruct (write_passes_on_a_refused_submission Motor 4096 session_motor_64
              true 8
              {| w_signal := false; w_urb := true; w_buf := true;
                 w_copy_left := 0; w_submit := - ENODEV |})
    as (s' & Hw & _ & Ho & _ & _ & _ & _ & Hs);
    try reflexivity; try discriminate.
  exists s'. split; [exact Hw |]. split; [exact Hs | exact Ho].
Defined.

Lemma write_in_no_slot v PAGE_SIZE s count e :
  limit_sem s <= 0 -> count <> 0 ->
  write_in v PAGE_SIZE s true count e = Some (- EAGAIN, s)
  /\ (w_signal e = true ->
      write_in v PAGE_SIZE s false count e = Some (- ERESTARTSYS, s))
  /\ (w_signal e = false -> write_in v PAGE_SIZE s false count e = None).
Proof.
  intros Hsem Hn.
  assert (Hcount : (count =? 0) = false) by (apply Z.eqb_neq; lia).
  assert (Hsem' : (0 <? limit_sem s) = false) by (apply Z.ltb_ge; lia).
  destruct v; simpl;
    [unfold Rt.usb_rt_write | unfold Mtr.usb_rt_write];
    unfold down_interruptible, down_trylock; rewrite Hcount, Hsem';
    simpl; (split; [reflexivity |]);
    split; intros ->; reflexivity.
Qed.

(** X12: without a free admission slot [write] stops before it looks at
    anything else: with [O_NONBLOCK] it returns [-EAGAIN], without it
    [-ERESTARTSYS] when a signal ends the wait, and otherwise it does not
    return until a slot is given back.  The session is unchanged; a pending
    error is neither reported nor cleared. *)
Theorem write_without_a_free_slot (v : variant) (PAGE_SIZE : Z)
  (s : usb_rt) (count : Z) (e : write_env) :
  limit_sem s <= 0 -> count <> 0 ->
  write_in v PAGE_SIZE s true count e = Some (- EAGAIN, s)
  /\ (w_signal e = true ->
      write_in v PAGE_SIZE s false count e = Some (- ERESTARTSYS, s))
  /\ (w_signal e = false -> write_in v PAGE_SIZE s false count e = None).
Proof. apply write_in_no_slot. Qed.

Lemma write_without_a_free_slot_witness :
  exists s,
    write_in Motor 4096 session_motor_64 true 8 env_write_ok = Some (8, s)
    /\ write_in Motor 4096 s true 8 env_write_ok = Some (- EAGAIN, s).
Proof.
  destruct (write_in Motor 4096 session_motor_64 true 8 env_write_ok)
    as [[r s] |] eqn:Hw; vm_compute in Hw; [| discriminate].
  injection Hw as <- <-. eexists. split; [reflexivity |].
  match goal with
  | |- write_in Motor 4096 ?t true 8 env_write_ok = _ =>
      destruct (write_without_a_free_slot Motor 4096 t 8 env_write_ok)
        as (H & _)
  end; [vm_compute; discriminate | discriminate | exact H].
Defined.


(** ** More that holds in every reachable session *)

Lemma attach_inv_held v s s' :
  held_view s' = held_view s -> (0 <= limit_sem s -> 0 <= limit_sem s') ->
  attach_inv v s -> attach_inv v s'.
Proof.
  unfold attach_inv. intros Hv Hl (I1 & I2 & I3). open_views.
  split; [auto |]. split; [congruence |]. destruct v; [congruence |].
  intros Ha. destruct I3 as (J1 & J2); [congruence |]. split; congruence.
Qed.

Lemma attach_inv_open v rv s :
  attach_inv v s -> attach_inv v (snd (usb_rt_open rv s)).
Proof.
  unfold usb_rt_open.
  destruct (negb (minor s)), (negb (intfdata s)), (negb (rv =? 0)); auto.
Qed.

Lemma attach_inv_kref_put v s :
  attach_inv v s -> attach_inv v (kref_put usb_rt_delete s).
Proof.
  rewrite kref_put_cases. destruct (kref s <=? 1)%nat; auto.
Qed.

Lemma attach_inv_disconnect v s s' :
  disconnect_in v s = Some s' -> attach_inv v s -> attach_inv v s'.
Proof.
  intros H (I1 & I2 & I3). apply disconnect_in_effect in H.
  destruct H as (_ & _ & _ & Hd & _ & _ & _ & _ & _ & Hl & _ & Ho & Hh & Ha
                 & _).
  split; [lia |]. split; [congruence |]. destruct v; [congruence |].
  intros Hattr. exfalso. rewrite Ha in Hattr.
  destruct (has_text_api s) eqn:E; [discriminate |].
  destruct (I3 Hattr) as (J1 & _). congruence.
Qed.

Lemma attach_inv_draw_down v done s s' :
  usb_rt_draw_down done s = Some s' -> attach_inv v s -> attach_inv v s'.
Proof.
  intros H. apply draw_down_frame in H.
  destruct H as (Hv & _ & _ & _ & _ & Hl & _).
  apply attach_inv_held; [exact Hv | lia].
Qed.

Lemma Rt_reachable_attach_inv PAGE_SIZE s :
  Rt.reachable PAGE_SIZE s -> attach_inv Generic s.
Proof.
  induction 1 as
    [ maxp Hm
    | s rv _ IH
    | s r s' _ IH Hop
    | s done r s' _ IH Hop
    | s rv _ IH
    | s nonblock count e r s' _ IH Hc Hop
    | s nonblock count e r s' _ IH Hc Hop
    | s status len s' _ IH Hop
    | s status _ IH Hpos
    | s s' _ IH Hop
    | s done r s' _ IH Hop
    | s _ IH
    | s done r s' _ IH Hop
    | s _ IH ].
  - unfold attach_inv. simpl. repeat split. discriminate.
  - apply attach_inv_open. exact IH.
  - unfold Rt.usb_rt_release, mutex_lock in Hop.
    destruct (io_mutex s); [discriminate |]. injection Hop as _ <-.
    apply attach_inv_kref_put. destruct (interface s); exact IH.
  - apply flush_frame in Hop. destruct Hop as (Hv & _ & _ & Hl & _).
    eapply attach_inv_held; [exact Hv | lia | exact IH].
  - destruct (Rt_poll_frame rv s) as (Hv & _ & Ht).
    eapply attach_inv_held; [exact Hv | open_views; lia | exact IH].
  - pose proof (read_in_frame Generic _ _ _ _ _ _ Hop) as (Hv & _).
    pose proof (Rt_tx_view_read _ _ _ _ _ _ Hop) as Ht.
    eapply attach_inv_held; [exact Hv | open_views; lia | exact IH].
  - pose proof (write_in_frame Generic _ _ _ _ _ _ _ Hop)
      as (Hv & _ & _ & Hl & _).
    eapply attach_inv_held; [exact Hv | exact Hl | exact IH].
  - pose proof (held_view_read_giveback _ _ _ _ Hop) as Hv.
    pose proof (tx_view_read_giveback _ _ _ _ Hop) as Ht.
    eapply attach_inv_held; [exact Hv | open_views; lia | exact IH].
  - destruct (write_giveback_frame status s) as (Hv & _ & _ & Hl & _).
    eapply attach_inv_held; [exact Hv | lia | exact IH].
  - eapply (attach_inv_disconnect Generic); eauto.
  - apply suspend_frame in Hop. destruct Hop as (_ & Hv & _ & Hl).
    eapply attach_inv_held; [exact Hv | lia | exact IH].
  - exact IH.
  - apply pre_reset_frame in Hop. destruct Hop as (_ & Hv & _ & _ & Hl & _).
    eapply attach_inv_held; [exact Hv | lia | exact IH].
  - exact IH.
Qed.

Lemma Mtr_reachable_attach_inv s :
  Mtr.reachable s -> attach_inv Motor s.
Proof.
  induction 1 as
    [ maxp_in maxp_out text_api Hm1 Hm2
    | s rv _ IH
    | s r s' _ IH Hop
    | s done r s' _ IH Hop
    | s signal rv r s' _ IH Hop
    | s nonblock count e r s' _ IH Hc Hop
    | s nonblock count e r s' _ IH Hc Hop
    | s status len s' _ IH Hop
    | s status _ IH Hpos
    | s s' _ IH Hop
    | s done r s' _ IH Hop
    | s _ IH
    | s done r s' _ IH Hop
    | s _ IH ].
  - unfold attach_inv. destruct text_api; simpl; repeat split; try lia;
      discriminate.
  - apply attach_inv_open. exact IH.
  - unfold Mtr.usb_rt_release in Hop. injection Hop as _ <-.
    apply attach_inv_kref_put. exact IH.
  - apply flush_frame in Hop. destruct Hop as (Hv & _ & _ & Hl & _).
    eapply attach_inv_held; [exact Hv | lia | exact IH].
  - destruct (Mtr_poll_frame _ _ _ _ _ Hop) as (Hv & _ & Ht).
    eapply attach_inv_held; [exact Hv | open_views; lia | exact IH].
  - pose proof (read_in_frame Motor _ _ _ _ _ _ Hop) as (Hv & _).
    pose proof (Mtr_tx_view_read _ _ _ _ _ _ Hop) as Ht.
    eapply attach_inv_held; [exact Hv | open_views; lia | exact IH].
  - pose proof (write_in_frame Motor 0 _ _ _ _ _ _ Hop)
      as (Hv & _ & _ & Hl & _).
    eapply attach_inv_held; [exact Hv | exact Hl | exact IH].
  - pose proof (held_view_read_giveback _ _ _ _ Hop) as Hv.
    pose proof (tx_view_read_giveback _ _ _ _ Hop) as Ht.
    eapply attach_inv_held; [exact Hv | open_views; lia | exact IH].
  - destruct (write_giveback_frame status s) as (Hv & _ & _ & Hl & _).
    eapply attach_inv_held; [exact Hv | lia | exact IH].
  - eapply (attach_inv_disconnect Motor); eauto.
  - apply suspend_frame in Hop. destruct Hop as (_ & Hv & _ & Hl).
    eapply attach_inv_held; [exact Hv | lia | exact IH].
  - exact IH.
  - apply pre_reset_frame in Hop. destruct Hop as (_ & Hv & _ & _ & Hl & _).
    eapply attach_inv_held; [exact Hv | lia | exact IH].
  - exact IH.
Qed.

Lemma reachable_in_attach_inv v PAGE_SIZE s :
  reachable_in v PAGE_SIZE s -> attach_inv v s.
Proof.
  destruct v; simpl;
    [apply Rt_reachable_attach_inv | apply Mtr_reachable_attach_inv].
Qed.

(** X13: never more sends in flight than [WRITES_IN_FLIGHT] (8 in the
    generic variant, 1 in the motor variant): in every reachable session
    the admission semaphore is between 0 and that number, it is 0 exactly
    when that many sends are in flight, and a non-blocking [write] then
    returns [-EAGAIN]. *)
Theorem sends_in_flight_are_bounded (v : variant) (PAGE_SIZE : Z)
  (s : usb_rt) :
  reachable_in v PAGE_SIZE s ->
  0 <= limit_sem s <= writes_in_flight v
  /\ Z.of_nat (out_inflight s) <= writes_in_flight v
  /\ (limit_sem s = 0 <-> Z.of_nat (out_inflight s) = writes_in_flight v)
  /\ (forall count e,
         Z.of_nat (out_inflight s) = writes_in_flight v -> count <> 0 ->
         write_in v PAGE_SIZE s true count e = Some (- EAGAIN, s)).
Proof.
  intros Hr. pose proof (reachable_in_attach_inv _ _ _ Hr) as (Hl & _).
  apply reachable_in_ok in Hr. destruct Hr as (_ & Hs). unfold slots in Hs.
  repeat split; try lia.
  intros count e Hfull Hn. apply write_in_no_slot; [lia | exact Hn].
Qed.

Lemma sends_in_flight_are_bounded_witness :
  0 <= limit_sem session_with_data <= 8
  /\ Z.of_nat (out_inflight session_with_data) <= 8.
Proof.
  destruct (sends_in_flight_are_bounded Generic 4096 session_with_data
              session_with_data_reachable) as (H1 & H2 & _).
  split; [exact H1 | exact H2].
Defined.

(** X14: the serializing lock is released on every path: whenever
    [read], [write], [poll], [flush], [release], [disconnect], [suspend]
    or [open] returns, the lock is as the call found it.  Only the pair
    [pre_reset] and [post_reset] is different: the first returns with the
    lock held, the second releases it. *)
Theorem lock_is_released_on_every_path (v : variant) (PAGE_SIZE : Z)
  (s : usb_rt) :
  (forall nonblock count e r s',
      read_in v s nonblock count e = Some (r, s') ->
      io_mutex s' = io_mutex s)
  /\ (forall nonblock count e r s',
      write_in v PAGE_SIZE s nonblock count e = Some (r, s') ->
      io_mutex s' = io_mutex s)
  /\ (forall signal rv r s',
      poll_in v signal rv s = Some (r, s') -> io_mutex s' = io_mutex s)
  /\ (forall done r s',
      usb_rt_flush (Some s) done = Some (r, Some s') ->
      io_mutex s' = io_mutex s)
  /\ (forall r s',
      release_in v (Some s) = Some (r, Some s') -> io_mutex s' = io_mutex s)
  /\ (forall s', disconnect_in v s = Some s' -> io_mutex s' = io_mutex s)
  /\ (forall done r s',
      usb_rt_suspend done s = Some (r, s') -> io_mutex s' = io_mutex s)
  /\ (forall rv, io_mutex (snd (usb_rt_open rv s)) = io_mutex s)
  /\ (forall done r s',
      usb_rt_pre_reset done s = Some (r, s') ->
      io_mutex s = false /\ io_mutex s' = true)
  /\ io_mutex (snd (usb_rt_post_reset s)) = false.
Proof.
  repeat match goal with |- _ /\ _ => split end.
  - intros nonblock count e r s' H. apply read_in_frame in H. tauto.
  - intros nonblock count e r s' H. apply write_in_frame in H. tauto.
  - intros signal rv r s' H. destruct v; simpl in H.
    + injection H as H. apply (f_equal snd) in H. simpl in H. subst s'.
      apply Rt_poll_frame.
    + apply Mtr_poll_frame in H. tauto.
  - intros done r s' H. apply flush_frame in H.
    destruct H as (_ & -> & -> & _). reflexivity.
  - intros r s'. destruct v; simpl.
    + unfold Rt.usb_rt_release, mutex_lock.
      destruct (io_mutex s) eqn:Em; [discriminate |]. intros [= _ <-].
      rewrite kref_put_cases.
      destruct (kref _ <=? 1)%nat; reflexivity.
    + unfold Mtr.usb_rt_release. intros [= _ <-]. rewrite kref_put_cases.
      destruct (kref _ <=? 1)%nat; reflexivity.
  - intros s' H. apply disconnect_in_effect in H.
    destruct H as (-> & -> & _). reflexivity.
  - intros done r s' H. apply suspend_frame in H. tauto.
  - intros rv. unfold usb_rt_open.
    destruct (negb (minor s)), (negb (intfdata s)), (negb (rv =? 0));
      reflexivity.
  - intros done r s' H. apply pre_reset_frame in H. tauto.
  - reflexivity.
Qed.

(** X15: the motor variant never learns the size of its send endpoint:
    attach assigns the packet size of that endpoint to [bulk_in_size], and
    [bulk_out_size] keeps the 0 of [kzalloc] in every reachable session.
    [write] truncates to that size: a [write] that submits its transfer
    returns 0, and none returns a positive count. *)
Theorem motor_write_sends_nothing (s : usb_rt) :
  Mtr.reachable s ->
  bulk_out_size s = 0
  /\ (forall nonblock count e r s',
         0 <= count -> Mtr.usb_rt_write s nonblock count e = Some (r, s') ->
         (out_inflight s' = S (out_inflight s) -> r = 0)
         /\ (w_submit e <= 0 -> r <= 0))
  /\ (forall maxp_in maxp_out text_api,
         bulk_in_size (Mtr.usb_rt_probe maxp_in maxp_out text_api)
         = maxp_out).
Proof.
  intros Hr. apply Mtr_reachable_attach_inv in Hr.
  destruct Hr as (_ & Ho & _). split; [exact Ho |]. split.
  - intros nonblock count e r s' Hc Hw.
    pose proof (Mtr_write_effect _ _ _ _ _ _ Hw) as (_ & _ & Hcase).
    assert (Hz : to_ssize (Z.min count (bulk_out_size s)) = 0)
      by (rewrite Ho, Z.min_r by lia; reflexivity).
    split.
    + intros Hs. destruct Hcase as [(Hsame & _) | (_ & _ & ->)]; [lia |].
      exact Hz.
    + intros Hsub. destruct Hcase as [(Hsame & _) | (_ & _ & ->)]; [| lia].
      destruct (Z.eq_dec count 0) as [-> | Hn].
      * unfold Mtr.usb_rt_write in Hw. simpl in Hw. injection Hw as <- _.
        lia.
      * pose proof (write_in_not_submitted Motor 0 _ _ _ _ _ _ Hw Hn Hsub
                      Hsame). lia.
  - intros maxp_in maxp_out text_api. destruct text_api; reflexivity.
Qed.

Lemma motor_write_sends_nothing_witness :
  exists s',
    Mtr.usb_rt_write (session_attached Motor) false 100 env_write_ok
    = Some (0, s')
    /\ out_inflight s' = 1%nat.
Proof.
  assert (Hr : Mtr.reachable (session_attached Motor))
    by (apply Mtr.m_probe; lia).
  destruct (Mtr.usb_rt_write (session_attached Motor) false 100 env_write_ok)
    as [[r s'] |] eqn:Hw; [| vm_compute in Hw; discriminate].
  destruct (motor_write_sends_nothing _ Hr) as (_ & H & _).
  destruct (H false 100 env_write_ok r s') as (Hz & _);
    [lia | exact Hw |].
  assert (Ho : out_inflight s' = 1%nat)
    by (vm_compute in Hw; injection Hw as _ <-; reflexivity).
  exists s'. rewrite (Hz Ho). split; [reflexivity | exact Ho].
Defined.

(** ** [poll] and [read] together *)




(** ** Attach *)

Lemma find_endpoints_spec a d0 d1 :
  RtAttach.find_endpoints a = Some (d0, d1)
  <-> bInterfaceNumber a = 0 /\ endpoint a = [d0; d1]
      /\ kind d0 = Bulk_in /\ kind d1 = Bulk_out.
Proof.
  unfold RtAttach.find_endpoints, bNumEndpoints, usb_endpoint_is_bulk_in,
    usb_endpoint_is_bulk_out.
  split.
  - destruct (bInterfaceNumber a =? 0) eqn:E0; [| discriminate].
    destruct (endpoint a) as [| e0 [| e1 [| e2 rest]]].
    + discriminate.
    + discriminate.
    + simpl.
      destruct (kind e0) eqn:K0, (kind e1) eqn:K1; simpl; try discriminate.
      intros [= <- <-]. zbool. auto.
    + replace (Z.of_nat (length (e0 :: e1 :: e2 :: rest)) =? 2) with false
        by (symmetry; apply Z.eqb_neq; cbn [length]; lia).
      discriminate.
  - intros (-> & -> & -> & ->). reflexivity.
Qed.

(** X17: [usb_rt_probe] of the generic variant returns 0 exactly when
    [kzalloc] gave the session, the interface has number 0 and exactly two
    endpoints, bulk-in first and bulk-out second, the receive buffer and
    descriptor were allocated and the device node was registered; the
    session is then [Rt.usb_rt_probe] for the packet size of the first
    endpoint.  On every other exit the session, if there was one, is freed
    and neither registered nor left on the interface; the value returned
    is [-ENOMEM], the answer of [usb_register_dev], or, when the endpoints
    are not as expected, the positive number 1. *)
Theorem generic_probe_exits (a : usb_host_interface)
  (e : RtAttach.probe_env) :
  let r := fst (RtAttach.usb_rt_probe a e) in
  let o := snd (RtAttach.usb_rt_probe a e) in
  (r = 0 <->
   RtAttach.p_kzalloc e = true
   /\ (exists d0 d1, RtAttach.find_endpoints a = Some (d0, d1))
   /\ RtAttach.p_buffer e = true /\ RtAttach.p_urb e = true
   /\ RtAttach.p_register e = 0)
  /\ (forall d0 d1,
         r = 0 -> RtAttach.find_endpoints a = Some (d0, d1) ->
         o = Some (Rt.usb_rt_probe (maxp d0)))
  /\ (r <> 0 ->
      (r = - ENOMEM \/ r = 1 \/ r = RtAttach.p_register e)
      /\ (o = None
          \/ exists s,
              o = Some s /\ kref s = 0%nat /\ bulk_in_urb s = None
              /\ intfdata s = false /\ minor s = false))
  /\ (RtAttach.p_kzalloc e = true -> RtAttach.find_endpoints a = None ->
      r = 1)
  /\ (forall d0 d1,
         RtAttach.find_endpoints a = Some (d0, d1)
         <-> bInterfaceNumber a = 0 /\ endpoint a = [d0; d1]
             /\ kind d0 = Bulk_in /\ kind d1 = Bulk_out).
Proof.
  cbv zeta. unfold RtAttach.usb_rt_probe, RtAttach.error.
  split; [| split; [| split; [| split]]].
  - destruct (RtAttach.p_kzalloc e); simpl;
      [| split; [discriminate | intros (? & _); discriminate]].
    destruct (RtAttach.find_endpoints a) as [[d0 d1] |]; simpl;
      [| split; [discriminate | intros (_ & (? & ? & ?) & _); discriminate]].
    destruct (RtAttach.p_buffer e); simpl;
      [| split; [discriminate | intros (_ & _ & ? & _); discriminate]].
    destruct (RtAttach.p_urb e); simpl;
      [| split; [discriminate | intros (_ & _ & _ & ? & _); discriminate]].
    destruct (RtAttach.p_register e =? 0) eqn:Er; zbool; simpl.
    + split; [intros _ | reflexivity]. repeat split; eauto.
    + split; [contradiction | intros (_ & _ & _ & _ & ?); contradiction].
  - intros d0 d1.
    destruct (RtAttach.p_kzalloc e); simpl; [| discriminate].
    destruct (RtAttach.find_endpoints a) as [[e0 e1] |]; simpl;
      [| discriminate].
    destruct (RtAttach.p_buffer e); simpl; [| discriminate].
    destruct (RtAttach.p_urb e); simpl; [| discriminate].
    destruct (RtAttach.p_register e =? 0) eqn:Er; zbool; simpl;
      [| contradiction].
    intros _ [= <- _]. reflexivity.
  - destruct (RtAttach.p_kzalloc e); simpl; [| auto].
    destruct (RtAttach.find_endpoints a) as [[d0 d1] |]; simpl.
    2:{ intros _. split; [auto |]. right. eexists.
        split; [reflexivity |]. repeat split. }
    destruct (RtAttach.p_buffer e); simpl.
    2:{ intros _. split; [auto |]. right. eexists.
        split; [reflexivity |]. repeat split. }
    destruct (RtAttach.p_urb e); simpl.
    2:{ intros _. split; [auto |]. right. eexists.
        split; [reflexivity |]. repeat split. }
    destruct (RtAttach.p_register e =? 0) eqn:Er; zbool; simpl.
    + contradiction.
    + intros _. split; [auto |]. right. eexists.
      split; [reflexivity |]. repeat split.
  - intros -> ->. reflexivity.
  - apply find_endpoints_spec.
Qed.

Lemma generic_probe_exits_witness :
  RtAttach.usb_rt_probe realtime_interface generic_attach_ok
  = (0, Some (Rt.usb_rt_probe 64))
  /\ fst (RtAttach.usb_rt_probe interrupt_interface generic_attach_ok) = 1.
Proof.
  destruct (generic_probe_exits realtime_interface generic_attach_ok)
    as (_ & H & _).
  destruct (generic_probe_exits interrupt_interface generic_attach_ok)
    as (_ & _ & _ & H1 & _).
  split.
  - rewrite (surjective_pairing (RtAttach.usb_rt_probe _ _)).
    rewrite (H _ _ eq_refl eq_refl). reflexivity.
  - apply H1; reflexivity.
Defined.

Lemma realtime_endpoints_missing a :
  MtrAttach.realtime_endpoints a = None
  <-> bInterfaceNumber a = 0
      /\ (endpoint a = []
          \/ exists d0, endpoint a = [d0] /\ kind d0 = Bulk_in).
Proof.
  unfold MtrAttach.realtime_endpoints, usb_endpoint_is_bulk_in,
    usb_endpoint_is_bulk_out.
  destruct (bInterfaceNumber a =? 0) eqn:E0; zbool; simpl.
  2:{ split; [discriminate | intros (? & _); contradiction]. }
  destruct (endpoint a) as [| d0 [| d1 rest]]; simpl.
  - split; auto.
  - destruct (kind d0) eqn:K0; simpl.
    + split; [intros _; split; eauto | reflexivity].
    + split; [discriminate |].
      intros (_ & [? | (? & [= <-] & ?)]); congruence.
    + split; [discriminate |].
      intros (_ & [? | (? & [= <-] & ?)]); congruence.
  - split.
    + destruct (kind d0), (kind d1); simpl; discriminate.
    + intros (_ & [? | (? & ? & _)]); discriminate.
Qed.

(** Case analysis on everything [usb_rt_probe] of the motor variant
    decides on, once the realtime endpoints are known. *)
Ltac motor_probe_cases :=
  unfold MtrAttach.error, MtrAttach.usb_rt_delete; cbv zeta;
  destruct (MtrAttach.text_endpoints _) eqn:Et;
  [destruct (MtrAttach.p_create_file _ =? 0) eqn:Ec |];
  simpl;
  repeat match goal with
    | |- context [if negb ?b then _ else _] => destruct b eqn:?; simpl
    end;
  zbool.

(** X18: [usb_rt_probe] of the motor variant.  When it returns 0 the
    session is [Mtr.usb_rt_probe] for the packet sizes of the first two
    endpoints: [bulk_in_size] is the packet size of the second, the
    bulk-out endpoint, and [bulk_out_size] is 0.  Its error path runs
    [usb_rt_delete], which reads through both transfer descriptors: when
    the endpoints are not as expected, when [device_create_file] fails or
    when an allocation fails before the send descriptor is there, the
    call does not return but reads through a [NULL] descriptor.  The test
    for the endpoints reads the first two entries without looking at their
    number.  An error exit that does return leaves the session freed and
    unregistered, and the attribute of the text interface, once created,
    is not removed. *)
Theorem motor_probe_exits (a : usb_host_interface)
  (e : MtrAttach.probe_env) :
  (MtrAttach.p_kzalloc e = false ->
   MtrAttach.usb_rt_probe a e = MtrAttach.Returns (- ENOMEM) None)
  /\ (MtrAttach.p_kzalloc e = true ->
      (MtrAttach.usb_rt_probe a e = MtrAttach.Missing_endpoint
       <-> bInterfaceNumber a = 0
           /\ (endpoint a = []
               \/ exists d0, endpoint a = [d0] /\ kind d0 = Bulk_in))
      /\ (MtrAttach.realtime_endpoints a = Some None ->
          MtrAttach.usb_rt_probe a e = MtrAttach.Null_urb)
      /\ (forall d0 d1,
             MtrAttach.realtime_endpoints a = Some (Some (d0, d1)) ->
             (MtrAttach.text_endpoints a = true
              /\ MtrAttach.p_create_file e <> 0)
             \/ MtrAttach.p_in_urb e = false
             \/ MtrAttach.p_in_buffer e = false
             \/ MtrAttach.p_out_urb e = false ->
             MtrAttach.usb_rt_probe a e = MtrAttach.Null_urb)
      /\ (forall d0 d1,
             MtrAttach.realtime_endpoints a = Some (Some (d0, d1)) ->
             (MtrAttach.text_endpoints a = true ->
              MtrAttach.p_create_file e = 0) ->
             MtrAttach.p_in_urb e = true -> MtrAttach.p_in_buffer e = true ->
             MtrAttach.p_out_urb e = true ->
             MtrAttach.p_out_buffer e = true ->
             MtrAttach.p_text_buffer e = true ->
             MtrAttach.p_register e = 0 ->
             let s := Mtr.usb_rt_probe (maxp d0) (maxp d1)
                        (MtrAttach.text_endpoints a) in
             MtrAttach.usb_rt_probe a e = MtrAttach.Returns 0 (Some s)
             /\ bulk_in_size s = maxp d1 /\ bulk_out_size s = 0))
  /\ (forall retval s,
         MtrAttach.usb_rt_probe a e = MtrAttach.Returns retval (Some s) ->
         retval <> 0 ->
         (retval = - ENOMEM \/ retval = MtrAttach.p_register e)
         /\ kref s = 0%nat /\ bulk_in_urb s = None
         /\ intfdata s = false /\ minor s = false
         /\ text_api_attr s = MtrAttach.text_endpoints a)
  /\ (forall s,
         MtrAttach.usb_rt_probe a e = MtrAttach.Returns 0 (Some s) ->
         exists d0 d1,
           MtrAttach.realtime_endpoints a = Some (Some (d0, d1))
           /\ s = Mtr.usb_rt_probe (maxp d0) (maxp d1)
                    (MtrAttach.text_endpoints a)).
Proof.
  split; [| split; [| split]].
  - unfold MtrAttach.usb_rt_probe. intros ->. reflexivity.
  - intros Hk. split; [| split; [| split]].
    + rewrite <- realtime_endpoints_missing.
      unfold MtrAttach.usb_rt_probe. rewrite Hk. cbn [negb].
      destruct (MtrAttach.realtime_endpoints a) as [[[d0 d1] |] |].
      * split; [| discriminate]. motor_probe_cases; discriminate.
      * split; discriminate.
      * split; reflexivity.
    + intros Hr. unfold MtrAttach.usb_rt_probe. rewrite Hk, Hr. reflexivity.
    + intros d0 d1 Hr Hcause. unfold MtrAttach.usb_rt_probe.
      rewrite Hk, Hr. cbn [negb].
      motor_probe_cases; try reflexivity; exfalso;
        destruct Hcause as [(? & ?) | [? | [? | ?]]]; congruence.
    + intros d0 d1 Hr Hc Hiu Hib Hou Hob Htb Hreg.
      unfold MtrAttach.usb_rt_probe. rewrite Hk, Hr. cbn [negb].
      motor_probe_cases; try congruence; try (specialize (Hc eq_refl));
        try congruence; repeat split.
  - intros retval s. unfold MtrAttach.usb_rt_probe.
    destruct (MtrAttach.p_kzalloc e); cbn [negb]; [| discriminate].
    destruct (MtrAttach.realtime_endpoints a) as [[[d0 d1] |] |];
      try discriminate.
    motor_probe_cases; try discriminate;
      intros [= <- <-] Hn; try contradiction; repeat split; auto.
  - intros s. unfold MtrAttach.usb_rt_probe.
    destruct (MtrAttach.p_kzalloc e); cbn [negb]; [| discriminate].
    destruct (MtrAttach.realtime_endpoints a) as [[[d0 d1] |] |];
      try discriminate.
    motor_probe_cases; try discriminate;
      intros H; injection H; intros; subst; try congruence;
      exists d0, d1; split; reflexivity.
Qed.

Lemma motor_probe_exits_witness :
  MtrAttach.usb_rt_probe interrupt_interface motor_attach_ok
  = MtrAttach.Null_urb
  /\ MtrAttach.usb_rt_probe text_interface motor_attach_ok
     = MtrAttach.Returns 0 (Some (Mtr.usb_rt_probe 64 32 true)).
Proof.
  destruct (motor_probe_exits interrupt_interface motor_attach_ok)
    as (_ & H1 & _).
  destruct (H1 eq_refl) as (_ & Hnull & _).
  destruct (motor_probe_exits text_interface motor_attach_ok)
    as (_ & H2 & _).
  destruct (H2 eq_refl) as (_ & _ & _ & Hok).
  split; [apply Hnull; reflexivity |].
  apply (Hok {| kind := Bulk_in; maxp := 64 |}
             {| kind := Bulk_out; maxp := 32 |}); reflexivity.
Defined.

(** ** The text interface *)

Lemma text_max_transfer PAGE_SIZE :
  512 <= PAGE_SIZE < 2 ^ 31 ->
  MtrText.MAX_TRANSFER PAGE_SIZE = PAGE_SIZE - 512.
Proof.
  intros H. unfold MtrText.MAX_TRANSFER.
  apply size_sub_small; unfold SIZE_MODULUS; lia.
Qed.

(** X19: the transfers of the text interface are bounded by
    [MAX_TRANSFER] = [PAGE_SIZE - 512].  [text_api_store] sends at most
    that many bytes of what was written and returns how many were sent,
    which is at most the length written; [text_api_show] asks for at most
    that many bytes, so that what it returns fits the page of the
    attribute.  Both return the status of the transfer when it failed.
    With driver data on the interface, [text_api_store] has a result for
    every answer of the USB core. *)
Theorem text_transfers_are_bounded (PAGE_SIZE : Z) (s : usb_rt) :
  512 <= PAGE_SIZE < 2 ^ 31 ->
  (forall count status len r,
      0 <= count < SIZE_MODULUS ->
      MtrText.text_api_store PAGE_SIZE s count status len = Some r ->
      (status < 0 /\ r = status)
      \/ (status = 0 /\ r = len /\ 0 <= r <= count
          /\ r <= PAGE_SIZE - 512))
  /\ (forall status len r,
      MtrText.text_api_show PAGE_SIZE s status len = Some r ->
      (status < 0 /\ r = status)
      \/ (status = 0 /\ r = len /\ 0 <= r <= PAGE_SIZE - 512
          /\ r < PAGE_SIZE))
  /\ (forall count status len,
      0 <= count < SIZE_MODULUS -> intfdata s = true -> status <= 0 ->
      0 <= len <= Z.min count (PAGE_SIZE - 512) ->
      MtrText.text_api_store PAGE_SIZE s count status len
      = Some (if status =? 0 then len else status)).
Proof.
  intros HP. pose proof (text_max_transfer PAGE_SIZE HP) as HM.
  unfold MtrText.text_api_store, MtrText.text_api_show,
    MtrText.usb_bulk_msg.
  rewrite HM. split; [| split].
  - intros count status len r Hc.
    rewrite to_int_small by lia.
    destruct (intfdata s); simpl; [| discriminate].
    destruct (status <=? 0) eqn:E1; [| discriminate].
    destruct (0 <=? len) eqn:E2; [| discriminate].
    destruct (len <=? Z.min count (PAGE_SIZE - 512)) eqn:E3;
      [| discriminate].
    simpl. zbool. destruct (status =? 0) eqn:E4; zbool; simpl;
      intros [= <-]; [right | left]; lia.
  - intros status len r.
    rewrite to_int_small by lia.
    destruct (intfdata s); simpl; [| discriminate].
    destruct (status <=? 0) eqn:E1; [| discriminate].
    destruct (0 <=? len) eqn:E2; [| discriminate].
    destruct (len <=? PAGE_SIZE - 512) eqn:E3; [| discriminate].
    simpl. zbool. destruct (status =? 0) eqn:E4; zbool; simpl;
      intros [= <-]; [right | left]; lia.
  - intros count status len Hc -> Hs Hl.
    rewrite to_int_small by lia. simpl.
    assert (E1 : (status <=? 0) = true) by (apply Z.leb_le; lia).
    assert (E2 : (0 <=? len) = true) by (apply Z.leb_le; lia).
    assert (E3 : (len <=? Z.min count (PAGE_SIZE - 512)) = true)
      by (apply Z.leb_le; lia).
    rewrite E1, E2, E3. simpl. destruct (status =? 0); reflexivity.
Qed.

Lemma text_transfers_are_bounded_witness :
  MtrText.text_api_store 4096 (session_attached Motor) 5000 0 3584
  = Some 3584.
Proof.
  destruct (text_transfers_are_bounded 4096 (session_attached Motor))
    as (_ & _ & H); [lia |].
  apply (H 5000 0 3584); [unfold SIZE_MODULUS; lia | reflexivity | lia |].
  vm_compute. split; discriminate.
Defined.

(** X20: the attribute of the text interface and the session.  In every
    session reachable from an attach that returned 0 the attribute exists
    only while the interface carries the session, so that
    [text_api_store] and [text_api_show], which go through the driver data
    without a test, find it; [disconnect] removes the attribute before it
    clears the driver data.  An attach that fails after it created the
    attribute and returns (the send buffer or the buffer of the text
    interface is not allocated, or the device node is not registered)
    leaves the attribute on an interface without driver data:
    [text_api_show] and [text_api_store] have no result there. *)
Theorem text_attribute_has_its_session :
  (forall s,
      Mtr.reachable s -> text_api_attr s = true ->
      has_text_api s = true /\ intfdata s = true
      /\ (forall PAGE_SIZE status len,
             512 <= PAGE_SIZE < 2 ^ 31 -> status <= 0 ->
             0 <= len <= PAGE_SIZE - 512 ->
             MtrText.text_api_show PAGE_SIZE s status len
             = Some (if status =? 0 then len else status))
      /\ (forall s', Mtr.usb_rt_disconnect s = Some s' ->
                     text_api_attr s' = false /\ intfdata s' = false))
  /\ (forall a e retval s,
         MtrAttach.usb_rt_probe a e = MtrAttach.Returns retval (Some s) ->
         retval <> 0 -> MtrAttach.text_endpoints a = true ->
         text_api_attr s = true /\ intfdata s = false
         /\ forall PAGE_SIZE count status len,
             MtrText.text_api_show PAGE_SIZE s status len = None
             /\ MtrText.text_api_store PAGE_SIZE s count status len = None)
  /\ (forall a e,
         MtrAttach.p_kzalloc e = true ->
         (exists d0 d1,
             MtrAttach.realtime_endpoints a = Some (Some (d0, d1))) ->
         MtrAttach.text_endpoints a = true ->
         MtrAttach.p_create_file e = 0 ->
         MtrAttach.p_in_urb e = true -> MtrAttach.p_in_buffer e = true ->
         MtrAttach.p_out_urb e = true ->
         MtrAttach.p_out_buffer e = false
         \/ MtrAttach.p_text_buffer e = false
         \/ MtrAttach.p_register e <> 0 ->
         exists retval s,
           MtrAttach.usb_rt_probe a e = MtrAttach.Returns retval (Some s)
           /\ retval <> 0).
Proof.
  split; [| split].
  - intros s Hr Ha. apply Mtr_reachable_attach_inv in Hr.
    destruct Hr as (_ & _ & Hi). destruct (Hi Ha) as (Hh & Hd).
    split; [exact Hh |]. split; [exact Hd |]. split.
    + intros PAGE_SIZE status len HP Hs Hl.
      unfold MtrText.text_api_show, MtrText.usb_bulk_msg.
      rewrite (text_max_transfer PAGE_SIZE HP), Hd.
      rewrite to_int_small by lia. simpl.
      assert (E1 : (status <=? 0) = true) by (apply Z.leb_le; lia).
      assert (E2 : (0 <=? len) = true) by (apply Z.leb_le; lia).
      assert (E3 : (len <=? PAGE_SIZE - 512) = true)
        by (apply Z.leb_le; lia).
      rewrite E1, E2, E3. simpl. destruct (status =? 0); reflexivity.
    + intros s' H. apply (disconnect_in_effect Motor) in H.
      destruct H as (_ & _ & _ & Hd' & _ & _ & _ & _ & _ & _ & _ & _ & _
                     & Ha' & _).
      rewrite Ha', Hh. auto.
  - intros a e retval s. unfold MtrAttach.usb_rt_probe.
    destruct (MtrAttach.p_kzalloc e); cbn [negb]; [| discriminate].
    destruct (MtrAttach.realtime_endpoints a) as [[[d0 d1] |] |];
      try discriminate.
    intros H Hn Ht. revert H. rewrite Ht.
    unfold MtrAttach.error, MtrAttach.usb_rt_delete; cbv zeta.
    destruct (MtrAttach.p_create_file e =? 0) eqn:Ec; simpl;
      repeat match goal with
        | |- context [if negb ?b then _ else _] => destruct b eqn:?; simpl
        end;
      zbool; try discriminate;
      intros [= <- <-]; try contradiction;
      (split; [reflexivity |]); (split; [reflexivity |]);
      intros PAGE_SIZE count status len; split; reflexivity.
  - intros a e Hk (d0 & d1 & Hr) Ht Hc Hiu Hib Hou Hcause.
    unfold MtrAttach.usb_rt_probe. rewrite Hk, Hr, Ht, Hc, Hiu, Hib, Hou.
    unfold MtrAttach.error, MtrAttach.usb_rt_delete. simpl.
    destruct (MtrAttach.p_out_buffer e) eqn:Eob; simpl.
    2:{ do 2 eexists. split; [reflexivity | discriminate]. }
    destruct (MtrAttach.p_text_buffer e) eqn:Etb; simpl.
    2:{ do 2 eexists. split; [reflexivity | discriminate]. }
    destruct (MtrAttach.p_register e =? 0) eqn:Er; zbool; simpl.
    + exfalso. destruct Hcause as [? | [? | ?]]; congruence.
    + do 2 eexists. split; [reflexivity | exact Er].
Qed.

Lemma text_attribute_has_its_session_witness :
  (intfdata (session_attached Motor) = true
   /\ MtrText.text_api_show 4096 (session_attached Motor) 0 16 = Some 16)
  /\ exists s,
      MtrAttach.usb_rt_probe text_interface motor_attach_no_text_buffer
      = MtrAttach.Returns (- ENOMEM) (Some s)
      /\ text_api_attr s = true
      /\ MtrText.text_api_show 4096 s 0 16 = None.
Proof.
  destruct text_attribute_has_its_session as (H1 & H2 & _).
  assert (Hr : Mtr.reachable (session_attached Motor))
    by (apply Mtr.m_probe; lia).
  destruct (H1 _ Hr eq_refl) as (_ & Hd & Hs & _).
  split; [split; [exact Hd | apply (Hs 4096 0 16); lia] |].
  eexists. split; [vm_compute; reflexivity |].
  match goal with
  | |- text_api_attr ?t = true /\ _ =>
      destruct (H2 text_interface motor_attach_no_text_buffer (- ENOMEM) t)
        as (Ha & _ & Hn);
        [vm_compute; reflexivity | discriminate | reflexivity |]
  end.
  split; [exact Ha | exact (proj1 (Hn 4096 0 0 16))].
Defined.
